(** * Simple-Router-API: market-data router and paper-trading engine

    A shallow embedding of the Python sources under [app/] and the
    properties stated about them.

    Conventions of the embedding.
    - Python [float] values (prices, quantities, balances, timestamps)
      are exact rationals [Q] in the main embedding; infinities and NaN
      are outside the model.  The lemmas on the reservation ledger rest
      on exact cancellation and say so.  The module [Binary64] repeats
      the paper engine on IEEE 754 binary64, where rounding decides a
      property.
    - The process-wide dictionaries of [STATE] that are only looked up by
      key are [gmap]s; dictionaries whose iteration order is observable
      (the per-venue quote map, the EWMA table of a connection, JSON
      objects) are insertion-ordered association lists.
    - [async] functions run to completion without interleaving; a lock is
      a critical section and so is not represented.
    - [math.exp] and [math.log 2] are parameters of the EWMA section. *)

From Stdlib Require Import QArith Qround Lqa Lia ZArith Ascii String List Bool.
From Stdlib Require Strings.Byte.
From Stdlib Require Import Floats.PrimFloat.
From stdpp Require Import base option list gmap strings pretty.

Set Warnings "-register-all,-inexact-float".

Local Open Scope Q_scope.
Local Open Scope string_scope.

(** ** Comparisons on floats *)

Definition Qleb (x y : Q) : bool := Qle_bool x y.
Definition Qltb (x y : Q) : bool := negb (Qle_bool y x).
Definition Qeqb (x y : Q) : bool := Qeq_bool x y.
Definition Qmax (x y : Q) : Q := if Qltb x y then y else x.
Definition Qmin (x y : Q) : Q := if Qltb y x then y else x.

(** Python's [x % n] on floats with a positive integer modulus: the
    result has the sign of the divisor. *)
Definition Qmod (x : Q) (n : Z) : Q :=
  x - inject_Z n * inject_Z (Qfloor (x / inject_Z n)).

(** ** Insertion-ordered dictionaries *)

Fixpoint dict_get {V} (k : string) (d : list (string * V)) : option V :=
  match d with
  | [] => None
  | (k', v) :: d' => if String.eqb k k' then Some v else dict_get k d'
  end.

(** [d[k] = v]: an existing key keeps its position, a new key goes last. *)
Fixpoint dict_set {V} (k : string) (v : V) (d : list (string * V))
  : list (string * V) :=
  match d with
  | [] => [(k, v)]
  | (k', v') :: d' =>
      if String.eqb k k' then (k', v) :: d' else (k', v') :: dict_set k v d'
  end.

(** ** app/config.py *)

Definition endswith (s suffix : string) : bool :=
  let n := String.length s in
  let m := String.length suffix in
  (m <=? n)%nat && String.eqb (substring (n - m) m s) suffix.

(** [s[:-k]] *)
Definition drop_last (k : nat) (s : string) : string :=
  substring 0 (String.length s - k) s.

(** [s[-k:]] *)
Definition take_last (k : nat) (s : string) : string :=
  substring (String.length s - k) k s.

Definition split_symbol (symbol : string) : string * string :=
  if endswith symbol "USDT" then (drop_last 4 symbol, "USDT")
  else if endswith symbol "USD" then (drop_last 3 symbol, "USD")
  else if endswith symbol "USDC" then (drop_last 4 symbol, "USDC")
  else (drop_last 3 symbol, take_last 3 symbol).

Definition symbols : list string :=
  ["BTCUSDT"; "ETHUSDT"; "SOLUSDT"; "ADAUSDT"; "XRPUSDT"].

Definition kline_intervals_seconds : list Z := [1; 10; 60; 300]%Z.

(** ** app/state.py *)

Record Order := mkOrder {
  token_id : string;
  username : string;
  symbol : string;
  side : string;
  price : Q;
  quantity : Q;
  status : string;
  filled_price : option Q;
  reason : option string;
  reserved_amount : Q;
  created_at : Q
}.

Record Balance := mkBalance {
  total : Q;
  available : Q
}.

(** [Balance()] *)
Definition Balance0 : Balance := mkBalance 0 0.

Record User := mkUser {
  user_name : string;
  password_hash : string
}.

Record MarketState := mkMarketState {
  best_bid : option Q;
  best_ask : option Q;
  exchange : string;
  timestamp : Q
}.

Record AppState := mkAppState {
  users : gmap string User;
  balances : gmap string (gmap string Balance);
  orders : gmap string Order;
  open_orders_by_symbol : gmap string (list string);
  best_touch : gmap string (list (string * MarketState));
  last_trade : gmap string (gmap string Q)
}.

(** [AppState()] *)
Definition STATE0 : AppState := mkAppState ∅ ∅ ∅ ∅ ∅ ∅.

Definition set_balances (st : AppState) b : AppState :=
  mkAppState (users st) b (orders st) (open_orders_by_symbol st)
             (best_touch st) (last_trade st).
Definition set_orders (st : AppState) o : AppState :=
  mkAppState (users st) (balances st) o (open_orders_by_symbol st)
             (best_touch st) (last_trade st).
Definition set_open_orders (st : AppState) ix : AppState :=
  mkAppState (users st) (balances st) (orders st) ix
             (best_touch st) (last_trade st).
Definition set_best_touch (st : AppState) bt : AppState :=
  mkAppState (users st) (balances st) (orders st) (open_orders_by_symbol st)
             bt (last_trade st).
Definition set_last_trade (st : AppState) lt : AppState :=
  mkAppState (users st) (balances st) (orders st) (open_orders_by_symbol st)
             (best_touch st) lt.

Definition set_status (o : Order) (s : string) : Order :=
  mkOrder (token_id o) (username o) (symbol o) (side o) (price o) (quantity o)
          s (filled_price o) (reason o) (reserved_amount o) (created_at o).
Definition set_filled_price (o : Order) (p : option Q) : Order :=
  mkOrder (token_id o) (username o) (symbol o) (side o) (price o) (quantity o)
          (status o) p (reason o) (reserved_amount o) (created_at o).

(** ** app/paper.py *)

(** The balance object that [_get_balance] hands out: the stored one, or
    the fresh [Balance()] that [setdefault] has just stored. *)
Definition balance_of (bals : gmap string (gmap string Balance))
    (u asset : string) : Balance :=
  default Balance0 (default ∅ (bals !! u) !! asset).

(** [_get_balance]: both [setdefault] calls, leaving the entry in place. *)
Definition _get_balance (bals : gmap string (gmap string Balance))
    (u asset : string) : gmap string (gmap string Balance) * Balance :=
  let user_bal := default ∅ (bals !! u) in
  let bal := default Balance0 (user_bal !! asset) in
  (<[u := <[asset := bal]> user_bal]> bals, bal).

(** An in-place update of the object returned by [_get_balance]. *)
Definition update_balance (bals : gmap string (gmap string Balance))
    (u asset : string) (f : Balance → Balance)
  : gmap string (gmap string Balance) :=
  let '(bals1, bal) := _get_balance bals u asset in
  <[u := <[asset := f bal]> (default ∅ (bals1 !! u))]> bals1.

Definition add_total (x : Q) (b : Balance) : Balance :=
  mkBalance (total b + x) (available b).
Definition sub_total (x : Q) (b : Balance) : Balance :=
  mkBalance (total b - x) (available b).
Definition add_available (x : Q) (b : Balance) : Balance :=
  mkBalance (total b) (available b + x).
Definition sub_available (x : Q) (b : Balance) : Balance :=
  mkBalance (total b) (available b - x).

Definition _reserve_for_order (bals : gmap string (gmap string Balance))
    (u sd sym : string) (p qty : Q)
  : gmap string (gmap string Balance) * (bool * Q * string) :=
  let '(base, quote) := split_symbol sym in
  if String.eqb sd "buy" then
    let cost := p * qty in
    let '(bals1, bal) := _get_balance bals u quote in
    if Qltb (available bal) cost
    then (bals1, (false, 0, "insufficient " ++ quote ++ " balance"))
    else (update_balance bals1 u quote (sub_available cost), (true, cost, ""))
  else
    let '(bals1, bal) := _get_balance bals u base in
    if Qltb (available bal) qty
    then (bals1, (false, 0, "insufficient " ++ base ++ " balance"))
    else (update_balance bals1 u base (sub_available qty), (true, qty, "")).

Definition _release_reserve (bals : gmap string (gmap string Balance))
    (u sd sym : string) (reserved : Q) : gmap string (gmap string Balance) :=
  let '(base, quote) := split_symbol sym in
  if String.eqb sd "buy"
  then update_balance bals u quote (add_available reserved)
  else update_balance bals u base (add_available reserved).

(** The two balance objects may be one and the same (when base and quote
    coincide), so every assignment is applied to the store in source
    order. *)
Definition _apply_fill (bals : gmap string (gmap string Balance))
    (u sd sym : string) (p qty reserved : Q)
  : gmap string (gmap string Balance) :=
  let '(base, quote) := split_symbol sym in
  if String.eqb sd "buy" then
    let b0 := fst (_get_balance (fst (_get_balance bals u quote)) u base) in
    let cost := p * qty in
    let b1 := update_balance b0 u quote (sub_total cost) in
    let b2 := update_balance b1 u base (add_total qty) in
    let b3 := update_balance b2 u base (add_available qty) in
    if Qltb cost reserved
    then update_balance b3 u quote (add_available (reserved - cost))
    else b3
  else
    let b0 := fst (_get_balance (fst (_get_balance bals u base)) u quote) in
    let b1 := update_balance b0 u base (sub_total qty) in
    let b2 := update_balance b1 u quote (add_total (p * qty)) in
    update_balance b2 u quote (add_available (p * qty)).

Definition deposit (u asset : string) (amount : Q) (st : AppState)
  : AppState :=
  let b1 := update_balance (balances st) u asset (add_total amount) in
  set_balances st (update_balance b1 u asset (add_available amount)).

(** [[tid for tid in l if tid != token_id]] *)
Definition remove_token (tid : string) (l : list string) : list string :=
  List.filter (fun t => negb (String.eqb t tid)) l.

Definition unindex (sym tid : string) (ix : gmap string (list string))
  : gmap string (list string) :=
  match ix !! sym with
  | Some l => <[sym := remove_token tid l]> ix
  | None => ix
  end.

(** [place_order]; [now] is the value of [time.time()]. *)
Definition place_order (now : Q) (u tid sym sd : string) (p qty : Q)
    (st : AppState) : AppState * (bool * option Order * string) :=
  match orders st !! tid with
  | Some _ => (st, (false, None, "token_id already exists"))
  | None =>
      let '(bals, (ok, reserved, why)) :=
        _reserve_for_order (balances st) u sd sym p qty in
      if negb ok then (set_balances st bals, (false, None, why))
      else
        let order := mkOrder tid u sym sd p qty "open" None None reserved now in
        let st1 := set_orders (set_balances st bals) (<[tid := order]> (orders st)) in
        let l := default [] (open_orders_by_symbol st1 !! sym) in
        (set_open_orders st1 (<[sym := (l ++ [tid])%list]> (open_orders_by_symbol st1)),
         (true, Some order, ""))
  end.

Definition cancel_order (u tid : string) (st : AppState)
  : AppState * (bool * string) :=
  match orders st !! tid with
  | None => (st, (false, "order not found"))
  | Some order =>
      if negb (String.eqb (username order) u)
      then (st, (false, "order not found"))
      else if negb (String.eqb (status order) "open")
      then (st, (false, "order is not open"))
      else
        let st1 := set_orders st (<[tid := set_status order "cancelled"]> (orders st)) in
        let st2 := set_balances st1
          (_release_reserve (balances st1) u (side order) (symbol order)
                            (reserved_amount order)) in
        (set_open_orders st2
           (unindex (symbol order) tid (open_orders_by_symbol st2)),
         (true, ""))
  end.

Definition get_order (u tid : string) (st : AppState) : option Order :=
  match orders st !! tid with
  | None => None
  | Some order =>
      if negb (String.eqb (username order) u) then None else Some order
  end.

(** The price at which an order crosses the given bests, if it does. *)
Definition fill_price_of (order : Order) (bb ba : option Q) : option Q :=
  let fp1 :=
    match ba with
    | Some a =>
        if String.eqb (side order) "buy" && Qleb a (price order)
        then Some a else None
    | None => None
    end in
  match bb with
  | Some b =>
      if String.eqb (side order) "sell" && Qleb (price order) b
      then Some b else fp1
  | None => fp1
  end.

(** One iteration of the loop of [execute_on_best_touch]. *)
Definition execute_one (bb ba : option Q) (st : AppState) (tid : string)
  : AppState :=
  match orders st !! tid with
  | None => st
  | Some order =>
      if negb (String.eqb (status order) "open") then st
      else
        match fill_price_of order bb ba with
        | None => st
        | Some fp =>
            let order' := set_filled_price (set_status order "filled") (Some fp) in
            let st1 := set_orders st (<[tid := order']> (orders st)) in
            let st2 := set_balances st1
              (_apply_fill (balances st1) (username order) (side order)
                 (symbol order) fp (quantity order) (reserved_amount order)) in
            set_open_orders st2
              (unindex (symbol order) tid (open_orders_by_symbol st2))
        end
  end.

Definition execute_on_best_touch (sym : string) (bb ba : option Q)
    (st : AppState) : AppState :=
  match bb, ba with
  | None, None => st
  | _, _ =>
      let order_ids := default [] (open_orders_by_symbol st !! sym) in
      foldl (execute_one bb ba) st order_ids
  end.

(** ** app/ws_server.py *)

Record Subscription := mkSubscription {
  sub_stream : string;
  sub_symbol : string;
  sub_exchange : string;
  sub_interval : option string;
  sub_half_life : option Q
}.

Record EwmaState := mkEwmaState {
  value : option Q;
  last_ts : option Q
}.

Record Candle := mkCandle {
  c_start : Q;
  c_end : Q;
  c_open : Q;
  c_high : Q;
  c_low : Q;
  c_close : Q;
  c_volume : Q
}.

(** The JSON payloads handed to [WSConnection.send], by their [type]. *)
Inductive Frame :=
  | BestTouchFrame (sym : string) (bid ask : option Q)
                   (bid_ex ask_ex : option string)
  | TradeFrame (sym ex : string) (p qty ts : Q)
  | KlineFrame (sym ex label : string) (c : Candle)
  | EwmaFrame (sym ex : string) (half_life v ts : Q).

Definition is_ewma (f : Frame) : bool :=
  match f with EwmaFrame _ _ _ _ _ => true | _ => false end.

Definition EwmaKey : Type := string * string * Q.

(** A connection; [websocket] is the sequence of payloads sent so far. *)
Record WSConnection := mkWSConnection {
  websocket : list Frame;
  conn_username : string;
  subs : list Subscription;
  ewma_state : list (EwmaKey * EwmaState)
}.

Definition send (conn : WSConnection) (payload : Frame) : WSConnection :=
  mkWSConnection (websocket conn ++ [payload])%list (conn_username conn)
                 (subs conn) (ewma_state conn).

Definition key_eqb (k1 k2 : EwmaKey) : bool :=
  let '(s1, e1, h1) := k1 in
  let '(s2, e2, h2) := k2 in
  String.eqb s1 s2 && String.eqb e1 e2 && Qeqb h1 h2.

Fixpoint ewma_get (k : EwmaKey) (d : list (EwmaKey * EwmaState))
  : option EwmaState :=
  match d with
  | [] => None
  | (k', v) :: d' => if key_eqb k k' then Some v else ewma_get k d'
  end.

Fixpoint ewma_put (k : EwmaKey) (v : EwmaState)
    (d : list (EwmaKey * EwmaState)) : list (EwmaKey * EwmaState) :=
  match d with
  | [] => [(k, v)]
  | (k', v') :: d' =>
      if key_eqb k k' then (k', v) :: d' else (k', v') :: ewma_put k v d'
  end.

Definition set_ewma_state (conn : WSConnection) d : WSConnection :=
  mkWSConnection (websocket conn) (conn_username conn) (subs conn) d.

Definition _interval_label (interval : Z) : string :=
  if (60 <=? interval)%Z then pretty (interval / 60)%Z ++ "m"
  else pretty interval ++ "s".

(** One pass of the inner loop of [_broadcast] for one subscription. *)
Definition _broadcast_sub (msg : Frame) (stream sym : string)
    (ex interval_label : option string) (conn : WSConnection)
    (sub : Subscription) : WSConnection :=
  if negb (String.eqb (sub_stream sub) stream) then conn
  else if negb (String.eqb (sub_symbol sub) sym) then conn
  else if match ex with
          | Some e => negb (String.eqb e "")
                      && negb (String.eqb (sub_exchange sub) e
                               || String.eqb (sub_exchange sub) "all")
          | None => false
          end then conn
  else if match interval_label with
          | Some l => negb (String.eqb l "")
                      && negb (match sub_interval sub with
                               | Some i => String.eqb i l
                               | None => false
                               end)
          | None => false
          end then conn
  else send conn msg.

Definition _broadcast (msg : Frame) (stream sym : string)
    (ex interval_label : option string) (hub : list WSConnection)
  : list WSConnection :=
  List.map (fun conn =>
    foldl (_broadcast_sub msg stream sym ex interval_label) conn (subs conn))
    hub.

Definition broadcast_best_touch (sym : string) (bid ask : option Q)
    (bid_ex ask_ex : option string) (hub : list WSConnection) :=
  _broadcast (BestTouchFrame sym bid ask bid_ex ask_ex)
             "best_touch" sym None None hub.

Definition broadcast_trade (sym ex : string) (p qty ts : Q)
    (hub : list WSConnection) :=
  _broadcast (TradeFrame sym ex p qty ts) "trades" sym (Some ex) None hub.

Definition broadcast_kline (sym ex : string) (interval : Z) (c : Candle)
    (hub : list WSConnection) :=
  let interval_label := _interval_label interval in
  _broadcast (KlineFrame sym ex interval_label c)
             "klines" sym (Some ex) (Some interval_label) hub.

Section Ewma.

(** [math.exp] and [math.log(2)]. *)
Variable exp : Q → Q.
Variable ln2 : Q.

(** [state.last_ts or ts] *)
Definition last_ts_or (state : EwmaState) (ts : Q) : Q :=
  match last_ts state with
  | Some t => if Qeqb t 0 then ts else t
  | None => ts
  end.

(** The body of the inner loop of [update_ewma_on_trade]. *)
Definition update_ewma_sub (sym ex : string) (p ts : Q)
    (conn : WSConnection) (sub : Subscription) : WSConnection :=
  if negb (String.eqb (sub_stream sub) "ewma") then conn
  else if negb (String.eqb (sub_symbol sub) sym) then conn
  else if negb (String.eqb (sub_exchange sub) "all")
          && negb (String.eqb (sub_exchange sub) ex) then conn
  else
    match sub_half_life sub with
    | None => conn
    | Some hl =>
        if Qeqb hl 0 then conn
        else
          let key := (sym, sub_exchange sub, hl) in
          let state :=
            default (mkEwmaState None None) (ewma_get key (ewma_state conn)) in
          let v' :=
            match value state with
            | None => p
            | Some v =>
                let dt := Qmax 0 (ts - last_ts_or state ts) in
                let alpha :=
                  if Qltb 0 hl then 1 - exp (- ln2 * dt / hl) else 1 in
                (1 - alpha) * v + alpha * p
            end in
          let conn1 :=
            set_ewma_state conn
              (ewma_put key (mkEwmaState (Some v') (Some ts))
                        (ewma_state conn)) in
          send conn1 (EwmaFrame sym (sub_exchange sub) hl v' ts)
    end.

Definition update_ewma_on_trade (sym ex : string) (p ts : Q)
    (hub : list WSConnection) : list WSConnection :=
  List.map (fun conn => foldl (update_ewma_sub sym ex p ts) conn (subs conn))
           hub.

End Ewma.

(** ** app/market.py *)

Definition KlineKey : Type := string * string * Z.

Definition _interval_start (ts : Q) (interval : Z) : Q :=
  ts - Qmod ts interval.

(** Everything the handlers of [market.py] touch: [STATE], [_KLINES] and
    the connections of [WS_HUB]. *)
Record World := mkWorld {
  app : AppState;
  klines : gmap KlineKey Candle;
  hub : list WSConnection
}.

(** The loop of [handle_best_touch] over [per_symbol.items()]; the
    accumulator is [(best_bid, best_bid_exchange, best_ask,
    best_ask_exchange)]. *)
Definition best_step
    (acc : option Q * option string * option Q * option string)
    (item : string * MarketState)
  : option Q * option string * option Q * option string :=
  let '(bb, bbx, ba, bax) := acc in
  let '(ex, st) := item in
  let '(bb, bbx) :=
    match best_bid st with
    | Some b =>
        if match bb with None => true | Some cur => Qltb cur b end
        then (Some b, Some ex) else (bb, bbx)
    | None => (bb, bbx)
    end in
  let '(ba, bax) :=
    match best_ask st with
    | Some a =>
        if match ba with None => true | Some cur => Qltb a cur end
        then (Some a, Some ex) else (ba, bax)
    | None => (ba, bax)
    end in
  (bb, bbx, ba, bax).

Definition synthetic_best (per_symbol : list (string * MarketState))
  : option Q * option string * option Q * option string :=
  foldl best_step (None, None, None, None) per_symbol.

Definition handle_best_touch (ex sym : string) (bid ask ts : Q) (w : World)
  : World :=
  let per_symbol :=
    dict_set ex (mkMarketState (Some bid) (Some ask) ex ts)
             (default [] (best_touch (app w) !! sym)) in
  let st1 := set_best_touch (app w) (<[sym := per_symbol]> (best_touch (app w))) in
  let '(bb, bbx, ba, bax) := synthetic_best per_symbol in
  let hub1 := broadcast_best_touch sym bb ba bbx bax (hub w) in
  mkWorld (execute_on_best_touch sym bb ba st1) (klines w) hub1.

(** The body of the loop of [_update_kline] for one interval. *)
Definition _update_kline_step (sym ex : string) (p qty ts : Q)
    (acc : gmap KlineKey Candle * list WSConnection) (interval : Z)
  : gmap KlineKey Candle * list WSConnection :=
  let '(ks, hb) := acc in
  let key : KlineKey := (sym, ex, interval) in
  let start := _interval_start ts interval in
  let end_ := start + inject_Z interval in
  let candle :=
    match ks !! key with
    | Some c =>
        if Qleb (c_end c) ts then mkCandle start end_ p p p p qty
        else mkCandle (c_start c) (c_end c) (c_open c) (Qmax (c_high c) p)
                      (Qmin (c_low c) p) p (c_volume c + qty)
    | None => mkCandle start end_ p p p p qty
    end in
  (<[key := candle]> ks, broadcast_kline sym ex interval candle hb).

Definition _update_kline (sym ex : string) (p qty ts : Q)
    (acc : gmap KlineKey Candle * list WSConnection)
  : gmap KlineKey Candle * list WSConnection :=
  foldl (_update_kline_step sym ex p qty ts) acc kline_intervals_seconds.

(** One iteration of the body of [kline_tick_loop], at wall-clock [now]:
    the pass over [list(_KLINES.items())]. *)
Definition kline_tick_step (now : Q)
    (acc : gmap KlineKey Candle * list WSConnection)
    (item : KlineKey * Candle)
  : gmap KlineKey Candle * list WSConnection :=
  let '(ks, hb) := acc in
  let '((sym, ex, interval), candle) := item in
  let ks1 :=
    if Qleb (c_end candle) now then
      let new_start := c_end candle in
      let new_end := new_start + inject_Z interval in
      <[(sym, ex, interval) :=
          mkCandle new_start new_end (c_close candle) (c_close candle)
                   (c_close candle) (c_close candle) 0]> ks
    else ks in
  match ks1 !! (sym, ex, interval) with
  | Some c => (ks1, broadcast_kline sym ex interval c hb)
  | None => (ks1, hb)
  end.

Definition kline_tick (now : Q)
    (acc : gmap KlineKey Candle * list WSConnection)
  : gmap KlineKey Candle * list WSConnection :=
  foldl (kline_tick_step now) acc (map_to_list (fst acc)).

Section Trade.

Variable exp : Q → Q.
Variable ln2 : Q.

Definition handle_trade (ex sym : string) (p qty ts : Q) (w : World)
  : World :=
  let lt := last_trade (app w) in
  let st1 :=
    set_last_trade (app w) (<[sym := <[ex := p]> (default ∅ (lt !! sym))]> lt) in
  let hub1 := broadcast_trade sym ex p qty ts (hub w) in
  let '(ks2, hub2) := _update_kline sym ex p qty ts (klines w, hub1) in
  let '(ks3, hub3) := _update_kline sym "all" p qty ts (ks2, hub2) in
  let hub4 := update_ewma_on_trade exp ln2 sym ex p ts hub3 in
  let hub5 := update_ewma_on_trade exp ln2 sym "all" p ts hub4 in
  mkWorld st1 ks3 hub5.

End Trade.

(** ** app/storage.py *)

(** Parsed JSON documents; an object keeps its members in order.
    [json.dumps] followed by [json.loads] is the identity on them. *)
Inductive json :=
  | JNull
  | JNum (q : Q)
  | JStr (s : string)
  | JArr (l : list json)
  | JObj (members : list (string * json)).

Definition json_of_option_num (o : option Q) : json :=
  match o with Some q => JNum q | None => JNull end.
Definition json_of_option_str (o : option string) : json :=
  match o with Some s => JStr s | None => JNull end.

Definition json_of_user (user : User) : json :=
  JObj [("password_hash", JStr (password_hash user))].

Definition json_of_balance (bal : Balance) : json :=
  JObj [("total", JNum (total bal)); ("available", JNum (available bal))].

Definition json_of_order (o : Order) : json :=
  JObj [("token_id", JStr (token_id o));
        ("username", JStr (username o));
        ("symbol", JStr (symbol o));
        ("side", JStr (side o));
        ("price", JNum (price o));
        ("quantity", JNum (quantity o));
        ("status", JStr (status o));
        ("filled_price", json_of_option_num (filled_price o));
        ("reason", json_of_option_str (reason o));
        ("reserved_amount", JNum (reserved_amount o));
        ("created_at", JNum (created_at o))].

(** A dict comprehension [{k: f(v) for k, v in d.items()}] as a JSON
    object. *)
Definition json_of_dict {V} (f : V → json) (d : gmap string V) : json :=
  JObj (List.map (fun '(k, v) => (k, f v)) (map_to_list d)).

(** The document that [save_state] writes to the state file. *)
Definition save_state (st : AppState) : json :=
  JObj [("users", json_of_dict json_of_user (users st));
        ("balances",
         json_of_dict (json_of_dict json_of_balance) (balances st));
        ("orders", json_of_dict json_of_order (orders st));
        ("open_orders_by_symbol",
         json_of_dict (fun l => JArr (List.map JStr l))
                      (open_orders_by_symbol st))].

(** Readers; [None] stands for the exception Python raises, or for a
    value of another type than the dataclass field declares. *)
Definition as_obj (j : json) : option (list (string * json)) :=
  match j with JObj m => Some m | _ => None end.
Definition as_str (j : json) : option string :=
  match j with JStr s => Some s | _ => None end.
Definition as_num (j : json) : option Q :=
  match j with JNum q => Some q | _ => None end.
Definition as_option_num (j : json) : option (option Q) :=
  match j with JNum q => Some (Some q) | JNull => Some None | _ => None end.
Definition as_option_str (j : json) : option (option string) :=
  match j with JStr s => Some (Some s) | JNull => Some None | _ => None end.
Definition as_str_list (j : json) : option (list string) :=
  match j with JArr l => mapM as_str l | _ => None end.

(** [raw.get(k, {})] *)
Definition get_or_empty (k : string) (raw : list (string * json)) : json :=
  default (JObj []) (dict_get k raw).

(** A keyword argument with a default value. *)
Definition kwarg {A} (rd : json → option A) (dflt : A) (k : string)
    (o : list (string * json)) : option A :=
  match dict_get k o with Some j => rd j | None => Some dflt end.

(** A keyword argument without default: [TypeError] when missing. *)
Definition kwarg_req {A} (rd : json → option A) (k : string)
    (o : list (string * json)) : option A :=
  dict_get k o ≫= rd.

Definition only_keys (ks : list string) (o : list (string * json)) : bool :=
  forallb (fun '(k, _) => existsb (String.eqb k) ks) o.

(** [User(username=u, password_hash=v["password_hash"])] *)
Definition user_of_json (u : string) (v : json) : option User :=
  o ← as_obj v; h ← kwarg_req as_str "password_hash" o; Some (mkUser u h).

(** [Balance] built from the keyword arguments [vals] *)
Definition balance_of_json (vals : json) : option Balance :=
  o ← as_obj vals;
  guard (only_keys ["total"; "available"] o = true);;
  t ← kwarg as_num 0 "total" o;
  a ← kwarg as_num 0 "available" o;
  Some (mkBalance t a).

(** [Order] built from the keyword arguments [o] *)
Definition order_of_json (j : json) : option Order :=
  o ← as_obj j;
  guard (only_keys ["token_id"; "username"; "symbol"; "side"; "price";
                    "quantity"; "status"; "filled_price"; "reason";
                    "reserved_amount"; "created_at"] o = true);;
  tid ← kwarg_req as_str "token_id" o;
  u ← kwarg_req as_str "username" o;
  sym ← kwarg_req as_str "symbol" o;
  sd ← kwarg_req as_str "side" o;
  p ← kwarg_req as_num "price" o;
  qty ← kwarg_req as_num "quantity" o;
  s ← kwarg as_str "open" "status" o;
  fp ← kwarg as_option_num None "filled_price" o;
  r ← kwarg as_option_str None "reason" o;
  ra ← kwarg as_num 0 "reserved_amount" o;
  ca ← kwarg as_num 0 "created_at" o;
  Some (mkOrder tid u sym sd p qty s fp r ra ca).

(** [{k: f(k, v) for k, v in j.items()}] *)
Definition dict_of_json {V} (f : string → json → option V) (j : json)
  : option (gmap string V) :=
  o ← as_obj j;
  l ← mapM (fun '(k, v) => x ← f k v; Some (k, x)) o;
  Some (list_to_map l).

(** [load_state]; [file] is the parsed content of the state file, [None]
    when the file does not exist. *)
Definition load_state (file : option json) (st : AppState)
  : option AppState :=
  match file with
  | None => Some st
  | Some doc =>
      raw ← as_obj doc;
      us ← dict_of_json user_of_json (get_or_empty "users" raw);
      bs ← dict_of_json (fun _ => dict_of_json (fun _ => balance_of_json))
                        (get_or_empty "balances" raw);
      os ← dict_of_json (fun _ => order_of_json) (get_or_empty "orders" raw);
      ix ← dict_of_json (fun _ => as_str_list)
                        (get_or_empty "open_orders_by_symbol" raw);
      Some (mkAppState us bs os ix (best_touch st) (last_trade st))
  end.

(** ** app/main.py *)

Inductive Response :=
  | Ok200 (body : json)
  | HTTPException (status_code : Z) (detail : string).

(** [_get_current_user]; [decoded] is what [decode_access_token] returned
    for the bearer token. *)
Definition _get_current_user (decoded : option string)
  : string + Response :=
  match decoded with
  | Some u =>
      if String.eqb u ""
      then inr (HTTPException 401 "Invalid or expired token")
      else inl u
  | None => inr (HTTPException 401 "Invalid or expired token")
  end.

(** [DELETE /orders/{token_id}] *)
Definition cancel (tid : string) (decoded : option string) (st : AppState)
  : AppState * Response :=
  match _get_current_user decoded with
  | inr e => (st, e)
  | inl u =>
      let '(st', (ok, why)) := cancel_order u tid st in
      if negb ok then (st', HTTPException 400 why)
      else (st', Ok200 (JObj [("status", JStr "cancelled")]))
  end.

(** [GET /orders/{token_id}] *)
Definition order_status (tid : string) (decoded : option string)
    (st : AppState) : Response :=
  match _get_current_user decoded with
  | inr e => e
  | inl u =>
      match get_order u tid st with
      | None => HTTPException 404 "order not found"
      | Some order =>
          Ok200 (JObj [("token_id", JStr (token_id order));
                       ("status", JStr (status order));
                       ("symbol", JStr (symbol order));
                       ("side", JStr (side order));
                       ("price", JNum (price order));
                       ("quantity", JNum (quantity order));
                       ("filled_price", json_of_option_num (filled_price order));
                       ("reason", json_of_option_str (reason order))])
      end
  end.

(** [POST /register]; [h] is [hash_password(req.password)].  The access
    token of the response body is issued by [auth.py] and left out. *)
Definition register (u h : string) (st : AppState) : AppState * Response :=
  match users st !! u with
  | Some _ => (st, HTTPException 400 "user already exists")
  | None =>
      let st1 :=
        mkAppState (<[u := mkUser u h]> (users st)) (balances st) (orders st)
                   (open_orders_by_symbol st) (best_touch st) (last_trade st) in
      (set_balances st1
         (<[u := default ∅ (balances st1 !! u)]> (balances st1)),
       Ok200 (JObj [("token_type", JStr "bearer")]))
  end.

(** ** app/exchange/okx.py *)

Definition _okx_symbol (symbol : string) : string :=
  if endswith symbol "USDT" then drop_last 4 symbol ++ "-USDT"
  else if endswith symbol "USDC" then drop_last 4 symbol ++ "-USDC"
  else if endswith symbol "USD" then drop_last 3 symbol ++ "-USD"
  else symbol.

(** [inst.replace("-", "")], by which [_listen] turns an instrument id
    back into a symbol. *)
Fixpoint remove_dashes (inst : string) : string :=
  match inst with
  | EmptyString => EmptyString
  | String c rest =>
      if Ascii.eqb c "-"%char then remove_dashes rest
      else String c (remove_dashes rest)
  end.

(** The [args] of the subscription request built by [_listen]: a ticker
    and a trade channel per symbol. *)
Definition okx_subscribe_args (syms : list string) : list (string * string) :=
  flat_map (fun sym => [("tickers", _okx_symbol sym);
                        ("trades", _okx_symbol sym)]) syms.

(** ** app/auth.py *)

Section Auth.

(** [hashlib.pbkdf2_hmac("sha256", password.encode("utf-8"), salt,
    120_000)], [base64.b64encode(..).decode("utf-8")] and
    [base64.b64decode(..encode("utf-8"))]; [None] is the exception the
    decoder raises. *)
Variable pbkdf2_hmac : string → list Byte.byte → list Byte.byte.
Variable b64encode : list Byte.byte → string.
Variable b64decode : string → option (list Byte.byte).

Definition _pbkdf2_hash (password : string) (salt : list Byte.byte)
  : list Byte.byte :=
  pbkdf2_hmac password salt.

(** [hash_password]; [salt] is the value of [os.urandom(16)]. *)
Definition hash_password (salt : list Byte.byte) (password : string)
  : string :=
  let digest := _pbkdf2_hash password salt in
  b64encode (salt ++ digest)%list.

(** [hmac.compare_digest] *)
Fixpoint compare_digest (a b : list Byte.byte) : bool :=
  match a, b with
  | [], [] => true
  | x :: a', y :: b' => Byte.eqb x y && compare_digest a' b'
  | _, _ => false
  end.

Definition verify_password (password stored_hash : string) : bool :=
  match b64decode stored_hash with
  | Some raw =>
      let salt := take 16 raw in
      let digest := drop 16 raw in
      let candidate := _pbkdf2_hash password salt in
      compare_digest candidate digest
  | None => false
  end.

(** [POST /login]; [token] is [create_access_token(req.username)]. *)
Definition login (u password token : string) (st : AppState) : Response :=
  match users st !! u with
  | Some user =>
      if negb (verify_password password (password_hash user))
      then HTTPException 401 "invalid credentials"
      else Ok200 (JObj [("access_token", JStr token);
                        ("token_type", JStr "bearer")])
  | None => HTTPException 401 "invalid credentials"
  end.

(** [POST /register] with the password hashed under [salt]. *)
Definition register_password (salt : list Byte.byte) (u password : string)
    (st : AppState) : AppState * Response :=
  register u (hash_password salt password) st.

End Auth.

(** ** app/main.py, the other handlers *)

(** [sorted(..)] on strings. *)
Fixpoint insert_sorted (x : string) (l : list string) : list string :=
  match l with
  | [] => [x]
  | y :: l' => if String.leb x y then x :: l else y :: insert_sorted x l'
  end.

Definition sorted (l : list string) : list string :=
  foldr insert_sorted [] l.

(** [sorted({split_symbol(sym)[0] for sym in SETTINGS.symbols}
            | {split_symbol(sym)[1] for sym in SETTINGS.symbols})] *)
Definition assets : list string :=
  sorted (remove_dups (List.map (fun sym => (split_symbol sym).1) symbols
                       ++ List.map (fun sym => (split_symbol sym).2) symbols)).

(** [GET /info] *)
Definition info : Response :=
  Ok200 (JObj [("assets", JArr (List.map JStr assets));
               ("pairs", JArr (List.map JStr symbols))]).

(** [POST /deposit] *)
Definition do_deposit (asset : string) (amount : Q)
    (decoded : option string) (st : AppState) : AppState * Response :=
  match _get_current_user decoded with
  | inr e => (st, e)
  | inl u => (deposit u asset amount st, Ok200 (JObj [("status", JStr "ok")]))
  end.

(** [POST /orders]; [now] is the value of [time.time()]. *)
Definition submit_order (now : Q) (tid sym sd : string) (p qty : Q)
    (decoded : option string) (st : AppState) : AppState * Response :=
  match _get_current_user decoded with
  | inr e => (st, e)
  | inl u =>
      if negb (existsb (String.eqb sym) symbols)
      then (st, HTTPException 400 "invalid symbol")
      else
        let '(st', (ok, order, why)) := place_order now u tid sym sd p qty st in
        if negb ok then (st', HTTPException 400 why)
        else
          match order with
          | Some o => (st', Ok200 (JObj [("token_id", JStr tid);
                                         ("status", JStr (status o))]))
          | None => (st', HTTPException 500 "Internal Server Error")
          end
  end.

(** [GET /balance]: one line per configured asset. *)
Definition balance (decoded : option string) (st : AppState) : Response :=
  match _get_current_user decoded with
  | inr e => e
  | inl u =>
      let user_bal := default ∅ (balances st !! u) in
      Ok200 (JObj [("balances",
        JArr (List.map (fun asset =>
                let bal := default Balance0 (user_bal !! asset) in
                JObj [("asset", JStr asset);
                      ("total", JNum (total bal));
                      ("available", JNum (available bal))])
              assets))])
  end.

(** The [subscribe] branch of the loop of [ws_endpoint], for a message
    whose fields have the types [Subscription] declares;
    [exchange] is [msg.get("exchange", "all")]. *)
Definition ws_subscribe (stream sym : string) (exchange : option string)
    (interval : option string) (half_life : option Q)
    (conn : WSConnection) : WSConnection :=
  mkWSConnection (websocket conn) (conn_username conn)
    (subs conn ++ [mkSubscription stream sym (default "all" exchange)
                                  interval half_life])%list
    (ewma_state conn).

(** The [unsubscribe] branch. *)
Definition ws_unsubscribe (stream sym : string) (conn : WSConnection)
  : WSConnection :=
  mkWSConnection (websocket conn) (conn_username conn)
    (List.filter (fun s => negb (String.eqb (sub_stream s) stream
                                 && String.eqb (sub_symbol s) sym))
                 (subs conn))
    (ewma_state conn).

(** ** app/paper.py on binary64

    The float arithmetic of [paper.py] as CPython performs it: IEEE 754
    binary64 with rounding to nearest.  The module repeats the functions
    of the paper engine over the three dictionaries of [STATE] they work
    on, with [float] for every price, quantity and balance. *)

Module Binary64.

Local Open Scope float_scope.

Record Order := mkOrder {
  token_id : string;
  username : string;
  symbol : string;
  side : string;
  price : float;
  quantity : float;
  status : string;
  filled_price : option float;
  reason : option string;
  reserved_amount : float;
  created_at : float
}.

Record Balance := mkBalance {
  total : float;
  available : float
}.

(** [Balance()] *)
Definition Balance0 : Balance := mkBalance 0 0.

Record AppState := mkAppState {
  balances : gmap string (gmap string Balance);
  orders : gmap string Order;
  open_orders_by_symbol : gmap string (list string)
}.

(** [AppState()] *)
Definition STATE0 : AppState := mkAppState ∅ ∅ ∅.

Definition set_balances (st : AppState) b : AppState :=
  mkAppState b (orders st) (open_orders_by_symbol st).
Definition set_orders (st : AppState) o : AppState :=
  mkAppState (balances st) o (open_orders_by_symbol st).
Definition set_open_orders (st : AppState) ix : AppState :=
  mkAppState (balances st) (orders st) ix.

Definition set_status (o : Order) (s : string) : Order :=
  mkOrder (token_id o) (username o) (symbol o) (side o) (price o) (quantity o)
          s (filled_price o) (reason o) (reserved_amount o) (created_at o).
Definition set_filled_price (o : Order) (p : option float) : Order :=
  mkOrder (token_id o) (username o) (symbol o) (side o) (price o) (quantity o)
          (status o) p (reason o) (reserved_amount o) (created_at o).

Definition balance_of (bals : gmap string (gmap string Balance))
    (u asset : string) : Balance :=
  default Balance0 (default ∅ (bals !! u) !! asset).

Definition _get_balance (bals : gmap string (gmap string Balance))
    (u asset : string) : gmap string (gmap string Balance) * Balance :=
  let user_bal := default ∅ (bals !! u) in
  let bal := default Balance0 (user_bal !! asset) in
  (<[u := <[asset := bal]> user_bal]> bals, bal).

Definition update_balance (bals : gmap string (gmap string Balance))
    (u asset : string) (f : Balance → Balance)
  : gmap string (gmap string Balance) :=
  let '(bals1, bal) := _get_balance bals u asset in
  <[u := <[asset := f bal]> (default ∅ (bals1 !! u))]> bals1.

Definition add_total (x : float) (b : Balance) : Balance :=
  mkBalance (total b + x) (available b).
Definition sub_total (x : float) (b : Balance) : Balance :=
  mkBalance (total b - x) (available b).
Definition add_available (x : float) (b : Balance) : Balance :=
  mkBalance (total b) (available b + x).
Definition sub_available (x : float) (b : Balance) : Balance :=
  mkBalance (total b) (available b - x).

Definition _reserve_for_order (bals : gmap string (gmap string Balance))
    (u sd sym : string) (p qty : float)
  : gmap string (gmap string Balance) * (bool * float * string) :=
  let '(base, quote) := split_symbol sym in
  if String.eqb sd "buy" then
    let cost := p * qty in
    let '(bals1, bal) := _get_balance bals u quote in
    if available bal <? cost
    then (bals1, (false, 0, "insufficient " ++ quote ++ " balance"))
    else (update_balance bals1 u quote (sub_available cost), (true, cost, ""))
  else
    let '(bals1, bal) := _get_balance bals u base in
    if available bal <? qty
    then (bals1, (false, 0, "insufficient " ++ base ++ " balance"))
    else (update_balance bals1 u base (sub_available qty), (true, qty, "")).

Definition _release_reserve (bals : gmap string (gmap string Balance))
    (u sd sym : string) (reserved : float)
  : gmap string (gmap string Balance) :=
  let '(base, quote) := split_symbol sym in
  if String.eqb sd "buy"
  then update_balance bals u quote (add_available reserved)
  else update_balance bals u base (add_available reserved).

Definition _apply_fill (bals : gmap string (gmap string Balance))
    (u sd sym : string) (p qty reserved : float)
  : gmap string (gmap string Balance) :=
  let '(base, quote) := split_symbol sym in
  if String.eqb sd "buy" then
    let b0 := fst (_get_balance (fst (_get_balance bals u quote)) u base) in
    let cost := p * qty in
    let b1 := update_balance b0 u quote (sub_total cost) in
    let b2 := update_balance b1 u base (add_total qty) in
    let b3 := update_balance b2 u base (add_available qty) in
    if cost <? reserved
    then update_balance b3 u quote (add_available (reserved - cost))
    else b3
  else
    let b0 := fst (_get_balance (fst (_get_balance bals u base)) u quote) in
    let b1 := update_balance b0 u base (sub_total qty) in
    let b2 := update_balance b1 u quote (add_total (p * qty)) in
    update_balance b2 u quote (add_available (p * qty)).

Definition deposit (u asset : string) (amount : float) (st : AppState)
  : AppState :=
  let b1 := update_balance (balances st) u asset (add_total amount) in
  set_balances st (update_balance b1 u asset (add_available amount)).

(** [place_order]; [now] is the value of [time.time()]. *)
Definition place_order (now : float) (u tid sym sd : string) (p qty : float)
    (st : AppState) : AppState * (bool * option Order * string) :=
  match orders st !! tid with
  | Some _ => (st, (false, None, "token_id already exists"))
  | None =>
      let '(bals, (ok, reserved, why)) :=
        _reserve_for_order (balances st) u sd sym p qty in
      if negb ok then (set_balances st bals, (false, None, why))
      else
        let order := mkOrder tid u sym sd p qty "open" None None reserved now in
        let st1 :=
          set_orders (set_balances st bals) (<[tid := order]> (orders st)) in
        let l := default [] (open_orders_by_symbol st1 !! sym) in
        (set_open_orders st1
           (<[sym := (l ++ [tid])%list]> (open_orders_by_symbol st1)),
         (true, Some order, ""))
  end.

Definition cancel_order (u tid : string) (st : AppState)
  : AppState * (bool * string) :=
  match orders st !! tid with
  | None => (st, (false, "order not found"))
  | Some order =>
      if negb (String.eqb (username order) u)
      then (st, (false, "order not found"))
      else if negb (String.eqb (status order) "open")
      then (st, (false, "order is not open"))
      else
        let st1 :=
          set_orders st (<[tid := set_status order "cancelled"]> (orders st)) in
        let st2 := set_balances st1
          (_release_reserve (balances st1) u (side order) (symbol order)
                            (reserved_amount order)) in
        (set_open_orders st2
           (unindex (symbol order) tid (open_orders_by_symbol st2)),
         (true, ""))
  end.

Definition fill_price_of (order : Order) (bb ba : option float)
  : option float :=
  let fp1 :=
    match ba with
    | Some a =>
        if String.eqb (side order) "buy" && (a <=? price order)
        then Some a else None
    | None => None
    end in
  match bb with
  | Some b =>
      if String.eqb (side order) "sell" && (price order <=? b)
      then Some b else fp1
  | None => fp1
  end.

Definition execute_one (bb ba : option float) (st : AppState) (tid : string)
  : AppState :=
  match orders st !! tid with
  | None => st
  | Some order =>
      if negb (String.eqb (status order) "open") then st
      else
        match fill_price_of order bb ba with
        | None => st
        | Some fp =>
            let order' :=
              set_filled_price (set_status order "filled") (Some fp) in
            let st1 := set_orders st (<[tid := order']> (orders st)) in
            let st2 := set_balances st1
              (_apply_fill (balances st1) (username order) (side order)
                 (symbol order) fp (quantity order) (reserved_amount order)) in
            set_open_orders st2
              (unindex (symbol order) tid (open_orders_by_symbol st2))
        end
  end.

Definition execute_on_best_touch (sym : string) (bb ba : option float)
    (st : AppState) : AppState :=
  match bb, ba with
  | None, None => st
  | _, _ =>
      let order_ids := default [] (open_orders_by_symbol st !! sym) in
      foldl (execute_one bb ba) st order_ids
  end.

(** The balance invariant of one balance, and of a state. *)
Definition balance_ok (b : Balance) : bool :=
  (0 <=? available b) && (available b <=? total b).

Definition balance_inv (st : AppState) : Prop :=
  ∀ u a, balance_ok (balance_of (balances st) u a) = true.

End Binary64.

(** * Vocabulary of the statements *)

(** The asset an order reserves: quote for a buy, base otherwise. *)
Definition reserve_asset (sd sym : string) : string :=
  if String.eqb sd "buy" then (split_symbol sym).2 else (split_symbol sym).1.

(** [m] quoted by venue [ex] is the best bid of [d], and [ex] is the
    first venue in iteration order that quotes it: every earlier venue
    bids strictly less, no later venue bids more. *)
Definition bid_spec (d : list (string * MarketState))
    (bb : option Q) (bbx : option string) : Prop :=
  match bb, bbx with
  | Some m, Some ex =>
      ∃ l1 st l2, d = (l1 ++ (ex, st) :: l2)%list
        ∧ best_bid st = Some m
        ∧ (∀ e s b, (e, s) ∈ l1 → best_bid s = Some b → b < m)
        ∧ (∀ e s b, (e, s) ∈ l2 → best_bid s = Some b → b <= m)
  | None, None => ∀ e s, (e, s) ∈ d → best_bid s = None
  | _, _ => False
  end.

(** The same for the lowest ask. *)
Definition ask_spec (d : list (string * MarketState))
    (ba : option Q) (bax : option string) : Prop :=
  match ba, bax with
  | Some m, Some ex =>
      ∃ l1 st l2, d = (l1 ++ (ex, st) :: l2)%list
        ∧ best_ask st = Some m
        ∧ (∀ e s a, (e, s) ∈ l1 → best_ask s = Some a → m < a)
        ∧ (∀ e s a, (e, s) ∈ l2 → best_ask s = Some a → m <= a)
  | None, None => ∀ e s, (e, s) ∈ d → best_ask s = None
  | _, _ => False
  end.

(** What Python's [not sub.half_life] accepts: [None] and zero. *)
Definition half_life_falsy (sub : Subscription) : Prop :=
  match sub_half_life sub with
  | None => True
  | Some h => h == 0
  end.

(** What the claim calls inert: absent, or not positive. *)
Definition half_life_not_positive (sub : Subscription) : Prop :=
  match sub_half_life sub with
  | None => True
  | Some h => h <= 0
  end.

(** A subscription the trade [(sym, ex)] is routed to. *)
Definition ewma_matches (sym ex : string) (sub : Subscription) : Prop :=
  sub_stream sub = "ewma" ∧ sub_symbol sub = sym
  ∧ (sub_exchange sub = "all" ∨ sub_exchange sub = ex).

(** What the EWMA pass reads and writes of a connection. *)
Definition ewma_view (c : WSConnection)
  : list Subscription * list (EwmaKey * EwmaState) * list Frame :=
  (subs c, ewma_state c, List.filter is_ewma (websocket c)).

Section EwmaValue.

Variable exp : Q → Q.
Variable ln2 : Q.

(** The value published for half-life [h] from the stored state. *)
Definition ewma_value (h p ts : Q) (state : EwmaState) : Q :=
  match value state with
  | None => p
  | Some v =>
      let dt := Qmax 0 (ts - last_ts_or state ts) in
      let alpha := if Qltb 0 h then 1 - exp (- ln2 * dt / h) else 1 in
      (1 - alpha) * v + alpha * p
  end.

End EwmaValue.

(** Whether one EWMA pass for venue [ex] serves the subscription. *)
Definition ewma_hit (sym ex : string) (sub : Subscription) : bool :=
  String.eqb (sub_stream sub) "ewma"
  && String.eqb (sub_symbol sub) sym
  && (String.eqb (sub_exchange sub) "all" || String.eqb (sub_exchange sub) ex)
  && match sub_half_life sub with
     | Some h => negb (Qeqb h 0)
     | None => false
     end.

(** The frame an EWMA pass sends for a subscription it serves, told from
    the table [t0] the connection had before the trade: the frame carries
    the subscription's venue filter and half-life and the trade's time,
    and its value is the one smoothed from the state that [t0] holds
    under the subscription's key. *)
Definition ewma_frame_for (exp : Q → Q) (ln2 : Q) (sym : string) (p ts : Q)
    (t0 : list (EwmaKey * EwmaState)) (sub : Subscription) (f : Frame)
  : Prop :=
  ∃ h v,
    sub_half_life sub = Some h
    ∧ f = EwmaFrame sym (sub_exchange sub) h v ts
    ∧ v == ewma_value exp ln2 h p ts
             (default (mkEwmaState None None)
                      (ewma_get (sym, sub_exchange sub, h) t0)).

(** A table as the passes of one trade at [ts] leave it, starting from
    [t0]: every key holds what [t0] holds, or the value smoothed from
    [t0] and the trade's time. *)
Definition ewma_table_from (exp : Q → Q) (ln2 : Q) (p ts : Q)
    (t0 t : list (EwmaKey * EwmaState)) : Prop :=
  ∀ s e h,
    ewma_get (s, e, h) t = ewma_get (s, e, h) t0
    ∨ ∃ v, ewma_get (s, e, h) t = Some (mkEwmaState (Some v) (Some ts))
         ∧ v == ewma_value exp ln2 h p ts
                  (default (mkEwmaState None None) (ewma_get (s, e, h) t0)).

Definition ewma_count (c : WSConnection) : nat :=
  length (List.filter is_ewma (websocket c)).

(** The invariant of the active candle of an interval. *)
Definition candle_ok (interval : Z) (c : Candle) : Prop :=
  Qmod (c_start c) interval == 0
  ∧ c_end c - c_start c == inject_Z interval
  ∧ c_low c <= c_open c ∧ c_open c <= c_high c
  ∧ c_low c <= c_close c ∧ c_close c <= c_high c
  ∧ 0 <= c_volume c.

Definition klines_ok (ks : gmap KlineKey Candle) : Prop :=
  ∀ sym ex interval c, ks !! (sym, ex, interval) = Some c → candle_ok interval c.

(** Every user record is stored under its own username, as [register]
    and [load_state] store them. *)
Definition users_keyed (st : AppState) : Prop :=
  ∀ k u, users st !! k = Some u → user_name u = k.

(** An order id on which the loop body of [execute_on_best_touch] does
    nothing: unknown, not open, or not crossing the bests. *)
Definition settled (bb ba : option Q) (os : gmap string Order)
    (tid : string) : Prop :=
  match os !! tid with
  | None => True
  | Some o => status o ≠ "open" ∨ fill_price_of o bb ba = None
  end.

(** What order [o] holds back of asset [a] of user [u]. *)
Definition reserves (u a : string) (o : Order) : Q :=
  if decide (status o = "open"
             ∧ (u, a) = (username o, reserve_asset (side o) (symbol o)))
  then reserved_amount o else 0.

Definition reserved_sum (u a : string) (os : gmap string Order) : Q :=
  map_fold (fun _ o acc => reserves u a o + acc) 0 os.

(** An open order reserves what [_reserve_for_order] computed for it. *)
Definition order_ok (o : Order) : Prop :=
  status o = "open" →
  0 <= price o ∧ 0 <= quantity o
  ∧ reserved_amount o ==
    (if String.eqb (side o) "buy" then price o * quantity o else quantity o).

(** The ledger: every open order is backed, no available balance is
    negative, and what is not available of an asset is exactly what the
    user's open orders reserve of it. *)
Definition ledger_ok (st : AppState) : Prop :=
  (∀ tid o, orders st !! tid = Some o → order_ok o)
  ∧ ∀ u a,
      0 <= available (balance_of (balances st) u a)
      ∧ total (balance_of (balances st) u a)
        - available (balance_of (balances st) u a)
        == reserved_sum u a (orders st).

(** The balance invariant of the claim. *)
Definition balance_inv (st : AppState) : Prop :=
  ∀ u a,
    0 <= available (balance_of (balances st) u a)
    ∧ available (balance_of (balances st) u a)
      <= total (balance_of (balances st) u a).

(** The states of the paper engine of a process started without a state
    file. *)
Inductive reachable : AppState → Prop :=
  | reach_init : reachable STATE0
  | reach_deposit st u asset amount :
      reachable st → 0 < amount → reachable (deposit u asset amount st)
  | reach_place st now u tid sym sd p qty :
      reachable st → 0 < p → 0 < qty →
      reachable (place_order now u tid sym sd p qty st).1
  | reach_cancel st u tid :
      reachable st → reachable (cancel_order u tid st).1
  | reach_execute st sym bb ba :
      reachable st → reachable (execute_on_best_touch sym bb ba st).

(** ** Vocabulary of the further properties *)

(** How a run of the matcher may have changed one order. *)
Definition fill_of (bb ba : option Q) (o o' : Order) : Prop :=
  o' = o
  ∨ (status o = "open"
     ∧ ∃ fp, o' = set_filled_price (set_status o "filled") (Some fp)
         ∧ ((side o = "buy" ∧ ba = Some fp ∧ fp <= price o)
            ∨ (side o = "sell" ∧ bb = Some fp ∧ price o <= fp))).

(** The terms of an order, which no operation rewrites. *)
Definition same_terms (o o' : Order) : Prop :=
  token_id o' = token_id o ∧ username o' = username o
  ∧ symbol o' = symbol o ∧ side o' = side o
  ∧ price o' = price o ∧ quantity o' = quantity o
  ∧ reason o' = reason o ∧ reserved_amount o' = reserved_amount o
  ∧ created_at o' = created_at o.

(** An order after an operation: still there, with the same terms, and
    unchanged altogether if it was not open. *)
Definition order_kept (o : Order) (found : option Order) : Prop :=
  ∃ o', found = Some o' ∧ same_terms o o' ∧ (status o ≠ "open" → o' = o).

(** The open index of every symbol lists exactly the open orders of that
    symbol, each once. *)
Definition index_ok (st : AppState) : Prop :=
  (∀ sym tid,
     tid ∈ default [] (open_orders_by_symbol st !! sym)
     ↔ ∃ o, orders st !! tid = Some o ∧ status o = "open" ∧ symbol o = sym)
  ∧ ∀ sym, NoDup (default [] (open_orders_by_symbol st !! sym)).

(** The active candle holds the trade: it closes at the trade's price,
    spans it, and ends after the trade's time. *)
Definition holds_trade (p ts : Q) (c : Candle) : Prop :=
  c_close c = p ∧ c_low c <= p ∧ p <= c_high c ∧ ts < c_end c.

(** What a tick makes of a candle of interval [n] at wall-clock [now]. *)
Definition ticked (now : Q) (n : Z) (c : Candle) : Candle :=
  if Qleb (c_end c) now
  then mkCandle (c_end c) (c_end c + inject_Z n) (c_close c) (c_close c)
                (c_close c) (c_close c) 0
  else c.

(** The filtering matrix of [_broadcast]: the subscription is on the
    stream and the symbol; a venue, when the event names one, must be
    the subscription's or the subscription must be on "all"; an interval
    label, when the event has one, must be the subscription's. *)
Definition routed (stream sym : string) (venue label : option string)
    (sub : Subscription) : Prop :=
  sub_stream sub = stream ∧ sub_symbol sub = sym
  ∧ match venue with
    | Some e => e = "" ∨ sub_exchange sub = e ∨ sub_exchange sub = "all"
    | None => True
    end
  ∧ match label with
    | Some l => l = "" ∨ sub_interval sub = Some l
    | None => True
    end.

#[global] Instance routed_dec stream sym venue label sub :
  Decision (routed stream sym venue label sub).
Proof. unfold routed. destruct venue, label; apply _. Defined.

(** A connection after [k] more copies of [msg] were sent to it. *)
Definition delivered (conn : WSConnection) (k : nat) (msg : Frame)
  : WSConnection :=
  mkWSConnection (websocket conn ++ replicate k msg) (conn_username conn)
                 (subs conn) (ewma_state conn).

(** A toy instance of the three library functions, for the examples. *)
Definition toy_pbkdf2 (password : string) (salt : list Byte.byte)
  : list Byte.byte :=
  (salt ++ list_byte_of_string password)%list.
Definition toy_b64encode (raw : list Byte.byte) : string :=
  string_of_list_byte raw.
Definition toy_b64decode (s : string) : option (list Byte.byte) :=
  Some (list_byte_of_string s).
Definition toy_salt : list Byte.byte := replicate 16 Byte.x2a.

(** * Properties *)

(** ** Reflection of the float comparisons *)

Lemma Qleb_le x y : Qleb x y = true ↔ x <= y.
Proof. apply Qle_bool_iff. Qed.

Lemma Qleb_gt x y : Qleb x y = false ↔ y < x.
Proof.
  unfold Qleb. split; intros H.
  - apply Qnot_le_lt. intros Hle. apply Qle_bool_iff in Hle. congruence.
  - destruct (Qle_bool x y) eqn:E; [|done].
    apply Qle_bool_iff in E. apply Qlt_not_le in H. done.
Qed.

Lemma Qltb_lt x y : Qltb x y = true ↔ x < y.
Proof. unfold Qltb. rewrite negb_true_iff. apply Qleb_gt. Qed.

Lemma Qltb_ge x y : Qltb x y = false ↔ y <= x.
Proof. unfold Qltb. rewrite negb_false_iff. apply Qleb_le. Qed.

Lemma Qeqb_eq x y : Qeqb x y = true ↔ x == y.
Proof. apply Qeq_bool_iff. Qed.

Lemma Qeqb_neq x y : Qeqb x y = false ↔ ¬ x == y.
Proof.
  unfold Qeqb. split; intros H.
  - intros E. apply Qeq_bool_iff in E. congruence.
  - destruct (Qeq_bool x y) eqn:E; [|done]. apply Qeq_bool_iff in E. done.
Qed.

Lemma eqb_true (s t : string) : String.eqb s t = true ↔ s = t.
Proof. apply String.eqb_eq. Qed.

Lemma eqb_false (s t : string) : String.eqb s t = false ↔ s ≠ t.
Proof. apply String.eqb_neq. Qed.

(** ** Balances as a store of objects *)

Lemma balance_of_get_balance bals u a u' a' :
  balance_of (fst (_get_balance bals u a)) u' a' = balance_of bals u' a'.
Proof.
  unfold balance_of, _get_balance. simpl.
  destruct (decide (u = u')) as [->|Hu].
  - rewrite lookup_insert_eq. simpl.
    destruct (decide (a = a')) as [->|Ha].
    + rewrite lookup_insert_eq. done.
    + rewrite lookup_insert_ne by done. done.
  - rewrite lookup_insert_ne by done. done.
Qed.

Lemma balance_of_update_eq bals u a f :
  balance_of (update_balance bals u a f) u a = f (balance_of bals u a).
Proof.
  unfold balance_of, update_balance, _get_balance. simpl.
  rewrite !lookup_insert_eq. simpl. rewrite lookup_insert_eq. done.
Qed.

Lemma balance_of_update_ne bals u a f u' a' :
  (u, a) ≠ (u', a') →
  balance_of (update_balance bals u a f) u' a' = balance_of bals u' a'.
Proof.
  intros Hne. unfold balance_of, update_balance, _get_balance. simpl.
  destruct (decide (u = u')) as [->|Hu].
  - rewrite !lookup_insert_eq. simpl.
    assert (a ≠ a') by congruence.
    rewrite !lookup_insert_ne by done. done.
  - rewrite !lookup_insert_ne by done. done.
Qed.

Lemma balance_of_update bals u a f u' a' :
  balance_of (update_balance bals u a f) u' a' =
  if decide ((u, a) = (u', a')) then f (balance_of bals u a)
  else balance_of bals u' a'.
Proof.
  destruct (decide _) as [E|E].
  - inversion E; subst. apply balance_of_update_eq.
  - by apply balance_of_update_ne.
Qed.

(** ** The request handlers *)

(** C7 evaluated on the code: with a valid bearer token, cancelling a
    token id that is not in the order store answers 400 with the detail
    "order not found", and leaves the state alone. *)
Theorem cancel_unknown_order_status (tid u : string) (st : AppState) :
  u ≠ "" →
  orders st !! tid = None →
  cancel tid (Some u) st = (st, HTTPException 400 "order not found").
Proof.
  intros Hu Hnone. unfold cancel, _get_current_user.
  apply eqb_false in Hu. rewrite Hu.
  unfold cancel_order. rewrite Hnone. done.
Qed.

Lemma cancel_unknown_order_status_witness :
  cancel "ord-9" (Some "alice") STATE0
  = (STATE0, HTTPException 400 "order not found").
Proof.
  apply (cancel_unknown_order_status "ord-9" "alice" STATE0).
  - discriminate.
  - reflexivity.
Defined.

(** The sibling handler of GET answers 404 for the same request. *)
Lemma order_status_unknown_order (tid u : string) (st : AppState) :
  u ≠ "" →
  orders st !! tid = None →
  order_status tid (Some u) st = HTTPException 404 "order not found".
Proof.
  intros Hu Hnone. unfold order_status, _get_current_user.
  apply eqb_false in Hu. rewrite Hu.
  unfold get_order. rewrite Hnone. done.
Qed.

(** ** Cancellation *)

Lemma remove_token_not_in tid l : tid ∉ remove_token tid l.
Proof.
  unfold remove_token. rewrite list_elem_of_In, filter_In.
  intros [_ H]. rewrite String.eqb_refl in H. done.
Qed.

Lemma unindex_lookup sym tid ix sym' :
  default [] (unindex sym tid ix !! sym') =
  if decide (sym' = sym) then remove_token tid (default [] (ix !! sym'))
  else default [] (ix !! sym').
Proof.
  unfold unindex. destruct (decide (sym' = sym)) as [->|Hne].
  - destruct (ix !! sym) eqn:E.
    + rewrite lookup_insert_eq. done.
    + rewrite E. done.
  - destruct (ix !! sym) eqn:E; [|done].
    rewrite lookup_insert_ne by done. done.
Qed.

Lemma release_reserve_balance bals u sd sym r u' a :
  balance_of (_release_reserve bals u sd sym r) u' a =
  if decide ((u', a) = (u, reserve_asset sd sym))
  then add_available r (balance_of bals u' a)
  else balance_of bals u' a.
Proof.
  unfold _release_reserve, reserve_asset.
  destruct (split_symbol sym) as [base quote]. simpl.
  destruct (String.eqb sd "buy"); rewrite balance_of_update;
    repeat destruct (decide _); try congruence.
Qed.

(** C3. [cancel_order] succeeds exactly when the order exists, belongs to
    the caller and is open.  On success the order becomes cancelled, its
    reserved amount is added to the available balance of the reserve
    asset (quote for a buy, base for a sell) and to no other balance, no
    total changes, and the token leaves the open index of the order's
    symbol.  On failure the state is untouched. *)
Theorem cancel_order_correct (u tid : string) (st : AppState) :
  let st' := (cancel_order u tid st).1 in
  let ok := (cancel_order u tid st).2.1 in
  (ok = true ↔
     ∃ o, orders st !! tid = Some o ∧ username o = u ∧ status o = "open")
  ∧ (ok = false → st' = st)
  ∧ (∀ o, orders st !! tid = Some o → ok = true →
       orders st' = <[tid := set_status o "cancelled"]> (orders st)
       ∧ status (set_status o "cancelled") = "cancelled"
       ∧ (∀ u' a,
            balance_of (balances st') u' a =
            if decide ((u', a) = (u, reserve_asset (side o) (symbol o)))
            then mkBalance (total (balance_of (balances st) u' a))
                           (available (balance_of (balances st) u' a)
                            + reserved_amount o)
            else balance_of (balances st) u' a)
       ∧ (∀ u' a,
            total (balance_of (balances st') u' a)
            = total (balance_of (balances st) u' a))
       ∧ (tid ∉ default [] (open_orders_by_symbol st' !! symbol o))
       ∧ (∀ sym,
            default [] (open_orders_by_symbol st' !! sym) =
            if decide (sym = symbol o)
            then remove_token tid (default [] (open_orders_by_symbol st !! sym))
            else default [] (open_orders_by_symbol st !! sym))).
Proof.
  unfold cancel_order.
  destruct (orders st !! tid) as [o|] eqn:Ho; simpl.
  2:{ split; [|split]; try done. split; [done|]. intros (o & ? & _). done. }
  destruct (String.eqb (username o) u) eqn:Hu; simpl.
  2:{ apply eqb_false in Hu. split; [|split]; try done.
      split; [done|]. intros (o' & [= <-] & ? & _). done. }
  destruct (String.eqb (status o) "open") eqn:Hs; simpl.
  2:{ apply eqb_false in Hs. split; [|split]; try done.
      split; [done|]. intros (o' & [= <-] & _ & ?). done. }
  apply eqb_true in Hu, Hs.
  split; [|split]; [split; eauto|done|].
  intros o' [= <-] _.
  split; [done|]. split; [done|].
  assert (Hbal : ∀ u' a,
    balance_of (_release_reserve (balances st) u (side o) (symbol o)
                                 (reserved_amount o)) u' a =
    if decide ((u', a) = (u, reserve_asset (side o) (symbol o)))
    then mkBalance (total (balance_of (balances st) u' a))
                   (available (balance_of (balances st) u' a)
                    + reserved_amount o)
    else balance_of (balances st) u' a).
  { intros u' a. rewrite release_reserve_balance. done. }
  split; [exact Hbal|].
  split. { intros u' a. rewrite Hbal. destruct (decide _); done. }
  split.
  - rewrite unindex_lookup. rewrite decide_True by done.
    apply remove_token_not_in.
  - intros sym. apply unindex_lookup.
Qed.

(** ** The synthetic best touch *)

Lemma bid_spec_bound d m ex e s b :
  bid_spec d (Some m) (Some ex) → (e, s) ∈ d → best_bid s = Some b → b <= m.
Proof.
  intros (l1 & st & l2 & -> & Hst & H1 & H2) Hin Hb.
  apply elem_of_app in Hin as [Hin|Hin].
  - apply Qlt_le_weak. eauto.
  - apply elem_of_cons in Hin as [[= -> ->]|Hin]; [|eauto].
    rewrite Hst in Hb. injection Hb as ->. apply Qle_refl.
Qed.

Lemma ask_spec_bound d m ex e s a :
  ask_spec d (Some m) (Some ex) → (e, s) ∈ d → best_ask s = Some a → m <= a.
Proof.
  intros (l1 & st & l2 & -> & Hst & H1 & H2) Hin Ha.
  apply elem_of_app in Hin as [Hin|Hin].
  - apply Qlt_le_weak. eauto.
  - apply elem_of_cons in Hin as [[= -> ->]|Hin]; [|eauto].
    rewrite Hst in Ha. injection Ha as ->. apply Qle_refl.
Qed.

(** The two halves of [best_step] do not look at each other. *)
Ltac split_other_side o cur st proj :=
  destruct (proj st); [destruct o as [cur|]; [destruct (Qltb _ _)|]|]; simpl.

Lemma bid_spec_snoc d bb bbx ba bax ex st :
  bid_spec d bb bbx →
  bid_spec (d ++ [(ex, st)])
    (best_step (bb, bbx, ba, bax) (ex, st)).1.1.1
    (best_step (bb, bbx, ba, bax) (ex, st)).1.1.2.
Proof.
  intros Hd. unfold best_step.
  destruct (best_bid st) as [b|] eqn:Hb.
  - destruct bb as [cur|], bbx as [cx|]; try done.
    + destruct (Qltb cur b) eqn:Hlt.
      * apply Qltb_lt in Hlt. split_other_side ba ca st best_ask.
        all: exists d, st, []; split_and!; try done.
        all: try (intros e s b' Hin Hb'; eapply Qle_lt_trans; [|exact Hlt];
                  eapply bid_spec_bound; eauto).
        all: intros e s b' Hin; by apply elem_of_nil in Hin.
      * apply Qltb_ge in Hlt.
        destruct Hd as (l1 & st0 & l2 & -> & Hst & H1 & H2).
        split_other_side ba ca st best_ask.
        all: exists l1, st0, (l2 ++ [(ex, st)])%list; split_and!; try done.
        all: try (by rewrite <- app_assoc).
        all: intros e s b' Hin Hb'; apply elem_of_app in Hin as [Hin|Hin];
          [by eauto|].
        all: apply list_elem_of_singleton in Hin as [= -> ->].
        all: rewrite Hb in Hb'; injection Hb' as <-; done.
    + split_other_side ba ca st best_ask.
      all: exists d, st, []; split_and!; try done.
      all: try (intros e s b' Hin Hb'; rewrite (Hd e s Hin) in Hb'; done).
      all: intros e s b' Hin; by apply elem_of_nil in Hin.
  - destruct bb as [cur|], bbx as [cx|]; try done.
    + destruct Hd as (l1 & st0 & l2 & -> & Hst & H1 & H2).
      split_other_side ba ca st best_ask.
      all: exists l1, st0, (l2 ++ [(ex, st)])%list; split_and!; try done.
      all: try (by rewrite <- app_assoc).
      all: intros e s b' Hin Hb'; apply elem_of_app in Hin as [Hin|Hin];
        [by eauto|].
      all: apply list_elem_of_singleton in Hin as [= -> ->]; congruence.
    + split_other_side ba ca st best_ask.
      all: intros e s Hin; apply elem_of_app in Hin as [Hin|Hin]; [by eauto|].
      all: apply list_elem_of_singleton in Hin as [= -> ->]; done.
Qed.

Lemma ask_spec_snoc d bb bbx ba bax ex st :
  ask_spec d ba bax →
  ask_spec (d ++ [(ex, st)])
    (best_step (bb, bbx, ba, bax) (ex, st)).1.2
    (best_step (bb, bbx, ba, bax) (ex, st)).2.
Proof.
  intros Hd. unfold best_step.
  destruct (best_ask st) as [a|] eqn:Ha.
  - destruct ba as [cur|], bax as [cx|]; try done.
    + destruct (Qltb a cur) eqn:Hlt.
      * apply Qltb_lt in Hlt. split_other_side bb cb st best_bid.
        all: exists d, st, []; split_and!; try done.
        all: try (intros e s a' Hin Ha'; eapply Qlt_le_trans; [exact Hlt|];
                  eapply ask_spec_bound; eauto).
        all: intros e s a' Hin; by apply elem_of_nil in Hin.
      * apply Qltb_ge in Hlt.
        destruct Hd as (l1 & st0 & l2 & -> & Hst & H1 & H2).
        split_other_side bb cb st best_bid.
        all: exists l1, st0, (l2 ++ [(ex, st)])%list; split_and!; try done.
        all: try (by rewrite <- app_assoc).
        all: intros e s a' Hin Ha'; apply elem_of_app in Hin as [Hin|Hin];
          [by eauto|].
        all: apply list_elem_of_singleton in Hin as [= -> ->].
        all: rewrite Ha in Ha'; injection Ha' as <-; done.
    + split_other_side bb cb st best_bid.
      all: exists d, st, []; split_and!; try done.
      all: try (intros e s a' Hin Ha'; rewrite (Hd e s Hin) in Ha'; done).
      all: intros e s a' Hin; by apply elem_of_nil in Hin.
  - destruct ba as [cur|], bax as [cx|]; try done.
    + destruct Hd as (l1 & st0 & l2 & -> & Hst & H1 & H2).
      split_other_side bb cb st best_bid.
      all: exists l1, st0, (l2 ++ [(ex, st)])%list; split_and!; try done.
      all: try (by rewrite <- app_assoc).
      all: intros e s a' Hin Ha'; apply elem_of_app in Hin as [Hin|Hin];
        [by eauto|].
      all: apply list_elem_of_singleton in Hin as [= -> ->]; congruence.
    + split_other_side bb cb st best_bid.
      all: intros e s Hin; apply elem_of_app in Hin as [Hin|Hin]; [by eauto|].
      all: apply list_elem_of_singleton in Hin as [= -> ->]; done.
Qed.

Lemma synthetic_best_spec (d : list (string * MarketState)) :
  bid_spec d (synthetic_best d).1.1.1 (synthetic_best d).1.1.2
  ∧ ask_spec d (synthetic_best d).1.2 (synthetic_best d).2.
Proof.
  unfold synthetic_best.
  induction d as [|[ex st] d IH] using rev_ind.
  - simpl. split; intros e s Hin; by apply elem_of_nil in Hin.
  - rewrite foldl_app. simpl.
    destruct (foldl best_step (None, None, None, None) d)
      as [[[bb bbx] ba] bax].
    simpl in IH. destruct IH as [IHb IHa]. split.
    + by apply bid_spec_snoc.
    + by apply ask_spec_snoc.
Qed.

Lemma execute_one_market bb ba st tid :
  best_touch (execute_one bb ba st tid) = best_touch st
  ∧ last_trade (execute_one bb ba st tid) = last_trade st
  ∧ users (execute_one bb ba st tid) = users st.
Proof.
  unfold execute_one.
  destruct (orders st !! tid) as [o|]; [|done].
  destruct (negb _); [done|].
  destruct (fill_price_of o bb ba); done.
Qed.

Lemma execute_on_best_touch_market sym bb ba st :
  best_touch (execute_on_best_touch sym bb ba st) = best_touch st
  ∧ last_trade (execute_on_best_touch sym bb ba st) = last_trade st
  ∧ users (execute_on_best_touch sym bb ba st) = users st.
Proof.
  assert (H : ∀ l st0,
    best_touch (foldl (execute_one bb ba) st0 l) = best_touch st0
    ∧ last_trade (foldl (execute_one bb ba) st0 l) = last_trade st0
    ∧ users (foldl (execute_one bb ba) st0 l) = users st0).
  { induction l as [|tid l IH]; intros st0; simpl; [done|].
    destruct (IH (execute_one bb ba st0 tid)) as (-> & -> & ->).
    apply execute_one_market. }
  unfold execute_on_best_touch. destruct bb, ba; try apply H. done.
Qed.

Lemma handle_best_touch_unfold ex sym bid ask ts w :
  let quotes :=
    dict_set ex (mkMarketState (Some bid) (Some ask) ex ts)
             (default [] (best_touch (app w) !! sym)) in
  let r := synthetic_best quotes in
  handle_best_touch ex sym bid ask ts w =
  mkWorld (execute_on_best_touch sym r.1.1.1 r.1.2
             (set_best_touch (app w) (<[sym := quotes]> (best_touch (app w)))))
          (klines w)
          (broadcast_best_touch sym r.1.1.1 r.1.2 r.1.1.2 r.2 (hub w)).
Proof.
  intros quotes r. unfold handle_best_touch. fold quotes. fold r.
  destruct r as [[[bb bbx] ba] bax]. done.
Qed.

(** C4. After [handle_best_touch] the venue's quote has been stored in
    the per-venue map of the symbol (an existing venue keeps its place,
    a new one goes last), and the synthetic best computed over that map,
    which is what is broadcast and handed to the matcher, has as bid the
    maximum of the stored bids and as ask the minimum of the stored asks,
    each tagged with the first venue in iteration order that quotes it. *)
Theorem handle_best_touch_synthetic (ex sym : string) (bid ask ts : Q)
    (w : World) :
  let w' := handle_best_touch ex sym bid ask ts w in
  let quotes := default [] (best_touch (app w') !! sym) in
  let r := synthetic_best quotes in
  quotes = dict_set ex (mkMarketState (Some bid) (Some ask) ex ts)
                    (default [] (best_touch (app w) !! sym))
  ∧ bid_spec quotes r.1.1.1 r.1.1.2
  ∧ ask_spec quotes r.1.2 r.2
  ∧ hub w' = broadcast_best_touch sym r.1.1.1 r.1.2 r.1.1.2 r.2 (hub w)
  ∧ app w' = execute_on_best_touch sym r.1.1.1 r.1.2
               (set_best_touch (app w) (<[sym := quotes]> (best_touch (app w)))).
Proof.
  intros w' quotes r.
  pose proof (handle_best_touch_unfold ex sym bid ask ts w) as Hw.
  cbv zeta in Hw. fold w' in Hw.
  assert (Hq : quotes =
    dict_set ex (mkMarketState (Some bid) (Some ask) ex ts)
             (default [] (best_touch (app w) !! sym))).
  { unfold quotes. rewrite Hw. cbn [app].
    rewrite (proj1 (execute_on_best_touch_market _ _ _ _)).
    cbn [best_touch set_best_touch]. rewrite lookup_insert_eq. done. }
  split; [exact Hq|].
  destruct (synthetic_best_spec quotes) as [Hb Ha].
  split; [exact Hb|]. split; [exact Ha|].
  unfold r. rewrite Hq, Hw. done.
Qed.

(** ** EWMA subscriptions *)

Lemma key_eqb_refl (k : EwmaKey) : key_eqb k k = true.
Proof.
  destruct k as [[s e] h]. unfold key_eqb. rewrite !String.eqb_refl. simpl.
  apply Qeqb_eq. reflexivity.
Qed.

Lemma ewma_get_put (k : EwmaKey) (s : EwmaState) d :
  ewma_get k (ewma_put k s d) = Some s.
Proof.
  induction d as [|[k' s'] d IH]; cbn [ewma_get ewma_put].
  - by rewrite key_eqb_refl.
  - destruct (key_eqb k k') eqn:E; cbn [ewma_get]; rewrite E; done.
Qed.

Section EwmaFacts.

Variable exp : Q → Q.
Variable ln2 : Q.

Lemma update_ewma_sub_falsy sym ex p ts conn sub :
  half_life_falsy sub →
  update_ewma_sub exp ln2 sym ex p ts conn sub = conn.
Proof.
  unfold half_life_falsy, update_ewma_sub. intros H.
  repeat (destruct (negb _); [done|]).
  destruct (_ && _); [done|].
  destruct (sub_half_life sub) as [h|]; [|done].
  apply Qeqb_eq in H. rewrite H. done.
Qed.

Lemma ewma_matches_guards sym ex sub :
  ewma_matches sym ex sub →
  negb (String.eqb (sub_stream sub) "ewma") = false
  ∧ negb (String.eqb (sub_symbol sub) sym) = false
  ∧ negb (String.eqb (sub_exchange sub) "all")
    && negb (String.eqb (sub_exchange sub) ex) = false.
Proof.
  intros (Hs & Hy & He). rewrite Hs, Hy, !String.eqb_refl. simpl.
  split; [done|]. split; [done|].
  destruct He as [-> | ->]; rewrite String.eqb_refl; simpl; [done|].
  apply andb_false_r.
Qed.

Lemma update_ewma_sub_negative sym ex p ts conn sub h :
  ewma_matches sym ex sub →
  sub_half_life sub = Some h → h < 0 →
  ∃ v, v == p
    ∧ websocket (update_ewma_sub exp ln2 sym ex p ts conn sub)
      = (websocket conn ++ [EwmaFrame sym (sub_exchange sub) h v ts])%list
    ∧ ewma_get (sym, sub_exchange sub, h)
        (ewma_state (update_ewma_sub exp ln2 sym ex p ts conn sub))
      = Some (mkEwmaState (Some v) (Some ts)).
Proof.
  intros Hm Hh Hneg. unfold update_ewma_sub.
  destruct (ewma_matches_guards _ _ _ Hm) as (-> & -> & ->).
  rewrite Hh.
  assert (Qeqb h 0 = false) as -> by (apply Qeqb_neq; lra).
  assert (Qltb 0 h = false) as -> by (apply Qltb_ge; lra).
  pose proof (ewma_get_put (sym, sub_exchange sub, h)) as Hget.
  destruct (value _) as [v|]; eexists; (split; [|split; [done|apply Hget]]).
  - ring.
  - reflexivity.
Qed.

End EwmaFacts.

(** The claim C6 as worded fails: a matching subscription whose half-life
    is negative is not inert, its first trade already produces a frame
    and an EWMA state. *)
Lemma negative_half_life_not_inert :
  ¬ (∀ (exp : Q → Q) (ln2 : Q) (sym ex : string) (p ts : Q)
       (conn : WSConnection) (sub : Subscription),
       half_life_not_positive sub →
       update_ewma_sub exp ln2 sym ex p ts conn sub = conn).
Proof.
  intros H.
  specialize (H (fun x => x) 1 "BTCUSDT" "binance" 100 1000
                (mkWSConnection [] "u1" [] [])
                (mkSubscription "ewma" "BTCUSDT" "all" None (Some (-1)))).
  assert (Hnp : half_life_not_positive
                  (mkSubscription "ewma" "BTCUSDT" "all" None (Some (-1)))).
  { unfold half_life_not_positive. simpl. lra. }
  specialize (H Hnp). vm_compute in H. discriminate H.
Qed.

(** C6, amended. A subscription whose half-life is absent or zero is
    inert: the loop body of [update_ewma_on_trade] returns the connection
    as it was (no frame, no EWMA state created or modified), and a pass
    over the subscriptions of a connection is the same with or without
    it.  A matching subscription with a negative half-life is served:
    each trade sends one frame whose value is the trade price and stores
    that value. *)
Theorem ewma_inert_half_life (exp : Q → Q) (ln2 : Q) (sym ex : string)
    (p ts : Q) (sub : Subscription) :
  (half_life_falsy sub →
     (∀ conn, update_ewma_sub exp ln2 sym ex p ts conn sub = conn)
     ∧ (∀ conn l1 l2,
          foldl (update_ewma_sub exp ln2 sym ex p ts) conn (l1 ++ sub :: l2)
          = foldl (update_ewma_sub exp ln2 sym ex p ts) conn (l1 ++ l2)))
  ∧ (∀ h conn, ewma_matches sym ex sub →
       sub_half_life sub = Some h → h < 0 →
       ∃ v, v == p
         ∧ websocket (update_ewma_sub exp ln2 sym ex p ts conn sub)
           = (websocket conn ++ [EwmaFrame sym (sub_exchange sub) h v ts])%list
         ∧ ewma_get (sym, sub_exchange sub, h)
             (ewma_state (update_ewma_sub exp ln2 sym ex p ts conn sub))
           = Some (mkEwmaState (Some v) (Some ts))).
Proof.
  split.
  - intros Hf. split.
    + intros conn. by apply update_ewma_sub_falsy.
    + intros conn l1 l2. rewrite !foldl_app. simpl.
      by rewrite update_ewma_sub_falsy.
  - intros h conn Hm Hh Hneg. by apply update_ewma_sub_negative.
Qed.

Lemma ewma_inert_half_life_witness :
  update_ewma_sub (fun x => 1 + x) 1 "BTCUSDT" "binance" 100 1000
    (mkWSConnection [] "u1" [] [])
    (mkSubscription "ewma" "BTCUSDT" "all" None (Some 0))
  = mkWSConnection [] "u1" [] []
  ∧ ∃ v, v == 100
      ∧ websocket
          (update_ewma_sub (fun x => 1 + x) 1 "BTCUSDT" "binance" 100 1000
             (mkWSConnection [] "u1" [] [])
             (mkSubscription "ewma" "BTCUSDT" "all" None (Some (-1))))
        = [EwmaFrame "BTCUSDT" "all" (-1) v 1000].
Proof.
  split.
  - apply (proj1 (ewma_inert_half_life (fun x => 1 + x) 1 "BTCUSDT" "binance"
                    100 1000 (mkSubscription "ewma" "BTCUSDT" "all" None (Some 0)))).
    reflexivity.
  - destruct (proj2 (ewma_inert_half_life (fun x => 1 + x) 1 "BTCUSDT" "binance"
                       100 1000
                       (mkSubscription "ewma" "BTCUSDT" "all" None (Some (-1))))
                    (-1) (mkWSConnection [] "u1" [] []))
      as (v & Hv & Hw & _).
    + repeat split; auto.
    + reflexivity.
    + reflexivity.
    + exists v. split; [exact Hv|exact Hw].
Defined.

(** ** Two EWMA passes per trade *)

Lemma broadcast_sub_view msg stream sym ex il conn sub :
  is_ewma msg = false →
  ewma_view (_broadcast_sub msg stream sym ex il conn sub) = ewma_view conn.
Proof.
  intros Hmsg. unfold _broadcast_sub.
  repeat (destruct (negb _); [done|]).
  destruct (match ex with Some _ => _ | None => _ end); [done|].
  destruct (match il with Some _ => _ | None => _ end); [done|].
  unfold ewma_view, send. simpl.
  rewrite List.filter_app. simpl. rewrite Hmsg, app_nil_r. done.
Qed.

Lemma broadcast_view msg stream sym ex il hb :
  is_ewma msg = false →
  List.map ewma_view (_broadcast msg stream sym ex il hb)
  = List.map ewma_view hb.
Proof.
  intros Hmsg. unfold _broadcast. rewrite List.map_map.
  apply List.map_ext. intros conn.
  generalize (subs conn) at 1. intros l. revert conn.
  induction l as [|sub l IH]; intros conn; simpl; [done|].
  rewrite IH. by apply broadcast_sub_view.
Qed.

Lemma update_kline_view sym ex p qty ts acc :
  List.map ewma_view (_update_kline sym ex p qty ts acc).2
  = List.map ewma_view acc.2.
Proof.
  unfold _update_kline. generalize kline_intervals_seconds. intros l.
  revert acc. induction l as [|i l IH]; intros [ks hb]; simpl; [done|].
  rewrite IH. simpl. unfold broadcast_kline. by apply broadcast_view.
Qed.

Section TradeFacts.

Variable exp : Q → Q.
Variable ln2 : Q.

Lemma update_ewma_sub_active sym ex p ts conn sub h :
  ewma_matches sym ex sub →
  sub_half_life sub = Some h → 0 < h →
  update_ewma_sub exp ln2 sym ex p ts conn sub =
  let key := (sym, sub_exchange sub, h) in
  let v := ewma_value exp ln2 h p ts
             (default (mkEwmaState None None)
                      (ewma_get key (ewma_state conn))) in
  send (set_ewma_state conn
          (ewma_put key (mkEwmaState (Some v) (Some ts)) (ewma_state conn)))
       (EwmaFrame sym (sub_exchange sub) h v ts).
Proof.
  intros Hm Hh Hpos. unfold update_ewma_sub.
  destruct (ewma_matches_guards _ _ _ Hm) as (-> & -> & ->).
  rewrite Hh.
  assert (Qeqb h 0 = false) as -> by (apply Qeqb_neq; lra).
  done.
Qed.

Lemma update_ewma_sub_other_venue sym ex p ts conn sub :
  sub_exchange sub ≠ "all" → sub_exchange sub ≠ ex →
  update_ewma_sub exp ln2 sym ex p ts conn sub = conn.
Proof.
  intros H1 H2. unfold update_ewma_sub.
  apply eqb_false in H1, H2. rewrite H1, H2. simpl.
  repeat (destruct (negb _); [done|]). done.
Qed.

Lemma handle_trade_hub ex sym p qty ts w :
  ∃ hub3,
    List.map ewma_view hub3 = List.map ewma_view (hub w)
    ∧ hub (handle_trade exp ln2 ex sym p qty ts w)
      = update_ewma_on_trade exp ln2 sym "all" p ts
          (update_ewma_on_trade exp ln2 sym ex p ts hub3).
Proof.
  unfold handle_trade.
  pose proof (update_kline_view sym ex p qty ts
    (klines w, broadcast_trade sym ex p qty ts (hub w))) as H2.
  destruct (_update_kline sym ex p qty ts _) as [ks2 hub2].
  pose proof (update_kline_view sym "all" p qty ts (ks2, hub2)) as H3.
  destruct (_update_kline sym "all" p qty ts _) as [ks3 hub3].
  simpl in *. exists hub3. split; [|done].
  rewrite H3, H2. unfold broadcast_trade. by apply broadcast_view.
Qed.

(** [exp] at zero, however the zero is written. *)
Hypothesis exp_0 : ∀ x, x == 0 → exp x == 1.

Lemma ewma_value_same_instant h p ts v :
  0 < h →
  ewma_value exp ln2 h p ts (mkEwmaState (Some v) (Some ts)) == v.
Proof.
  intros Hh. unfold ewma_value, last_ts_or. simpl.
  assert (Hdt : Qmax 0 (ts - (if Qeqb ts 0 then ts else ts)) = 0).
  { destruct (Qeqb ts 0); unfold Qmax.
    all: assert (Qltb 0 (ts - ts) = false) as ->
           by (apply Qltb_ge; lra); done. }
  rewrite Hdt.
  assert (Qltb 0 h = true) as -> by (by apply Qltb_lt).
  rewrite (exp_0 (- ln2 * 0 / h)).
  - ring.
  - unfold Qdiv. ring.
Qed.

End TradeFacts.

Lemma lookup_map {A B} (f : A → B) (l : list A) (i : nat) :
  List.map f l !! i = f <$> (l !! i).
Proof.
  revert i. induction l as [|x l IH]; intros [|i]; simpl; done.
Qed.

Lemma update_ewma_sub_subs exp ln2 sym ex p ts conn sub :
  subs (update_ewma_sub exp ln2 sym ex p ts conn sub) = subs conn.
Proof.
  unfold update_ewma_sub.
  repeat (destruct (negb _); [done|]).
  destruct (_ && _); [done|].
  destruct (sub_half_life sub) as [h|]; [|done].
  destruct (Qeqb h 0); done.
Qed.

Lemma update_ewma_sub_count exp ln2 sym ex p ts conn sub :
  ewma_count (update_ewma_sub exp ln2 sym ex p ts conn sub)
  = (ewma_count conn + if ewma_hit sym ex sub then 1 else 0)%nat.
Proof.
  unfold update_ewma_sub, ewma_hit, ewma_count.
  destruct (String.eqb (sub_stream sub) "ewma"); simpl; [|lia].
  destruct (String.eqb (sub_symbol sub) sym); simpl; [|lia].
  destruct (String.eqb (sub_exchange sub) "all"),
           (String.eqb (sub_exchange sub) ex); simpl; try lia.
  all: destruct (sub_half_life sub) as [h|]; [|lia].
  all: destruct (Qeqb h 0); simpl; [lia|].
  all: rewrite List.filter_app, length_app; simpl; lia.
Qed.

Lemma update_ewma_fold_count exp ln2 sym ex p ts l conn :
  subs (foldl (update_ewma_sub exp ln2 sym ex p ts) conn l) = subs conn
  ∧ ewma_count (foldl (update_ewma_sub exp ln2 sym ex p ts) conn l)
    = (ewma_count conn + length (List.filter (ewma_hit sym ex) l))%nat.
Proof.
  revert conn. induction l as [|sub l IH]; intros conn; simpl.
  - split; [done|lia].
  - destruct (IH (update_ewma_sub exp ln2 sym ex p ts conn sub)) as [-> ->].
    rewrite update_ewma_sub_subs, update_ewma_sub_count.
    split; [done|]. destruct (ewma_hit sym ex sub); simpl; lia.
Qed.

(** *** The frames of the two passes, for any set of subscriptions *)

Lemma key_eqb_spec (k1 k2 : EwmaKey) :
  key_eqb k1 k2 = true
  ↔ k1.1.1 = k2.1.1 ∧ k1.1.2 = k2.1.2 ∧ k1.2 == k2.2.
Proof.
  destruct k1 as [[s1 e1] h1], k2 as [[s2 e2] h2]. unfold key_eqb.
  cbn [fst snd]. rewrite !andb_true_iff, !eqb_true, Qeqb_eq. tauto.
Qed.

Lemma key_eqb_same (k1 k2 k : EwmaKey) :
  key_eqb k1 k2 = true → key_eqb k1 k = key_eqb k2 k.
Proof.
  intros H12. apply key_eqb_spec in H12 as (Hs & He & Hh).
  destruct (key_eqb k1 k) eqn:E1, (key_eqb k2 k) eqn:E2; try done.
  - apply key_eqb_spec in E1 as (Hs1 & He1 & Hh1).
    assert (key_eqb k2 k = true); [|congruence].
    apply key_eqb_spec. split_and!; try congruence.
    rewrite <- Hh. exact Hh1.
  - apply key_eqb_spec in E2 as (Hs2 & He2 & Hh2).
    assert (key_eqb k1 k = true); [|congruence].
    apply key_eqb_spec. split_and!; try congruence.
    rewrite Hh. exact Hh2.
Qed.

Lemma key_eqb_sym (k1 k2 : EwmaKey) : key_eqb k1 k2 = key_eqb k2 k1.
Proof.
  destruct (key_eqb k1 k2) eqn:E1, (key_eqb k2 k1) eqn:E2; try done.
  - apply key_eqb_spec in E1 as (Hs & He & Hh).
    assert (key_eqb k2 k1 = true); [|congruence].
    apply key_eqb_spec. split_and!; first [congruence | by symmetry].
  - apply key_eqb_spec in E2 as (Hs & He & Hh).
    assert (key_eqb k1 k2 = true); [|congruence].
    apply key_eqb_spec. split_and!; first [congruence | by symmetry].
Qed.

Lemma ewma_get_same_key (k1 k2 : EwmaKey) d :
  key_eqb k1 k2 = true → ewma_get k1 d = ewma_get k2 d.
Proof.
  intros H. induction d as [|[k' s'] d IH]; cbn [ewma_get]; [done|].
  by rewrite (key_eqb_same k1 k2 k' H), IH.
Qed.

Lemma ewma_get_put_key (k2 k : EwmaKey) (x : EwmaState) d :
  ewma_get k2 (ewma_put k x d)
  = if key_eqb k2 k then Some x else ewma_get k2 d.
Proof.
  induction d as [|[k' s'] d IH]; cbn [ewma_get ewma_put]; [done|].
  destruct (key_eqb k k') eqn:Ek; cbn [ewma_get].
  - assert (E : key_eqb k2 k' = key_eqb k2 k).
    { rewrite (key_eqb_sym k2 k'), (key_eqb_sym k2 k). symmetry.
      by apply key_eqb_same. }
    rewrite E. by destruct (key_eqb k2 k).
  - rewrite IH. destruct (key_eqb k2 k') eqn:E2; [|done].
    destruct (key_eqb k2 k) eqn:E3; [|done].
    rewrite (key_eqb_sym k2 k) in E3.
    rewrite (key_eqb_same k k2 k' E3) in Ek. congruence.
Qed.

Lemma update_ewma_sub_miss exp ln2 sym ex p ts conn sub :
  ewma_hit sym ex sub = false →
  update_ewma_sub exp ln2 sym ex p ts conn sub = conn.
Proof.
  unfold ewma_hit, update_ewma_sub.
  destruct (String.eqb (sub_stream sub) "ewma"); [|done].
  destruct (String.eqb (sub_symbol sub) sym); [|done].
  destruct (String.eqb (sub_exchange sub) "all"),
           (String.eqb (sub_exchange sub) ex); cbn [negb andb orb]; try done.
  all: destruct (sub_half_life sub) as [h|]; [|done].
  all: by destruct (Qeqb h 0).
Qed.

Lemma update_ewma_sub_hit exp ln2 sym ex p ts conn sub :
  ewma_hit sym ex sub = true →
  ∃ h, sub_half_life sub = Some h ∧ ¬ h == 0
       ∧ update_ewma_sub exp ln2 sym ex p ts conn sub =
         let key := (sym, sub_exchange sub, h) in
         let v := ewma_value exp ln2 h p ts
                    (default (mkEwmaState None None)
                             (ewma_get key (ewma_state conn))) in
         send (set_ewma_state conn
                 (ewma_put key (mkEwmaState (Some v) (Some ts))
                           (ewma_state conn)))
              (EwmaFrame sym (sub_exchange sub) h v ts).
Proof.
  unfold ewma_hit, update_ewma_sub. rewrite !andb_true_iff.
  intros [[[-> ->] Hven] Hh]. cbn [negb].
  assert (negb (String.eqb (sub_exchange sub) "all")
          && negb (String.eqb (sub_exchange sub) ex) = false) as ->.
  { apply orb_true_iff in Hven as [-> | ->]; [done|]. apply andb_false_r. }
  destruct (sub_half_life sub) as [h|]; [|done].
  exists h. apply negb_true_iff in Hh. rewrite Hh.
  split; [done|]. split; [by apply Qeqb_neq|done].
Qed.

Section TradeValues.

Variable exp : Q → Q.
Variable ln2 : Q.

(** [exp] is a function of the number, however the number is written,
    and is 1 at zero. *)
Hypothesis exp_ext : ∀ x y, x == y → exp x == exp y.
Hypothesis exp_0 : ∀ x, x == 0 → exp x == 1.

Lemma ewma_value_half_life h h' p ts s :
  h == h' → ewma_value exp ln2 h p ts s == ewma_value exp ln2 h' p ts s.
Proof.
  intros Hh. unfold ewma_value. destruct (value s) as [v|]; [|reflexivity].
  cbv zeta.
  assert (Qltb 0 h = Qltb 0 h') as ->.
  { destruct (Qltb 0 h') eqn:E.
    - apply Qltb_lt. apply Qltb_lt in E. by rewrite Hh.
    - apply Qltb_ge. apply Qltb_ge in E. by rewrite Hh. }
  destruct (Qltb 0 h'); [|reflexivity].
  assert (He : exp (- ln2 * Qmax 0 (ts - last_ts_or s ts) / h)
               == exp (- ln2 * Qmax 0 (ts - last_ts_or s ts) / h')).
  { apply exp_ext. by rewrite Hh. }
  rewrite He. reflexivity.
Qed.

Lemma ewma_value_not_positive h p ts s :
  ¬ 0 < h → ewma_value exp ln2 h p ts s == p.
Proof.
  intros Hh. unfold ewma_value. destruct (value s) as [v|]; [|reflexivity].
  cbv zeta.
  assert (Qltb 0 h = false) as -> by (apply Qltb_ge; lra).
  ring.
Qed.

(** A second update at the same instant publishes the same value. *)
Lemma ewma_value_again h p ts s0 v :
  v == ewma_value exp ln2 h p ts s0 →
  ewma_value exp ln2 h p ts (mkEwmaState (Some v) (Some ts))
  == ewma_value exp ln2 h p ts s0.
Proof.
  intros Hv. destruct (Qlt_le_dec 0 h) as [Hpos|Hneg].
  - rewrite (ewma_value_same_instant exp ln2 exp_0 h p ts v Hpos). exact Hv.
  - rewrite !ewma_value_not_positive by lra. reflexivity.
Qed.

Lemma update_ewma_sub_frame sym ex p ts t0 conn sub :
  ewma_table_from exp ln2 p ts t0 (ewma_state conn) →
  ewma_hit sym ex sub = true →
  ∃ f,
    ewma_frame_for exp ln2 sym p ts t0 sub f
    ∧ websocket (update_ewma_sub exp ln2 sym ex p ts conn sub)
      = (websocket conn ++ [f])%list
    ∧ ewma_table_from exp ln2 p ts t0
        (ewma_state (update_ewma_sub exp ln2 sym ex p ts conn sub)).
Proof.
  intros Ht Hhit.
  destruct (update_ewma_sub_hit exp ln2 sym ex p ts conn sub Hhit)
    as (h & Hh & Hnz & ->).
  cbv zeta. cbn [send set_ewma_state websocket ewma_state].
  set (key := (sym, sub_exchange sub, h)).
  set (v := ewma_value exp ln2 h p ts
              (default (mkEwmaState None None)
                       (ewma_get key (ewma_state conn)))).
  assert (Hv : v == ewma_value exp ln2 h p ts
                      (default (mkEwmaState None None) (ewma_get key t0))).
  { unfold v, key.
    destruct (Ht sym (sub_exchange sub) h) as [->|(v0 & -> & Hv0)].
    - reflexivity.
    - cbn [default from_option id]. by apply ewma_value_again. }
  eexists. split; [|split; [reflexivity|]].
  - exists h, v. split; [done|]. split; [done|exact Hv].
  - intros s e h2. rewrite ewma_get_put_key.
    destruct (key_eqb (s, e, h2) key) eqn:Ek; [|apply Ht].
    right. exists v. split; [done|].
    rewrite (ewma_get_same_key _ _ t0 Ek).
    apply key_eqb_spec in Ek as (_ & _ & Hhh). cbn [snd] in Hhh.
    rewrite Hv. symmetry. by apply ewma_value_half_life.
Qed.

Lemma update_ewma_fold_frames sym ex p ts t0 l conn :
  ewma_table_from exp ln2 p ts t0 (ewma_state conn) →
  ∃ F,
    websocket (foldl (update_ewma_sub exp ln2 sym ex p ts) conn l)
    = (websocket conn ++ F)%list
    ∧ Forall2 (ewma_frame_for exp ln2 sym p ts t0)
              (List.filter (ewma_hit sym ex) l) F
    ∧ ewma_table_from exp ln2 p ts t0
        (ewma_state (foldl (update_ewma_sub exp ln2 sym ex p ts) conn l)).
Proof.
  revert conn. induction l as [|sub l IH]; intros conn Ht; cbn [foldl].
  - exists []. rewrite app_nil_r. by split_and!.
  - cbn [List.filter]. destruct (ewma_hit sym ex sub) eqn:Hhit.
    + destruct (update_ewma_sub_frame sym ex p ts t0 conn sub Ht Hhit)
        as (f & Hf & Hw & Ht1).
      destruct (IH _ Ht1) as (F & HwF & HF & Ht2).
      exists (f :: F). rewrite HwF, Hw, <- app_assoc.
      split_and!; [done| |done]. by constructor.
    + rewrite update_ewma_sub_miss by done. by apply IH.
Qed.

Lemma ewma_frames_filter sym p ts t0 (l : list Subscription) F :
  Forall2 (ewma_frame_for exp ln2 sym p ts t0) l F →
  List.filter is_ewma F = F.
Proof.
  induction 1 as [|sub f l F (h & v & _ & -> & _) _ IH]; [done|].
  cbn [List.filter is_ewma]. by rewrite IH.
Qed.

End TradeValues.

(** C10. [handle_trade] runs the EWMA pass twice, first for the trade's
    venue and then for "all", on a hub that the earlier broadcasts have
    left with the same subscriptions, EWMA tables and ewma frames.  An
    ewma subscription on the trade's symbol with positive half-life is
    served by both passes when filtered to "all", and by the first only
    when filtered to the trade's venue.  Whatever the subscriptions of a
    connection, the ewma frames it is sent are: one per subscription
    served by the first pass, then one per subscription served by the
    second, each with the subscription's venue filter and half-life, the
    trade's timestamp, and the value smoothed from the state the
    connection held under the subscription's key before the trade.  So
    the two frames of an "all" subscription carry the same value and
    timestamp (the second is computed with dt = 0), also next to
    subscriptions with other keys or the same key.  In particular, on a
    connection whose one subscription is such a subscription: filtered
    to "all", exactly two ewma frames are sent, with the trade's
    timestamp and equal values; filtered to the venue, exactly one. *)
Theorem handle_trade_ewma_frames (exp : Q → Q) (ln2 : Q)
    (exp_ext : ∀ x y, x == y → exp x == exp y)
    (exp_0 : ∀ x, x == 0 → exp x == 1)
    (ex sym : string) (p qty ts : Q) (w : World)
    (i : nat) (conn : WSConnection) :
  hub w !! i = Some conn →
  (∃ hub3,
     List.map ewma_view hub3 = List.map ewma_view (hub w)
     ∧ hub (handle_trade exp ln2 ex sym p qty ts w)
       = update_ewma_on_trade exp ln2 sym "all" p ts
           (update_ewma_on_trade exp ln2 sym ex p ts hub3))
  ∧ (∀ sub h, sub_stream sub = "ewma" → sub_symbol sub = sym →
       sub_half_life sub = Some h → 0 < h →
       (sub_exchange sub = "all" →
          ewma_hit sym ex sub = true ∧ ewma_hit sym "all" sub = true)
       ∧ (sub_exchange sub = ex → ex ≠ "all" →
          ewma_hit sym ex sub = true ∧ ewma_hit sym "all" sub = false))
  ∧ ∃ conn',
      hub (handle_trade exp ln2 ex sym p qty ts w) !! i = Some conn'
      ∧ subs conn' = subs conn
      ∧ ewma_count conn'
        = (ewma_count conn
           + length (List.filter (ewma_hit sym ex) (subs conn))
           + length (List.filter (ewma_hit sym "all") (subs conn)))%nat
      ∧ (∃ F1 F2,
           List.filter is_ewma (websocket conn')
           = (List.filter is_ewma (websocket conn) ++ F1 ++ F2)%list
           ∧ Forall2 (ewma_frame_for exp ln2 sym p ts (ewma_state conn))
                     (List.filter (ewma_hit sym ex) (subs conn)) F1
           ∧ Forall2 (ewma_frame_for exp ln2 sym p ts (ewma_state conn))
                     (List.filter (ewma_hit sym "all") (subs conn)) F2)
      ∧ ∀ sub h, subs conn = [sub] →
          sub_stream sub = "ewma" → sub_symbol sub = sym →
          sub_half_life sub = Some h → 0 < h →
          (sub_exchange sub = "all" →
             ∃ v1 v2, v1 == v2
               ∧ List.filter is_ewma (websocket conn')
                 = (List.filter is_ewma (websocket conn)
                    ++ [EwmaFrame sym "all" h v1 ts;
                        EwmaFrame sym "all" h v2 ts])%list)
          ∧ (sub_exchange sub = ex → ex ≠ "all" →
             ∃ v, List.filter is_ewma (websocket conn')
                  = (List.filter is_ewma (websocket conn)
                     ++ [EwmaFrame sym ex h v ts])%list).
Proof.
  intros Hi.
  destruct (handle_trade_hub exp ln2 ex sym p qty ts w) as (hub3 & Hview & Hhub).
  split; [by exists hub3|].
  split.
  { intros sub h Hstream Hsym Hh Hpos. unfold ewma_hit.
    rewrite Hstream, Hsym, Hh, !String.eqb_refl.
    assert (Qeqb h 0 = false) as -> by (apply Qeqb_neq; lra).
    split.
    - intros ->. done.
    - intros -> Hnall. rewrite String.eqb_refl.
      apply eqb_false in Hnall. rewrite Hnall. done. }
  assert (∃ c3, hub3 !! i = Some c3 ∧ ewma_view c3 = ewma_view conn)
    as (c3 & Hc3 & Hv3).
  { pose proof (lookup_map ewma_view (hub w) i) as H1.
    rewrite <- Hview, lookup_map, Hi in H1.
    destruct (hub3 !! i) as [c3|]; [|done].
    exists c3. split; [done|]. cbn in H1. congruence. }
  unfold ewma_view in Hv3. injection Hv3 as Hs3 He3 Hf3.
  rewrite Hhub. unfold update_ewma_on_trade.
  rewrite !lookup_map, Hc3. cbn [fmap option_fmap option_map].
  eexists. split; [done|].
  destruct (update_ewma_fold_count exp ln2 sym ex p ts (subs c3) c3)
    as [Hsub1 Hcnt1].
  destruct (update_ewma_fold_count exp ln2 sym "all" p ts
              (subs (foldl (update_ewma_sub exp ln2 sym ex p ts) c3 (subs c3)))
              (foldl (update_ewma_sub exp ln2 sym ex p ts) c3 (subs c3)))
    as [Hsub2 Hcnt2].
  split; [by rewrite Hsub2, Hsub1|].
  split.
  { rewrite Hcnt2, Hcnt1, Hsub1, Hs3. unfold ewma_count. by rewrite Hf3. }
  split.
  { assert (Ht0 : ewma_table_from exp ln2 p ts (ewma_state conn)
                    (ewma_state c3)).
    { intros s e h. left. by rewrite He3. }
    destruct (update_ewma_fold_frames exp ln2 exp_ext exp_0 sym ex p ts
                (ewma_state conn) (subs c3) c3 Ht0) as (F1 & Hw1 & HF1 & Ht1).
    destruct (update_ewma_fold_frames exp ln2 exp_ext exp_0 sym "all" p ts
                (ewma_state conn)
                (subs (foldl (update_ewma_sub exp ln2 sym ex p ts) c3
                             (subs c3)))
                _ Ht1) as (F2 & Hw2 & HF2 & _).
    rewrite Hsub1 in HF2. rewrite Hs3 in HF1, HF2.
    exists F1, F2. split; [|by split].
    rewrite Hw2, Hw1, !List.filter_app, Hf3.
    rewrite (ewma_frames_filter exp ln2 _ _ _ _ _ _ HF1),
      (ewma_frames_filter exp ln2 _ _ _ _ _ _ HF2).
    by rewrite <- app_assoc. }
  intros sub h Hsubs Hstream Hsym Hh Hpos.
  rewrite Hsub1, Hs3, Hsubs. cbn [foldl]. split.
  - intros Hall.
    assert (Hm : ∀ e, ewma_matches sym e sub) by (intros e; split_and!; auto).
    rewrite (update_ewma_sub_active exp ln2 sym ex p ts c3 sub h (Hm ex) Hh Hpos).
    cbv zeta.
    rewrite (update_ewma_sub_active exp ln2 sym "all" p ts _ sub h (Hm "all") Hh Hpos).
    cbv zeta. cbn [ewma_state send set_ewma_state websocket].
    rewrite ewma_get_put. cbn [default]. rewrite Hall.
    eexists _, _. split.
    2:{ rewrite <- app_assoc, List.filter_app. cbn [List.filter is_ewma app].
        rewrite Hf3. done. }
    symmetry. by apply ewma_value_same_instant.
  - intros Hex Hnall.
    assert (Hm : ewma_matches sym ex sub) by (split_and!; auto).
    rewrite (update_ewma_sub_active exp ln2 sym ex p ts c3 sub h Hm Hh Hpos).
    cbv zeta.
    rewrite update_ewma_sub_other_venue.
    2:{ cbn [send set_ewma_state]. congruence. }
    2:{ cbn [send set_ewma_state]. congruence. }
    cbn [websocket send set_ewma_state]. rewrite Hex.
    eexists. rewrite List.filter_app. cbn [List.filter is_ewma].
    rewrite Hf3. done.
Qed.

Lemma one_plus_at_zero (x : Q) : x == 0 → 1 + x == 1.
Proof. intros ->. reflexivity. Qed.

Lemma one_plus_ext (x y : Q) : x == y → 1 + x == 1 + y.
Proof. intros ->. reflexivity. Qed.

Lemma handle_trade_ewma_frames_witness :
  ∃ conn',
    hub (handle_trade (fun x => 1 + x) 1 "binance" "BTCUSDT" 100 2 1000
           (mkWorld STATE0 ∅
              [mkWSConnection [] "u1"
                 [mkSubscription "ewma" "BTCUSDT" "all" None (Some 10)] []]))
      !! 0%nat = Some conn'
    ∧ ewma_count conn' = 2%nat
    ∧ ∃ v1 v2, v1 == v2
        ∧ List.filter is_ewma (websocket conn')
          = [EwmaFrame "BTCUSDT" "all" 10 v1 1000;
             EwmaFrame "BTCUSDT" "all" 10 v2 1000].
Proof.
  destruct (handle_trade_ewma_frames (fun x => 1 + x) 1 one_plus_ext
              one_plus_at_zero "binance" "BTCUSDT" 100 2 1000
              (mkWorld STATE0 ∅
                 [mkWSConnection [] "u1"
                    [mkSubscription "ewma" "BTCUSDT" "all" None (Some 10)] []])
              0%nat
              (mkWSConnection [] "u1"
                 [mkSubscription "ewma" "BTCUSDT" "all" None (Some 10)] [])
              eq_refl)
    as (_ & _ & conn' & Hc & _ & Hn & _ & Hone).
  exists conn'. split; [exact Hc|]. split; [exact Hn|].
  destruct (Hone (mkSubscription "ewma" "BTCUSDT" "all" None (Some 10)) 10
                 eq_refl eq_refl eq_refl eq_refl eq_refl) as [Hall _].
  destruct (Hall eq_refl) as (v1 & v2 & Hv & Hf).
  exists v1, v2. split; [exact Hv|exact Hf].
Defined.

(** Three ewma subscriptions on one connection, two of them with stored
    state: one trade sends five frames, each "all" subscription its own
    value twice and the venue subscription the price once. *)
Example scenario_ewma_three_subscriptions :
  let conn :=
    mkWSConnection [] "u1"
      [mkSubscription "ewma" "BTCUSDT" "all" None (Some 10);
       mkSubscription "ewma" "BTCUSDT" "all" None (Some 20);
       mkSubscription "ewma" "BTCUSDT" "binance" None (Some 10)]
      [(("BTCUSDT", "all", 10), mkEwmaState (Some 100) (Some 1000));
       (("BTCUSDT", "all", 20), mkEwmaState (Some 100) (Some 1000))] in
  let w := mkWorld STATE0 ∅ [conn] in
  match List.filter is_ewma
          (websocket
             (default conn
                (hub (handle_trade (fun x => 1 + x) 1 "binance" "BTCUSDT"
                        110 2 1002 w) !! 0%nat))) with
  | [EwmaFrame _ "all" h1 v1 t1; EwmaFrame _ "all" h2 v2 t2;
     EwmaFrame _ "binance" h3 v3 t3;
     EwmaFrame _ "all" h4 v4 t4; EwmaFrame _ "all" h5 v5 t5] =>
      (h1, h2, h3, h4, h5) = (10, 20, 10, 10, 20)
      ∧ (t1, t2, t3, t4, t5) = (1002, 1002, 1002, 1002, 1002)
      ∧ v1 == 102 ∧ v2 == 101 ∧ v3 == 110 ∧ v4 == 102 ∧ v5 == 101
  | _ => False
  end.
Proof. vm_compute. repeat split. Qed.

(** ** Candles *)

Lemma Qmod_multiple (n k : Z) (x : Q) :
  x == inject_Z n * inject_Z k → Qmod x n == 0.
Proof.
  intros Hx. unfold Qmod.
  destruct (Z.eq_dec n 0%Z) as [->|Hn].
  - change (inject_Z 0) with 0 in *. lra.
  - assert (Hq : x / inject_Z n == inject_Z k).
    { rewrite Hx. field. intros H0.
      apply Hn. unfold Qeq in H0. simpl in H0. lia. }
    rewrite (Qfloor_comp _ _ Hq), Qfloor_Z, Hx. ring.
Qed.

Lemma Qmod_zero_iff (n : Z) (x : Q) :
  Qmod x n == 0 ↔ ∃ k : Z, x == inject_Z n * inject_Z k.
Proof.
  split.
  - intros H. exists (Qfloor (x / inject_Z n)). unfold Qmod in H. lra.
  - intros [k Hk]. by apply Qmod_multiple with k.
Qed.

Lemma interval_start_aligned (ts : Q) (n : Z) :
  Qmod (_interval_start ts n) n == 0.
Proof.
  apply Qmod_zero_iff. exists (Qfloor (ts / inject_Z n)).
  unfold _interval_start, Qmod. ring.
Qed.

Lemma Qmax_ge x y : x <= Qmax x y ∧ y <= Qmax x y.
Proof.
  unfold Qmax. destruct (Qltb x y) eqn:E.
  - apply Qltb_lt in E. lra.
  - apply Qltb_ge in E. lra.
Qed.

Lemma Qmin_le x y : Qmin x y <= x ∧ Qmin x y <= y.
Proof.
  unfold Qmin. destruct (Qltb y x) eqn:E.
  - apply Qltb_lt in E. lra.
  - apply Qltb_ge in E. lra.
Qed.

Lemma fresh_candle_ok ts n p qty :
  0 <= qty →
  candle_ok n (mkCandle (_interval_start ts n)
                        (_interval_start ts n + inject_Z n) p p p p qty).
Proof.
  intros Hq. unfold candle_ok. simpl.
  split; [apply interval_start_aligned|].
  split; [ring|]. repeat split; lra.
Qed.

Lemma widened_candle_ok n c p qty :
  0 <= qty → candle_ok n c →
  candle_ok n (mkCandle (c_start c) (c_end c) (c_open c) (Qmax (c_high c) p)
                        (Qmin (c_low c) p) p (c_volume c + qty)).
Proof.
  intros Hq (Hs & He & Hlo & Hoh & Hlc & Hch & Hv).
  unfold candle_ok. simpl.
  destruct (Qmax_ge (c_high c) p), (Qmin_le (c_low c) p).
  repeat split; try done; lra.
Qed.

Lemma rolled_candle_ok n c :
  candle_ok n c →
  candle_ok n (mkCandle (c_end c) (c_end c + inject_Z n) (c_close c)
                        (c_close c) (c_close c) (c_close c) 0).
Proof.
  intros (Hs & He & _). unfold candle_ok. simpl.
  split.
  - apply Qmod_zero_iff in Hs as [k Hk].
    apply Qmod_zero_iff. exists (k + 1)%Z.
    assert (He' : c_end c == c_start c + inject_Z n) by lra.
    rewrite He', Hk, inject_Z_plus. change (inject_Z 1) with 1. ring.
  - split; [ring|]. split_and!; lra.
Qed.

Lemma klines_ok_insert ks sym ex n c :
  klines_ok ks → candle_ok n c → klines_ok (<[(sym, ex, n) := c]> ks).
Proof.
  intros Hks Hc sym' ex' n' c' Hl.
  apply lookup_insert_Some in Hl as [[[= -> -> ->] <-]|[_ Hl]]; [done|].
  by eapply Hks.
Qed.

Lemma update_kline_step_ok sym ex p qty ts acc n :
  0 <= qty → klines_ok acc.1 →
  klines_ok (_update_kline_step sym ex p qty ts acc n).1.
Proof.
  intros Hq Hks. destruct acc as [ks hb].
  unfold _update_kline_step. cbv zeta. cbn [fst] in *.
  apply klines_ok_insert; [done|].
  destruct (ks !! _) as [c|] eqn:E.
  - destruct (Qleb (c_end c) ts).
    + by apply fresh_candle_ok.
    + apply widened_candle_ok; [done|]. by eapply Hks.
  - by apply fresh_candle_ok.
Qed.

Lemma kline_tick_step_ok now acc item :
  klines_ok acc.1 → candle_ok item.1.2 item.2 →
  klines_ok (kline_tick_step now acc item).1.
Proof.
  destruct acc as [ks hb], item as [[[sym ex] n] c].
  unfold kline_tick_step. cbv zeta. cbn [fst snd].
  intros Hks Hc.
  assert (Hks1 : klines_ok
    (if Qleb (c_end c) now
     then <[(sym, ex, n) :=
              mkCandle (c_end c) (c_end c + inject_Z n) (c_close c)
                       (c_close c) (c_close c) (c_close c) 0]> ks
     else ks)).
  { destruct (Qleb (c_end c) now); [|done].
    apply klines_ok_insert; [done|]. by apply rolled_candle_ok. }
  destruct (_ !! (sym, ex, n)); done.
Qed.

(** C8. Every active candle keeps the candle invariant (start aligned on
    the interval, end one interval after start, low ≤ open, close ≤ high,
    volume ≥ 0) through [_update_kline], for a trade of quantity ≥ 0, and
    through a pass of the tick loop. *)
Theorem klines_invariant (ks : gmap KlineKey Candle) (hb : list WSConnection) :
  klines_ok ks →
  (∀ sym ex p qty ts, 0 <= qty →
     klines_ok (_update_kline sym ex p qty ts (ks, hb)).1)
  ∧ (∀ now, klines_ok (kline_tick now (ks, hb)).1).
Proof.
  intros Hks. split.
  - intros sym ex p qty ts Hq. unfold _update_kline.
    generalize kline_intervals_seconds. intros l.
    assert (H : ∀ acc, klines_ok acc.1 →
      klines_ok (foldl (_update_kline_step sym ex p qty ts) acc l).1).
    { induction l as [|n l IH]; intros acc Hacc; simpl; [done|].
      apply IH. by apply update_kline_step_ok. }
    by apply H.
  - intros now. unfold kline_tick. simpl.
    assert (Hl : Forall (fun item : KlineKey * Candle =>
                           candle_ok item.1.2 item.2) (map_to_list ks)).
    { apply Forall_forall. intros [[[sym ex] n] c] Hin.
      apply elem_of_map_to_list in Hin. simpl. by eapply Hks. }
    revert Hl. generalize (map_to_list ks). intros l Hl.
    assert (H : ∀ acc, klines_ok acc.1 →
      klines_ok (foldl (kline_tick_step now) acc l).1).
    { induction Hl as [|item l Hitem Hl IH]; intros acc Hacc; simpl; [done|].
      apply IH. by apply kline_tick_step_ok. }
    by apply H.
Qed.

Lemma klines_invariant_witness :
  let ks : gmap KlineKey Candle :=
    {[ ("BTCUSDT", "all", 10%Z) := mkCandle 0 10 10 10 10 10 0 ]} in
  klines_ok (_update_kline "BTCUSDT" "all" 11 2 3 (ks, [])).1
  ∧ klines_ok (kline_tick 10 (ks, [])).1.
Proof.
  intros ks.
  assert (Hks : klines_ok ks).
  { intros sym ex n c Hl.
    apply lookup_singleton_Some in Hl as [[= <- <- <-] <-].
    unfold candle_ok. simpl. split_and!; reflexivity || discriminate. }
  destruct (klines_invariant ks [] Hks) as [Hupd Htick].
  split.
  - apply Hupd. discriminate.
  - apply Htick.
Defined.

(** ** Persistence *)

Lemma mapM_map {A B C} (enc : A → B) (dec : B → option C) (h : A → C)
    (l : list A) :
  Forall (fun x => dec (enc x) = Some (h x)) l →
  mapM dec (List.map enc l) = Some (List.map h l).
Proof.
  induction 1 as [|x l Hx _ IH]; simpl; [done|].
  rewrite Hx. simpl. rewrite IH. done.
Qed.

Lemma mapM_roundtrip {A B} (enc : A → B) (dec : B → option A) (l : list A) :
  Forall (fun x => dec (enc x) = Some x) l →
  mapM dec (List.map enc l) = Some l.
Proof. intros H. rewrite (mapM_map enc dec id) by done. by rewrite List.map_id. Qed.

Lemma map_fmap {A B} (f : A → B) (l : list A) : List.map f l = f <$> l.
Proof. induction l as [|x l IH]; simpl; [done|]. by rewrite IH. Qed.

(** Decoding an encoded dictionary, when the decoder of an entry may
    look at its key. *)
Lemma dict_of_json_of_dict_keyed {V} (enc : V → json)
    (dec : string → json → option V) (g : string → V → V)
    (d : gmap string V) :
  (∀ k v, d !! k = Some v → dec k (enc v) = Some (g k v)) →
  ∃ d', dict_of_json dec (json_of_dict enc d) = Some d'
        ∧ ∀ k, d' !! k = g k <$> d !! k.
Proof.
  intros H. unfold dict_of_json, json_of_dict. simpl.
  rewrite (mapM_map (fun '(k, v) => (k, enc v))
             (fun '(k, j) => x ← dec k j; Some (k, x))
             (fun '(k, v) => (k, g k v))).
  2:{ apply Forall_forall. intros [k v] Hin.
      apply elem_of_map_to_list in Hin. rewrite (H k v Hin). done. }
  simpl. eexists. split; [done|]. intros k.
  rewrite map_fmap.
  assert (Hfst : ((fun '(k, v) => (k, g k v)) <$> map_to_list d).*1
                 = (map_to_list d).*1).
  { rewrite <- list_fmap_compose. apply list_fmap_ext. by intros i [??] _. }
  destruct (d !! k) as [v|] eqn:Hk; simpl.
  - apply elem_of_list_to_map_1.
    + rewrite Hfst. apply NoDup_fst_map_to_list.
    + apply list_elem_of_fmap. exists (k, v). split; [done|].
      by apply elem_of_map_to_list.
  - apply not_elem_of_list_to_map_1. rewrite Hfst.
    intros Hin. apply list_elem_of_fmap in Hin.
    destruct Hin as ([k' v] & Heq & Hin). simpl in Heq. subst k'.
    apply elem_of_map_to_list in Hin. congruence.
Qed.

Lemma dict_of_json_of_dict {V} (enc : V → json)
    (dec : string → json → option V) (d : gmap string V) :
  (∀ k v, d !! k = Some v → dec k (enc v) = Some v) →
  dict_of_json dec (json_of_dict enc d) = Some d.
Proof.
  intros H.
  destruct (dict_of_json_of_dict_keyed enc dec (fun _ v => v) d H)
    as (d' & -> & Hd').
  f_equal. apply map_eq. intros k. rewrite Hd'. by destruct (d !! k).
Qed.

Lemma order_of_json_of_order (o : Order) :
  order_of_json (json_of_order o) = Some o.
Proof. destruct o as [? ? ? ? ? ? ? [?|] [?|] ? ?]; reflexivity. Qed.

Lemma balance_of_json_of_balance (b : Balance) :
  balance_of_json (json_of_balance b) = Some b.
Proof. destruct b; reflexivity. Qed.

Lemma as_str_list_of_list (l : list string) :
  as_str_list (JArr (List.map JStr l)) = Some l.
Proof. simpl. apply mapM_roundtrip. by apply Forall_forall. Qed.

Lemma user_of_json_of_user (k : string) (u : User) :
  user_of_json k (json_of_user u) = Some (mkUser k (password_hash u)).
Proof. reflexivity. Qed.

Lemma users_keyed_empty : users_keyed STATE0.
Proof. intros k u H. cbn [STATE0 users] in H. by rewrite lookup_empty in H. Qed.

Lemma users_keyed_register u h st :
  users_keyed st → users_keyed (register u h st).1.
Proof.
  intros Hk. unfold register.
  destruct (users st !! u) eqn:E; [done|].
  intros k v Hl. simpl in Hl.
  apply lookup_insert_Some in Hl as [[<- <-]|[_ Hl]]; [done|]. by apply Hk.
Qed.

Lemma users_keyed_load file st st' :
  users_keyed st → load_state file st = Some st' → users_keyed st'.
Proof.
  intros Hk. unfold load_state.
  destruct file as [doc|]; [|by intros [= <-]].
  intros H.
  destruct (as_obj doc) as [raw|]; [|done]. simpl in H.
  destruct (dict_of_json user_of_json _) as [us|] eqn:Eus; [|done].
  simpl in H.
  destruct (dict_of_json _ (get_or_empty "balances" raw)); [|done].
  simpl in H.
  destruct (dict_of_json _ (get_or_empty "orders" raw)); [|done].
  simpl in H.
  destruct (dict_of_json _ (get_or_empty "open_orders_by_symbol" raw)); [|done].
  simpl in H. injection H as <-.
  intros k u Hl. simpl in Hl.
  unfold dict_of_json in Eus.
  destruct (as_obj (get_or_empty "users" raw)) as [o|]; [|done].
  simpl in Eus.
  destruct (mapM _ o) as [l|] eqn:El; [|done].
  simpl in Eus. injection Eus as <-.
  apply elem_of_list_to_map_2 in Hl.
  apply mapM_Some in El.
  apply list_elem_of_lookup in Hl as [i Hi].
  destruct (Forall2_lookup_r _ _ _ _ _ El Hi) as ([k' j] & _ & Hdec).
  unfold user_of_json in Hdec.
  destruct (as_obj j) as [m|]; [|done]. simpl in Hdec.
  destruct (kwarg_req as_str "password_hash" m); [|done].
  simpl in Hdec. by injection Hdec as <- <-.
Qed.

(** Saving a state and loading the saved document into any instance
    succeeds and gives back the balances, the orders (all eleven fields)
    and the open index of the saved state, and for every key the user
    stored under it, with its password hash and with the key as
    username; the market fields, which are not persisted, are those of
    the instance loaded into. *)
Lemma save_load_document (st fresh : AppState) :
  ∃ st',
    load_state (Some (save_state st)) fresh = Some st'
    ∧ balances st' = balances st
    ∧ orders st' = orders st
    ∧ open_orders_by_symbol st' = open_orders_by_symbol st
    ∧ best_touch st' = best_touch fresh
    ∧ last_trade st' = last_trade fresh
    ∧ (∀ k, users st' !! k
            = (fun u => mkUser k (password_hash u)) <$> users st !! k)
    ∧ (users_keyed st →
       users st' = users st
       ∧ st' = mkAppState (users st) (balances st) (orders st)
                          (open_orders_by_symbol st)
                          (best_touch fresh) (last_trade fresh)).
Proof.
  destruct (dict_of_json_of_dict_keyed json_of_user user_of_json
              (fun k u => mkUser k (password_hash u)) (users st))
    as (us & Hus & Hlook).
  { intros k u _. apply user_of_json_of_user. }
  exists (mkAppState us (balances st) (orders st) (open_orders_by_symbol st)
                     (best_touch fresh) (last_trade fresh)).
  assert (Hkeyed : users_keyed st → us = users st).
  { intros Hk. apply map_eq. intros k. rewrite Hlook.
    destruct (users st !! k) as [u|] eqn:Hu; [|done].
    simpl. rewrite <- (Hk k u Hu). by destruct u. }
  split_and!; try done.
  2:{ intros Hk. rewrite (Hkeyed Hk). done. }
  transitivity
    (us ← dict_of_json user_of_json (json_of_dict json_of_user (users st));
     bs ← dict_of_json (fun _ => dict_of_json (fun _ => balance_of_json))
            (json_of_dict (json_of_dict json_of_balance) (balances st));
     os ← dict_of_json (fun _ => order_of_json)
            (json_of_dict json_of_order (orders st));
     ix ← dict_of_json (fun _ => as_str_list)
            (json_of_dict (fun l => JArr (List.map JStr l))
                          (open_orders_by_symbol st));
     Some (mkAppState us bs os ix (best_touch fresh) (last_trade fresh))).
  { reflexivity. }
  rewrite Hus. cbn [mbind option_bind].
  rewrite (dict_of_json_of_dict (json_of_dict json_of_balance)).
  2:{ intros k v _. apply dict_of_json_of_dict.
      intros a b _. apply balance_of_json_of_balance. }
  cbn [mbind option_bind].
  rewrite (dict_of_json_of_dict json_of_order).
  2:{ intros k o _. apply order_of_json_of_order. }
  cbn [mbind option_bind].
  rewrite (dict_of_json_of_dict (fun l => JArr (List.map JStr l))).
  2:{ intros k l _. apply as_str_list_of_list. }
  done.
Qed.

Lemma users_place_order now u tid sym sd p qty st :
  users (place_order now u tid sym sd p qty st).1 = users st.
Proof.
  unfold place_order. destruct (orders st !! tid); [done|].
  destruct (_reserve_for_order (balances st) u sd sym p qty)
    as [bals [[ok reserved] why]].
  by destruct ok.
Qed.

Lemma users_cancel_order u tid st :
  users (cancel_order u tid st).1 = users st.
Proof.
  unfold cancel_order. destruct (orders st !! tid) as [o|]; [|done].
  destruct (negb (String.eqb (username o) u)); [done|].
  by destruct (negb (String.eqb (status o) "open")).
Qed.

(** [STATE.users] is assigned in two places, [register] and [load_state],
    and both store a user under its own username; the paper engine does
    not touch it.  So every state the program holds is keyed. *)
Lemma users_keyed_kept (st : AppState) :
  users_keyed st →
  (∀ u h, users_keyed (register u h st).1)
  ∧ (∀ file st', load_state file st = Some st' → users_keyed st')
  ∧ (∀ u asset amount, users_keyed (deposit u asset amount st))
  ∧ (∀ now u tid sym sd p qty,
       users_keyed (place_order now u tid sym sd p qty st).1)
  ∧ (∀ u tid, users_keyed (cancel_order u tid st).1)
  ∧ (∀ sym bb ba, users_keyed (execute_on_best_touch sym bb ba st)).
Proof.
  intros Hk. split_and!.
  - intros u h. by apply users_keyed_register.
  - intros file st'. by apply users_keyed_load.
  - intros u asset amount. exact Hk.
  - intros now u tid sym sd p qty k v.
    rewrite users_place_order. apply Hk.
  - intros u tid k v. rewrite users_cancel_order. apply Hk.
  - intros sym bb ba k v.
    destruct (execute_on_best_touch_market sym bb ba st) as (_ & _ & ->).
    apply Hk.
Qed.

(** C9. For every state in which each user is stored under its own
    username (every state the program holds: the empty state is one and
    [register], [load_state] and the paper engine keep it so), saving the
    state and loading the document into any instance succeeds and gives
    back exactly the users (username and password hash), the balances
    (total and available per user and asset), the orders (all eleven
    fields) and the open index of the saved state; the market fields,
    which are not persisted, are those of the instance loaded into. *)
Theorem save_load_roundtrip (st fresh : AppState) :
  users_keyed st →
  load_state (Some (save_state st)) fresh
  = Some (mkAppState (users st) (balances st) (orders st)
                     (open_orders_by_symbol st)
                     (best_touch fresh) (last_trade fresh)).
Proof.
  intros Hk.
  destruct (save_load_document st fresh)
    as (st' & Hload & _ & _ & _ & _ & _ & _ & Hall).
  rewrite Hload. f_equal. by apply Hall.
Qed.

Lemma save_load_roundtrip_witness :
  let st :=
    mkAppState
      {[ "alice" := mkUser "alice" "hash" ]}
      {[ "alice" := {[ "USDT" := mkBalance 1000 800 ]} ]}
      {[ "ord-1" := mkOrder "ord-1" "alice" "BTCUSDT" "buy" 50000 (1 # 100)
                            "open" None None 500 123 ]}
      {[ "BTCUSDT" := ["ord-1"] ]} ∅ ∅ in
  load_state (Some (save_state st)) STATE0 = Some st.
Proof.
  intros st.
  apply (save_load_roundtrip st STATE0).
  intros k u Hl. cbn [st users] in Hl.
  apply lookup_singleton_Some in Hl as [<- <-]. reflexivity.
Defined.

(** ** Matching is idempotent *)

Lemma execute_one_settled bb ba st tid :
  settled bb ba (orders st) tid → execute_one bb ba st tid = st.
Proof.
  unfold settled, execute_one.
  destruct (orders st !! tid) as [o|]; [|done].
  intros [Hs|Hf].
  - apply eqb_false in Hs. rewrite Hs. done.
  - rewrite Hf. by destruct (negb _).
Qed.

(** What one iteration does to the order table: nothing, or it marks the
    order filled. *)
Lemma execute_one_orders bb ba st tid :
  orders (execute_one bb ba st tid) = orders st
  ∨ ∃ o fp, orders st !! tid = Some o ∧ status o = "open"
      ∧ fill_price_of o bb ba = Some fp
      ∧ orders (execute_one bb ba st tid)
        = <[tid := set_filled_price (set_status o "filled") (Some fp)]>
            (orders st).
Proof.
  unfold execute_one.
  destruct (orders st !! tid) as [o|] eqn:Ho; [|by left].
  destruct (String.eqb (status o) "open") eqn:Hs; simpl; [|by left].
  destruct (fill_price_of o bb ba) as [fp|] eqn:Hf; [|by left].
  right. exists o, fp. apply eqb_true in Hs. done.
Qed.

Lemma execute_one_keeps_settled bb ba st tid tid' :
  settled bb ba (orders st) tid' →
  settled bb ba (orders (execute_one bb ba st tid)) tid'.
Proof.
  intros Hs.
  destruct (execute_one_orders bb ba st tid)
    as [->|(o & fp & Ho & Hopen & Hf & ->)]; [done|].
  unfold settled in *.
  destruct (decide (tid' = tid)) as [->|Hne].
  - rewrite lookup_insert_eq. by left.
  - by rewrite lookup_insert_ne.
Qed.

Lemma execute_one_settles bb ba st tid :
  settled bb ba (orders (execute_one bb ba st tid)) tid.
Proof.
  destruct (execute_one_orders bb ba st tid)
    as [E|(o & fp & Ho & Hopen & Hf & ->)].
  - rewrite E. unfold execute_one in E. unfold settled.
    destruct (orders st !! tid) as [o|] eqn:Ho; [|done].
    destruct (String.eqb (status o) "open") eqn:Hs; simpl in E.
    2:{ left. by apply eqb_false. }
    destruct (fill_price_of o bb ba) as [fp|] eqn:Hf; [|by right].
    simpl in E. exfalso.
    assert (H : orders st !! tid
                = Some (set_filled_price (set_status o "filled") (Some fp))).
    { rewrite <- E. by rewrite lookup_insert_eq. }
    rewrite Ho in H. injection H as H.
    apply eqb_true in Hs. apply (f_equal status) in H. simpl in H.
    rewrite Hs in H. done.
  - unfold settled. rewrite lookup_insert_eq. by left.
Qed.

Lemma execute_fold_keeps_settled bb ba l st tid :
  settled bb ba (orders st) tid →
  settled bb ba (orders (foldl (execute_one bb ba) st l)) tid.
Proof.
  revert st. induction l as [|t l IH]; intros st Hs; simpl; [done|].
  apply IH. by apply execute_one_keeps_settled.
Qed.

Lemma execute_fold_settles bb ba l st :
  Forall (settled bb ba (orders (foldl (execute_one bb ba) st l))) l.
Proof.
  revert st. induction l as [|t l IH]; intros st; simpl; [done|].
  constructor; [|apply IH].
  apply execute_fold_keeps_settled, execute_one_settles.
Qed.

Lemma remove_token_subseteq tid (l : list string) : remove_token tid l ⊆ l.
Proof.
  intros t Ht. unfold remove_token in Ht.
  apply list_elem_of_In, filter_In in Ht as [Ht _]. by apply list_elem_of_In.
Qed.

Lemma execute_one_index bb ba st tid sym :
  default [] (open_orders_by_symbol (execute_one bb ba st tid) !! sym)
  ⊆ default [] (open_orders_by_symbol st !! sym).
Proof.
  unfold execute_one.
  destruct (orders st !! tid) as [o|]; [|done].
  destruct (negb _); [done|].
  destruct (fill_price_of o bb ba); [|done].
  cbn [open_orders_by_symbol set_open_orders set_balances set_orders].
  rewrite unindex_lookup.
  destruct (decide _); [apply remove_token_subseteq|done].
Qed.

Lemma execute_fold_index bb ba l st sym :
  default [] (open_orders_by_symbol (foldl (execute_one bb ba) st l) !! sym)
  ⊆ default [] (open_orders_by_symbol st !! sym).
Proof.
  revert st. induction l as [|t l IH]; intros st; simpl; [done|].
  etrans; [apply IH|apply execute_one_index].
Qed.

Lemma execute_fold_all_settled bb ba l st :
  Forall (settled bb ba (orders st)) l →
  foldl (execute_one bb ba) st l = st.
Proof.
  induction 1 as [|t l Ht _ IH]; simpl; [done|].
  by rewrite execute_one_settled.
Qed.

(** C5. Running [execute_on_best_touch] again with the same bests right
    after a run changes nothing: the whole state, orders, balances and
    open index included, is the one the first run left. *)
Theorem execute_on_best_touch_idempotent (sym : string) (bb ba : option Q)
    (st : AppState) :
  execute_on_best_touch sym bb ba (execute_on_best_touch sym bb ba st)
  = execute_on_best_touch sym bb ba st.
Proof.
  assert (H : ∀ l,
    l = default [] (open_orders_by_symbol st !! sym) →
    foldl (execute_one bb ba) (foldl (execute_one bb ba) st l)
      (default [] (open_orders_by_symbol
                     (foldl (execute_one bb ba) st l) !! sym))
    = foldl (execute_one bb ba) st l).
  { intros l Hl. apply execute_fold_all_settled.
    apply Forall_forall. intros t Ht.
    apply execute_fold_index in Ht. rewrite <- Hl in Ht.
    pose proof (execute_fold_settles bb ba l st) as Hall.
    rewrite Forall_forall in Hall. by apply Hall. }
  unfold execute_on_best_touch.
  destruct bb as [b|], ba as [a|]; try (by apply H). done.
Qed.

(** ** Fills *)

Lemma balance_of_update_at bals u a f u' a' :
  balance_of (update_balance bals u a f) u' a' =
  if decide ((u', a') = (u, a)) then f (balance_of bals u' a')
  else balance_of bals u' a'.
Proof.
  rewrite balance_of_update.
  destruct (decide ((u, a) = (u', a'))) as [E|E].
  - injection E as -> ->. by rewrite decide_True.
  - rewrite decide_False; [done|]. intros E'. apply E. by injection E' as -> ->.
Qed.

Ltac by_keys :=
  repeat (destruct (decide _) as [?E|?E]);
  try done; try congruence; try (exfalso; eauto; fail).

(** The balances after [_apply_fill], asset by asset; the two keys may
    coincide. *)
Lemma apply_fill_balance bals u sd sym p qty r u' a' :
  balance_of (_apply_fill bals u sd sym p qty r) u' a' =
  let base := (split_symbol sym).1 in
  let quote := (split_symbol sym).2 in
  let x := balance_of bals u' a' in
  if String.eqb sd "buy" then
    let x1 := if decide ((u', a') = (u, quote)) then sub_total (p * qty) x else x in
    let x2 := if decide ((u', a') = (u, base))
              then add_available qty (add_total qty x1) else x1 in
    if Qltb (p * qty) r
    then if decide ((u', a') = (u, quote))
         then add_available (r - p * qty) x2 else x2
    else x2
  else
    let x1 := if decide ((u', a') = (u, base)) then sub_total qty x else x in
    if decide ((u', a') = (u, quote))
    then add_available (p * qty) (add_total (p * qty) x1) else x1.
Proof.
  unfold _apply_fill. destruct (split_symbol sym) as [base quote].
  cbn [fst snd]. cbv zeta.
  destruct (String.eqb sd "buy").
  - destruct (Qltb (p * qty) r);
      rewrite !balance_of_update_at, !balance_of_get_balance;
      repeat destruct (decide _); done.
  - rewrite !balance_of_update_at, !balance_of_get_balance;
      repeat destruct (decide _); done.
Qed.

Lemma fill_price_of_buy o bb a :
  side o = "buy" → a <= price o → fill_price_of o bb (Some a) = Some a.
Proof.
  intros Hs Hle. unfold fill_price_of. rewrite Hs. simpl.
  apply Qleb_le in Hle. rewrite Hle. by destruct bb.
Qed.

Lemma execute_one_other bb ba st t tid :
  t ≠ tid → orders (execute_one bb ba st t) !! tid = orders st !! tid.
Proof.
  intros Hne.
  destruct (execute_one_orders bb ba st t) as [->|(o & fp & _ & _ & _ & ->)];
    [done|].
  by rewrite lookup_insert_ne.
Qed.

Lemma execute_fold_closed bb ba l st tid o :
  orders st !! tid = Some o → status o ≠ "open" →
  orders (foldl (execute_one bb ba) st l) !! tid = Some o.
Proof.
  revert st. induction l as [|t l IH]; intros st Ho Hs; simpl; [done|].
  apply IH; [|done].
  destruct (decide (t = tid)) as [->|Hne].
  - rewrite execute_one_settled; [done|]. unfold settled. rewrite Ho. by left.
  - by rewrite execute_one_other.
Qed.

(** The state after the iteration that fills order [o] stored under
    [tid] at price [fp]. *)
Lemma execute_one_fill bb ba st tid o fp :
  orders st !! tid = Some o → status o = "open" →
  fill_price_of o bb ba = Some fp →
  execute_one bb ba st tid =
  mkAppState (users st)
    (_apply_fill (balances st) (username o) (side o) (symbol o) fp
                 (quantity o) (reserved_amount o))
    (<[tid := set_filled_price (set_status o "filled") (Some fp)]> (orders st))
    (unindex (symbol o) tid (open_orders_by_symbol st))
    (best_touch st) (last_trade st).
Proof.
  intros Ho Hs Hf. unfold execute_one. rewrite Ho, Hs, Hf. done.
Qed.

(** C2. An open buy order [o] stored under [tid] on symbol [sym], whose
    base and quote assets differ, crosses a best ask [a ≤ price o].  The
    loop iteration that reaches it marks it filled at [a], takes
    [a · quantity] off the quote total, adds [quantity] to the base total
    and available, returns the excess reservation (when positive) to the
    quote available, touches no other balance and removes [tid] from the
    open index of [sym].  If [tid] is in the open index of [sym], a run
    of [execute_on_best_touch] on [sym] ends with the order filled at [a]
    and out of that index. *)
Theorem buy_fill_on_best_ask (sym tid : string) (bb : option Q) (a : Q)
    (o : Order) (st : AppState) :
  orders st !! tid = Some o →
  status o = "open" → side o = "buy" → symbol o = sym →
  (split_symbol sym).1 ≠ (split_symbol sym).2 →
  a <= price o →
  let base := (split_symbol sym).1 in
  let quote := (split_symbol sym).2 in
  let u := username o in
  let cost := a * quantity o in
  let filled := set_filled_price (set_status o "filled") (Some a) in
  (let st1 := execute_one bb (Some a) st tid in
   orders st1 !! tid = Some filled
   ∧ status filled = "filled" ∧ filled_price filled = Some a
   ∧ total (balance_of (balances st1) u quote)
     = total (balance_of (balances st) u quote) - cost
   ∧ available (balance_of (balances st1) u quote)
     = (if Qltb cost (reserved_amount o)
        then available (balance_of (balances st) u quote)
             + (reserved_amount o - cost)
        else available (balance_of (balances st) u quote))
   ∧ total (balance_of (balances st1) u base)
     = total (balance_of (balances st) u base) + quantity o
   ∧ available (balance_of (balances st1) u base)
     = available (balance_of (balances st) u base) + quantity o
   ∧ (∀ u' a', (u', a') ≠ (u, quote) → (u', a') ≠ (u, base) →
        balance_of (balances st1) u' a' = balance_of (balances st) u' a')
   ∧ (tid ∉ default [] (open_orders_by_symbol st1 !! sym)))
  ∧ (tid ∈ default [] (open_orders_by_symbol st !! sym) →
     let st2 := execute_on_best_touch sym bb (Some a) st in
     orders st2 !! tid = Some filled
     ∧ (tid ∉ default [] (open_orders_by_symbol st2 !! sym))).
Proof.
  intros Ho Hopen Hside Hsym Hbq Hle base quote u cost filled.
  pose proof (fill_price_of_buy o bb a Hside Hle) as Hf.
  assert (Hstep : ∀ st0, orders st0 !! tid = Some o →
    orders (execute_one bb (Some a) st0 tid) !! tid = Some filled
    ∧ (tid ∉ default []
         (open_orders_by_symbol (execute_one bb (Some a) st0 tid) !! sym))).
  { intros st0 Ho0. rewrite (execute_one_fill _ _ _ _ _ _ Ho0 Hopen Hf).
    cbn [orders open_orders_by_symbol]. rewrite lookup_insert_eq.
    split; [done|]. rewrite unindex_lookup, Hsym, decide_True by done.
    apply remove_token_not_in. }
  split.
  - destruct (Hstep st Ho) as [H1 H2].
    split; [exact H1|]. split; [done|]. split; [done|].
    pose proof (execute_one_fill _ _ _ _ _ _ Ho Hopen Hf) as Hst1.
    rewrite Hst1. cbn [balances]. rewrite Hside, Hsym.
    assert (Hbal : ∀ u' a',
      balance_of (_apply_fill (balances st) u "buy" sym a
                    (quantity o) (reserved_amount o)) u' a' = _)
      by (intros; apply apply_fill_balance).
    cbv zeta in Hbal. cbn [String.eqb Ascii.eqb Bool.eqb] in Hbal.
    fold base quote cost in Hbal.
    assert (Hqb : (u, quote) ≠ (u, base))
      by (intros [= E]; apply Hbq; symmetry; exact E).
    assert (Hbq' : (u, base) ≠ (u, quote))
      by (intros [= E]; apply Hbq; exact E).
    split_and!.
    + rewrite Hbal. destruct (Qltb cost (reserved_amount o)); by_keys.
    + rewrite Hbal. destruct (Qltb cost (reserved_amount o)); by_keys.
    + rewrite Hbal. destruct (Qltb cost (reserved_amount o)); by_keys.
    + rewrite Hbal. destruct (Qltb cost (reserved_amount o)); by_keys.
    + intros u' a' Hnq Hnb. rewrite Hbal.
      destruct (Qltb cost (reserved_amount o)); by_keys.
    + rewrite Hst1, Hsym in H2. exact H2.
  - intros Hin st2. unfold st2, execute_on_best_touch.
    assert (Hrun : ∀ l st0, orders st0 !! tid = Some o → tid ∈ l →
      orders (foldl (execute_one bb (Some a)) st0 l) !! tid = Some filled
      ∧ (tid ∉ default []
           (open_orders_by_symbol
              (foldl (execute_one bb (Some a)) st0 l) !! sym))).
    { induction l as [|t l IH]; intros st0 Ho0 Hl.
      - by apply elem_of_nil in Hl.
      - simpl. destruct (decide (t = tid)) as [->|Hne].
        + destruct (Hstep st0 Ho0) as [H1 H2]. split.
          * apply execute_fold_closed; [done|]. done.
          * intros Hbad. apply H2. by apply execute_fold_index in Hbad.
        + apply IH.
          * by rewrite execute_one_other.
          * apply elem_of_cons in Hl as [->|Hl]; done. }
    destruct bb; by apply Hrun.
Qed.

Lemma buy_fill_on_best_ask_witness :
  let o := mkOrder "ord-1" "alice" "BTCUSDT" "buy" 50000 (1 # 100)
                   "open" None None 500 0 in
  let st :=
    mkAppState ∅ {[ "alice" := {[ "USDT" := mkBalance 10000 9500 ]} ]}
               {[ "ord-1" := o ]} {[ "BTCUSDT" := ["ord-1"] ]} ∅ ∅ in
  let st2 := execute_on_best_touch "BTCUSDT" None (Some 49000) st in
  orders st2 !! "ord-1"
  = Some (set_filled_price (set_status o "filled") (Some 49000))
  ∧ ("ord-1" ∉ default [] (open_orders_by_symbol st2 !! "BTCUSDT")).
Proof.
  intros o st st2.
  assert (Hin : "ord-1" ∈ default [] (open_orders_by_symbol st !! "BTCUSDT")).
  { vm_compute. apply list_elem_of_here. }
  assert (Hle : 49000 <= price o) by discriminate.
  assert (Hbq : (split_symbol "BTCUSDT").1 ≠ (split_symbol "BTCUSDT").2)
    by discriminate.
  exact (proj2 (buy_fill_on_best_ask "BTCUSDT" "ord-1" None 49000 o st
                  eq_refl eq_refl eq_refl eq_refl Hbq Hle) Hin).
Defined.

(** ** The reservation ledger, in exact arithmetic

    The lemmas of this part are about the paper engine computed without
    rounding: they use that a reserve subtracted and added back cancels.
    They describe the accounting the code aims at, not what binary64
    gives at every input. *)

Lemma reserved_sum_insert_fresh u a k o (os : gmap string Order) :
  os !! k = None →
  reserved_sum u a (<[k := o]> os) == reserves u a o + reserved_sum u a os.
Proof.
  intros Hk. unfold reserved_sum.
  apply (map_fold_insert Qeq (fun _ o acc => reserves u a o + acc)); [| |done].
  - intros j z x y Hxy. by rewrite Hxy.
  - intros j1 j2 z1 z2 y _ _ _. ring.
Qed.

Lemma reserved_sum_insert u a k o o' (os : gmap string Order) :
  os !! k = Some o →
  reserved_sum u a (<[k := o']> os)
  == reserved_sum u a os - reserves u a o + reserves u a o'.
Proof.
  intros Hk.
  assert (H1 : reserved_sum u a os
               == reserves u a o + reserved_sum u a (delete k os)).
  { rewrite <- (insert_delete_id os k o Hk) at 1.
    apply reserved_sum_insert_fresh. apply lookup_delete_eq. }
  assert (H2 : reserved_sum u a (<[k := o']> os)
               == reserves u a o' + reserved_sum u a (delete k os)).
  { rewrite <- insert_delete_eq.
    apply reserved_sum_insert_fresh. apply lookup_delete_eq. }
  rewrite H1, H2. ring.
Qed.

Lemma order_ok_reserved_nonneg o :
  order_ok o → status o = "open" → 0 <= reserved_amount o.
Proof.
  intros Hok Hs. destruct (Hok Hs) as (Hp & Hq & Hr). rewrite Hr.
  destruct (String.eqb (side o) "buy"); [|done].
  by apply Qmult_le_0_compat.
Qed.

Lemma reserves_nonneg u a o : order_ok o → 0 <= reserves u a o.
Proof.
  intros Hok. unfold reserves.
  destruct (decide _) as [[Hs _]|_]; [|apply Qle_refl].
  by apply order_ok_reserved_nonneg.
Qed.

Lemma reserved_sum_nonneg u a (os : gmap string Order) :
  (∀ k o, os !! k = Some o → order_ok o) → 0 <= reserved_sum u a os.
Proof.
  induction os as [|k o os Hk IH] using map_ind; intros Hok.
  - unfold reserved_sum. rewrite map_fold_empty. apply Qle_refl.
  - rewrite reserved_sum_insert_fresh by done.
    assert (0 <= reserves u a o).
    { apply reserves_nonneg, (Hok k). by rewrite lookup_insert_eq. }
    assert (0 <= reserved_sum u a os).
    { apply IH. intros k' o' Hl. apply (Hok k').
      rewrite lookup_insert_ne; [done|]. intros ->. congruence. }
    lra.
Qed.

Lemma ledger_balance_inv st : ledger_ok st → balance_inv st.
Proof.
  intros [Hord Hbal] u a. destruct (Hbal u a) as [Hav Hsum].
  split; [done|].
  pose proof (reserved_sum_nonneg u a (orders st) Hord). lra.
Qed.

Lemma ledger_ok_empty : ledger_ok STATE0.
Proof.
  split.
  - intros tid o H. cbn [STATE0 orders] in H. by rewrite lookup_empty in H.
  - intros u a. cbn [STATE0 orders balances].
    unfold balance_of, reserved_sum. rewrite lookup_empty, map_fold_empty.
    simpl. rewrite lookup_empty. simpl. split; [apply Qle_refl|reflexivity].
Qed.

Lemma ledger_deposit u asset amount st :
  0 <= amount → ledger_ok st → ledger_ok (deposit u asset amount st).
Proof.
  intros Ham [Hord Hbal]. split; [exact Hord|].
  intros u' a'. unfold deposit. cbn [balances orders set_balances].
  rewrite !balance_of_update_at.
  destruct (Hbal u' a') as [Hav Hsum].
  destruct (decide _); [|done].
  unfold add_available, add_total. cbn [total available]. split; lra.
Qed.

Lemma reserve_for_order_cases bals u sd sym p qty :
  let res := _reserve_for_order bals u sd sym p qty in
  let asset := reserve_asset sd sym in
  let amount := if String.eqb sd "buy" then p * qty else qty in
  (res.2.1.1 = false
   ∧ ∀ u' a', balance_of res.1 u' a' = balance_of bals u' a')
  ∨ (res.2.1 = (true, amount)
     ∧ amount <= available (balance_of bals u asset)
     ∧ ∀ u' a', balance_of res.1 u' a' =
         if decide ((u', a') = (u, asset))
         then sub_available amount (balance_of bals u' a')
         else balance_of bals u' a').
Proof.
  unfold _reserve_for_order, reserve_asset.
  destruct (split_symbol sym) as [base quote]. cbn [fst snd].
  assert (Hpair : ∀ a, _get_balance bals u a
                       = ((_get_balance bals u a).1, balance_of bals u a))
    by done.
  destruct (String.eqb sd "buy").
  - rewrite (Hpair quote).
    destruct (Qltb (available (balance_of bals u quote)) (p * qty)) eqn:E.
    + left. split; [done|]. intros. apply balance_of_get_balance.
    + right. apply Qltb_ge in E. split; [done|]. split; [exact E|].
      intros u' a'. cbn [fst].
      rewrite balance_of_update_at, balance_of_get_balance. done.
  - rewrite (Hpair base).
    destruct (Qltb (available (balance_of bals u base)) qty) eqn:E.
    + left. split; [done|]. intros. apply balance_of_get_balance.
    + right. apply Qltb_ge in E. split; [done|]. split; [exact E|].
      intros u' a'. cbn [fst].
      rewrite balance_of_update_at, balance_of_get_balance. done.
Qed.

Lemma ledger_place_order now u tid sym sd p qty st :
  0 <= p → 0 <= qty → ledger_ok st →
  ledger_ok (place_order now u tid sym sd p qty st).1.
Proof.
  intros Hp Hq [Hord Hbal]. unfold place_order.
  destruct (orders st !! tid) as [o|] eqn:Ho; [done|].
  pose proof (reserve_for_order_cases (balances st) u sd sym p qty) as Hres.
  cbv zeta in Hres.
  destruct (_reserve_for_order (balances st) u sd sym p qty)
    as [bals [[ok r] why]].
  cbn [fst snd] in Hres.
  destruct Hres as [[-> Hsame]|([= -> ->] & Hle & Hupd)]; cbn [negb fst].
  - split; [exact Hord|]. intros u' a'.
    cbn [balances orders set_balances]. rewrite Hsame. apply Hbal.
  - set (amount := if String.eqb sd "buy" then p * qty else qty) in *.
    set (order := mkOrder tid u sym sd p qty "open" None None amount now).
    assert (Hamount : 0 <= amount).
    { unfold amount. destruct (String.eqb sd "buy"); [|done].
      by apply Qmult_le_0_compat. }
    split.
    + intros tid' o' Hl. cbn [orders set_open_orders set_orders] in Hl.
      apply lookup_insert_Some in Hl as [[_ <-]|[_ Hl]]; [|by eapply Hord].
      intros _. cbn [price quantity reserved_amount side order].
      split; [done|]. split; [done|]. reflexivity.
    + intros u' a'.
      cbn [orders balances set_open_orders set_orders set_balances].
      rewrite reserved_sum_insert_fresh by done.
      rewrite Hupd. destruct (Hbal u' a') as [Hav Hsum].
      unfold reserves. cbn [status username side symbol reserved_amount order].
      destruct (decide ((u', a') = (u, reserve_asset sd sym))) as [E|E].
      * rewrite decide_True by done.
        injection E as -> ->.
        unfold sub_available. cbn [total available]. split; lra.
      * rewrite decide_False by (intros [_ ?]; done).
        split; [done|]. lra.
Qed.

Lemma cancel_order_cases u tid st :
  (cancel_order u tid st).1 = st
  ∨ ∃ o, orders st !! tid = Some o ∧ username o = u ∧ status o = "open"
      ∧ (cancel_order u tid st).1 =
        mkAppState (users st)
          (_release_reserve (balances st) u (side o) (symbol o)
                            (reserved_amount o))
          (<[tid := set_status o "cancelled"]> (orders st))
          (unindex (symbol o) tid (open_orders_by_symbol st))
          (best_touch st) (last_trade st).
Proof.
  unfold cancel_order.
  destruct (orders st !! tid) as [o|] eqn:Ho; [|by left].
  destruct (String.eqb (username o) u) eqn:Hu; [|by left].
  destruct (String.eqb (status o) "open") eqn:Hs; [|by left].
  right. exists o. apply eqb_true in Hu, Hs. done.
Qed.

Lemma ledger_cancel_order u tid st :
  ledger_ok st → ledger_ok (cancel_order u tid st).1.
Proof.
  intros [Hord Hbal].
  destruct (cancel_order_cases u tid st) as [->|(o & Ho & Hu & Hs & ->)];
    [done|].
  pose proof (order_ok_reserved_nonneg o (Hord tid o Ho) Hs) as Hr.
  split.
  - intros tid' o' Hl. cbn [orders] in Hl.
    apply lookup_insert_Some in Hl as [[_ <-]|[_ Hl]]; [|by eapply Hord].
    intros Hbad. done.
  - intros u' a'. cbn [orders balances].
    rewrite (reserved_sum_insert u' a' tid o) by done.
    rewrite release_reserve_balance.
    destruct (Hbal u' a') as [Hav Hsum].
    unfold reserves at 2. cbn [status set_status].
    rewrite (decide_False (P := "cancelled" = "open" ∧ _))
      by (intros [? _]; done).
    unfold reserves. rewrite Hu.
    destruct (decide ((u', a') = (u, reserve_asset (side o) (symbol o))))
      as [E|E].
    + rewrite decide_True by done.
      unfold add_available. cbn [total available]. split; lra.
    + rewrite decide_False by (intros [_ ?]; done).
      split; [done|]. lra.
Qed.

Lemma fill_price_of_Some o bb ba fp :
  fill_price_of o bb ba = Some fp →
  (side o = "buy" ∧ fp <= price o) ∨ (side o = "sell" ∧ price o <= fp).
Proof.
  unfold fill_price_of. intros H.
  assert (Hbuy : match ba with
                 | Some a => if String.eqb (side o) "buy" && Qleb a (price o)
                             then Some a else None
                 | None => None
                 end = Some fp →
                 side o = "buy" ∧ fp <= price o).
  { destruct ba as [a|]; [|done].
    destruct (String.eqb (side o) "buy") eqn:Hs; [|done].
    destruct (Qleb a (price o)) eqn:Hle; [|done].
    simpl. intros [= <-]. apply eqb_true in Hs. by apply Qleb_le in Hle. }
  destruct bb as [b|]; [|left; auto].
  destruct (String.eqb (side o) "sell") eqn:Hs; [|left; auto].
  destruct (Qleb (price o) b) eqn:Hle; [|left; auto].
  simpl in H. injection H as <-. right.
  apply eqb_true in Hs. by apply Qleb_le in Hle.
Qed.

Lemma execute_one_cases bb ba st tid :
  execute_one bb ba st tid = st
  ∨ ∃ o fp, orders st !! tid = Some o ∧ status o = "open"
      ∧ fill_price_of o bb ba = Some fp
      ∧ execute_one bb ba st tid =
        mkAppState (users st)
          (_apply_fill (balances st) (username o) (side o) (symbol o) fp
                       (quantity o) (reserved_amount o))
          (<[tid := set_filled_price (set_status o "filled") (Some fp)]>
             (orders st))
          (unindex (symbol o) tid (open_orders_by_symbol st))
          (best_touch st) (last_trade st).
Proof.
  destruct (orders st !! tid) as [o|] eqn:Ho.
  2:{ left. apply execute_one_settled. unfold settled. by rewrite Ho. }
  destruct (decide (status o = "open")) as [Hs|Hs].
  2:{ left. apply execute_one_settled. unfold settled. rewrite Ho. by left. }
  destruct (fill_price_of o bb ba) as [fp|] eqn:Hf.
  2:{ left. apply execute_one_settled. unfold settled. rewrite Ho. by right. }
  right. exists o, fp. split_and!; try done. by apply execute_one_fill.
Qed.

Lemma ledger_fill st tid o fp ix :
  ledger_ok st →
  orders st !! tid = Some o → status o = "open" →
  (side o = "buy" ∧ fp <= price o) ∨ (side o = "sell" ∧ price o <= fp) →
  ledger_ok
    (mkAppState (users st)
       (_apply_fill (balances st) (username o) (side o) (symbol o) fp
                    (quantity o) (reserved_amount o))
       (<[tid := set_filled_price (set_status o "filled") (Some fp)]>
          (orders st))
       ix (best_touch st) (last_trade st)).
Proof.
  intros [Hord Hbal] Ho Hs Hcross.
  destruct (Hord tid o Ho Hs) as (Hp & Hq & Hr).
  split.
  - intros tid' o' Hl. cbn [orders] in Hl.
    apply lookup_insert_Some in Hl as [[_ <-]|[_ Hl]]; [|by eapply Hord].
    intros Hbad. done.
  - intros u' a'. cbn [orders balances].
    rewrite (reserved_sum_insert u' a' tid o) by done.
    rewrite apply_fill_balance. cbv zeta.
    destruct (Hbal u' a') as [Hav Hsum].
    unfold reserves at 2. cbn [status set_status set_filled_price].
    rewrite (decide_False (P := "filled" = "open" ∧ _))
      by (intros [? _]; done).
    unfold reserves, reserve_asset.
    set (x := balance_of (balances st) u' a') in *.
    set (base := (split_symbol (symbol o)).1).
    set (quote := (split_symbol (symbol o)).2).
    destruct Hcross as [[Hside Hle]|[Hside Hle]]; rewrite Hside in *.
    + change (String.eqb "buy" "buy") with true in *. cbv iota in Hr |- *.
      assert (Hcost : fp * quantity o <= price o * quantity o)
        by (by apply Qmult_le_compat_r).
      destruct (Qltb (fp * quantity o) (reserved_amount o)) eqn:Hlt;
        [apply Qltb_lt in Hlt|apply Qltb_ge in Hlt].
      all: destruct (decide ((u', a') = (username o, quote))) as [Eq|Eq].
      all: destruct (decide ((u', a') = (username o, base))) as [Eb|Eb].
      all: try rewrite (decide_True (P := status o = "open" ∧ _)) by done.
      all: try rewrite (decide_False (P := status o = "open" ∧ _))
             by (intros [_ ?]; done).
      all: unfold add_available, add_total, sub_total; cbn [total available].
      all: split; lra.
    + change (String.eqb "sell" "buy") with false in *. cbv iota in Hr |- *.
      assert (Hgain : 0 <= fp * quantity o).
      { apply Qmult_le_0_compat; [|done]. lra. }
      destruct (decide ((u', a') = (username o, quote))) as [Eq|Eq].
      all: destruct (decide ((u', a') = (username o, base))) as [Eb|Eb].
      all: try rewrite (decide_True (P := status o = "open" ∧ _)) by done.
      all: try rewrite (decide_False (P := status o = "open" ∧ _))
             by (intros [_ ?]; done).
      all: unfold add_available, add_total, sub_total; cbn [total available].
      all: split; lra.
Qed.

Lemma ledger_execute_one bb ba st tid :
  ledger_ok st → ledger_ok (execute_one bb ba st tid).
Proof.
  intros Hl.
  destruct (execute_one_cases bb ba st tid)
    as [->|(o & fp & Ho & Hs & Hf & ->)]; [done|].
  apply ledger_fill; try done. by eapply fill_price_of_Some.
Qed.

Lemma ledger_execute_on_best_touch sym bb ba st :
  ledger_ok st → ledger_ok (execute_on_best_touch sym bb ba st).
Proof.
  assert (H : ∀ l st0, ledger_ok st0 →
                       ledger_ok (foldl (execute_one bb ba) st0 l)).
  { induction l as [|t l IH]; intros st0 H0; simpl; [done|].
    by apply IH, ledger_execute_one. }
  intros Hl. unfold execute_on_best_touch.
  destruct bb, ba; try (by apply H). done.
Qed.

(** In exact arithmetic the balance invariant is not inductive on its
    own: [cancel_order] adds the reserved amount of the order to the
    available balance without looking at the total.  With no balance at
    all and an open buy order that reserves 500, the invariant holds, and
    the cancellation makes 500 USDT available out of a total of 0. *)
Lemma balance_inv_alone_not_preserved :
  ¬ (∀ (st : AppState) (u tid : string),
       balance_inv st → balance_inv (cancel_order u tid st).1).
Proof.
  intros H.
  set (st := mkAppState ∅ ∅
    {[ "ord-1" := mkOrder "ord-1" "alice" "BTCUSDT" "buy" 50000 (1 # 100)
                          "open" None None 500 0 ]}
    {[ "BTCUSDT" := ["ord-1"] ]} ∅ ∅).
  assert (Hinv : balance_inv st).
  { intros u a. unfold balance_of. cbn [st balances].
    rewrite lookup_empty. cbn [default]. rewrite lookup_empty. cbn.
    split; apply Qle_refl. }
  destruct (H st "alice" "ord-1" Hinv "alice" "USDT") as [_ Hle].
  vm_compute in Hle. by apply Hle.
Qed.

(** The accounting of the paper engine in exact arithmetic.  In a state
    where the reservation ledger holds (which implies the balance
    invariant 0 ≤ available ≤ total for every user and asset, and holds
    in the initial state), the ledger and with it the balance invariant
    hold again after [deposit] of a positive amount, after [place_order]
    with positive price and quantity, after [cancel_order] and after
    [execute_on_best_touch].  This is what the code keeps when no
    operation rounds; on binary64 a rounded sum can break it. *)
Theorem ledger_invariant (st : AppState) :
  ledger_ok st →
  balance_inv st
  ∧ (∀ u asset amount, 0 < amount →
       ledger_ok (deposit u asset amount st)
       ∧ balance_inv (deposit u asset amount st))
  ∧ (∀ now u tid sym sd p qty, 0 < p → 0 < qty →
       ledger_ok (place_order now u tid sym sd p qty st).1
       ∧ balance_inv (place_order now u tid sym sd p qty st).1)
  ∧ (∀ u tid,
       ledger_ok (cancel_order u tid st).1
       ∧ balance_inv (cancel_order u tid st).1)
  ∧ (∀ sym bb ba,
       ledger_ok (execute_on_best_touch sym bb ba st)
       ∧ balance_inv (execute_on_best_touch sym bb ba st)).
Proof.
  intros Hl.
  assert (Hboth : ∀ st', ledger_ok st' → ledger_ok st' ∧ balance_inv st')
    by (intros st' H'; split; [done|by apply ledger_balance_inv]).
  split; [by apply ledger_balance_inv|]. split_and!.
  - intros u asset amount Ham. apply Hboth, ledger_deposit; [lra|done].
  - intros now u tid sym sd p qty Hp Hq.
    apply Hboth, ledger_place_order; [lra|lra|done].
  - intros u tid. by apply Hboth, ledger_cancel_order.
  - intros sym bb ba. by apply Hboth, ledger_execute_on_best_touch.
Qed.

Lemma ledger_invariant_witness :
  let st :=
    (place_order 0 "alice" "ord-1" "BTCUSDT" "buy" 50000 (1 # 100)
       (deposit "alice" "USDT" 10000 STATE0)).1 in
  balance_inv st
  ∧ balance_inv (cancel_order "alice" "ord-1" st).1
  ∧ balance_inv (execute_on_best_touch "BTCUSDT" None (Some 49000) st).
Proof.
  intros st.
  assert (Hst : ledger_ok st).
  { apply ledger_place_order; [discriminate|discriminate|].
    apply ledger_deposit; [discriminate|]. apply ledger_ok_empty. }
  destruct (ledger_invariant st Hst) as (H0 & _ & _ & Hc & He).
  split; [exact H0|]. split.
  - apply Hc.
  - apply He.
Defined.

(** In exact arithmetic, 0 ≤ available ≤ total at all times of such a
    process. *)
Corollary reachable_balance_inv (st : AppState) :
  reachable st → balance_inv st.
Proof.
  intros H. apply ledger_balance_inv.
  induction H as [|st u asset amount _ IH Ham
                  |st now u tid sym sd p qty _ IH Hp Hq
                  |st u tid _ IH|st sym bb ba _ IH].
  - apply ledger_ok_empty.
  - apply ledger_deposit; [lra|done].
  - apply ledger_place_order; [lra|lra|done].
  - by apply ledger_cancel_order.
  - by apply ledger_execute_on_best_touch.
Qed.

(** The round trip uses that users are keyed by their name: the
    username is not written to the document, so a dictionary holding a
    user under another key, which no code path builds, would come back
    with the user named after the key. *)
Lemma roundtrip_renames_unkeyed_user :
  ¬ (∀ st : AppState,
       ∃ st', load_state (Some (save_state st)) STATE0 = Some st'
              ∧ users st' = users st
              ∧ balances st' = balances st
              ∧ orders st' = orders st
              ∧ open_orders_by_symbol st' = open_orders_by_symbol st).
Proof.
  intros H.
  set (st := mkAppState {[ "a" := mkUser "b" "h" ]} ∅ ∅ ∅ ∅ ∅).
  destruct (H st) as (st' & Hload & Husers & _).
  destruct (dict_of_json_of_dict_keyed json_of_user user_of_json
              (fun k u => mkUser k (password_hash u)) (users st))
    as (us & Hus & Hlook).
  { intros k u _. apply user_of_json_of_user. }
  assert (Hcomp : load_state (Some (save_state st)) STATE0
                  = Some (mkAppState us ∅ ∅ ∅ ∅ ∅)).
  { transitivity
      (us ← dict_of_json user_of_json (json_of_dict json_of_user (users st));
       Some (mkAppState us ∅ ∅ ∅ ∅ ∅)).
    - reflexivity.
    - rewrite Hus. done. }
  rewrite Hcomp in Hload. injection Hload as <-.
  cbn [users] in Husers.
  specialize (Hlook "a"). rewrite Husers in Hlook.
  cbn [st users] in Hlook. rewrite lookup_singleton_eq in Hlook.
  discriminate Hlook.
Qed.

(** ** The balance invariant on binary64 *)

Lemma binary64_single_balance_inv (st : Binary64.AppState)
    (u0 a0 : string) (b : Binary64.Balance) :
  Binary64.balances st = {[ u0 := {[ a0 := b ]} ]} →
  Binary64.balance_ok b = true →
  Binary64.balance_inv st.
Proof.
  intros Hb Hok u a. unfold Binary64.balance_of. rewrite Hb.
  destruct (decide (u = u0)) as [->|Hu].
  - rewrite lookup_singleton_eq. simpl.
    destruct (decide (a = a0)) as [->|Ha].
    + by rewrite lookup_singleton_eq.
    + by rewrite lookup_singleton_ne.
  - rewrite lookup_singleton_ne by done. simpl.
    by rewrite lookup_empty.
Qed.

(** C1 evaluated on the code, whose balances are binary64 floats.  From
    the empty state, alice deposits 0.9 BTC, places a sell order of
    0.3 BTC on BTCUSDT and cancels it; the three requests succeed.  The
    invariant 0 ≤ available ≤ total holds for every user and asset in
    the empty state, after the deposit and after the placement, where
    alice has total 0.9 and available 0.6000000000000001 (0.9 − 0.3,
    rounded).  The cancellation adds the reserved 0.3 back and leaves
    available 0.9000000000000001 above the total 0.9: the invariant held
    before [cancel_order] and does not hold after it. *)
Theorem balance_invariant_lost_to_rounding :
  let deposited := Binary64.deposit "alice" "BTC" 0.9 Binary64.STATE0 in
  let placed :=
    Binary64.place_order 1700000000 "alice" "ord-1" "BTCUSDT" "sell"
                         50000 0.3 deposited in
  let cancelled := Binary64.cancel_order "alice" "ord-1" placed.1 in
  placed.2.1.1 = true
  ∧ cancelled.2 = (true, "")
  ∧ Binary64.balance_inv Binary64.STATE0
  ∧ Binary64.balance_inv deposited
  ∧ Binary64.balance_inv placed.1
  ∧ Binary64.balance_of (Binary64.balances placed.1) "alice" "BTC"
    = Binary64.mkBalance 0.9 0.6000000000000001
  ∧ Binary64.balance_of (Binary64.balances cancelled.1) "alice" "BTC"
    = Binary64.mkBalance 0.9 0.9000000000000001
  ∧ (0.9 <? 0.9000000000000001)%float = true
  ∧ ¬ Binary64.balance_inv cancelled.1.
Proof.
  intros deposited placed cancelled.
  split; [reflexivity|]. split; [reflexivity|]. split.
  { intros u a. unfold Binary64.balance_of.
    cbn [Binary64.STATE0 Binary64.balances].
    rewrite lookup_empty. cbn [default]. by rewrite lookup_empty. }
  split.
  { apply (binary64_single_balance_inv _ "alice" "BTC"
             (Binary64.mkBalance 0.9 0.9)); reflexivity. }
  split.
  { apply (binary64_single_balance_inv _ "alice" "BTC"
             (Binary64.mkBalance 0.9 0.6000000000000001)); reflexivity. }
  split; [reflexivity|]. split; [reflexivity|]. split; [reflexivity|].
  intros H. specialize (H "alice" "BTC").
  vm_compute in H. discriminate H.
Qed.

(** Every configured symbol has distinct base and quote assets. *)
Lemma configured_symbols_distinct (sym : string) :
  sym ∈ symbols → (split_symbol sym).1 ≠ (split_symbol sym).2.
Proof.
  unfold symbols. intros H.
  repeat (apply elem_of_cons in H as [->|H]; [discriminate|]).
  by apply elem_of_nil in H.
Qed.

(** ** Boundary behaviours and scenarios *)

Example split_symbol_examples :
  split_symbol "BTCUSDT" = ("BTC", "USDT")
  ∧ split_symbol "BTCUSD" = ("BTC", "USD")
  ∧ split_symbol "BTCUSDC" = ("BTC", "USDC")
  ∧ split_symbol "FOOBAR" = ("FOO", "BAR").
Proof. repeat split; reflexivity. Qed.

Example interval_label_examples :
  _interval_label 1 = "1s" ∧ _interval_label 10 = "10s"
  ∧ _interval_label 60 = "1m" ∧ _interval_label 300 = "5m".
Proof. repeat split; reflexivity. Qed.

(** S1: a buy at limit 50000 filled at an ask of 49000. *)
Example scenario_buy_crosses_at_improved_price :
  let st0 := deposit "alice" "USDT" 10000 STATE0 in
  let st1 :=
    (place_order 0 "alice" "ord-1" "BTCUSDT" "buy" 50000 (1 # 100) st0).1 in
  let st2 := execute_on_best_touch "BTCUSDT" None (Some 49000) st1 in
  (status <$> orders st2 !! "ord-1") = Some "filled"
  ∧ (filled_price <$> orders st2 !! "ord-1") = Some (Some 49000)
  ∧ available (balance_of (balances st1) "alice" "USDT") == 9500
  ∧ total (balance_of (balances st2) "alice" "USDT") == 9510
  ∧ available (balance_of (balances st2) "alice" "USDT") == 9510
  ∧ total (balance_of (balances st2) "alice" "BTC") == 1 # 100
  ∧ available (balance_of (balances st2) "alice" "BTC") == 1 # 100.
Proof. vm_compute. repeat split. Qed.

(** S2: cancelling a sell gives the reserved base back. *)
Example scenario_cancel_restores_available :
  let st0 := deposit "alice" "BTC" 1 STATE0 in
  let st1 :=
    (place_order 0 "alice" "ord-2" "BTCUSDT" "sell" 70000 (1 # 2) st0).1 in
  let st2 := (cancel_order "alice" "ord-2" st1).1 in
  available (balance_of (balances st1) "alice" "BTC") == 1 # 2
  ∧ available (balance_of (balances st2) "alice" "BTC") == 1
  ∧ (status <$> orders st2 !! "ord-2") = Some "cancelled"
  ∧ open_orders_by_symbol st2 !! "BTCUSDT" = Some [].
Proof. vm_compute. repeat split. Qed.

(** S3: two venues, the best bid from the first, the best ask from the
    second. *)
Example scenario_synthetic_best_touch :
  synthetic_best
    [("A", mkMarketState (Some 100) (Some 101) "A" 1);
     ("B", mkMarketState (Some 99) (Some (201 # 2)) "B" 2)]
  = (Some 100, Some "A", Some (201 # 2), Some "B").
Proof. reflexivity. Qed.

(** A tie goes to the venue met first. *)
Example scenario_tie_first_venue :
  synthetic_best
    [("A", mkMarketState (Some 100) (Some 101) "A" 1);
     ("B", mkMarketState (Some 100) (Some 101) "B" 2)]
  = (Some 100, Some "A", Some 101, Some "A").
Proof. reflexivity. Qed.

(** S5: an idle 10-second candle is republished until its end, then
    rolled. *)
Example scenario_candle_roll_on_idle :
  let ks := (_update_kline "BTCUSDT" "binance" 10 1 0 (∅, [])).1 in
  ks !! ("BTCUSDT", "binance", 10%Z) = Some (mkCandle 0 10 10 10 10 10 1)
  ∧ (kline_tick 9 (ks, [])).1 !! ("BTCUSDT", "binance", 10%Z)
    = Some (mkCandle 0 10 10 10 10 10 1)
  ∧ (kline_tick 10 (ks, [])).1 !! ("BTCUSDT", "binance", 10%Z)
    = Some (mkCandle 10 20 10 10 10 10 0).
Proof. vm_compute. repeat split. Qed.

(** * Further properties of the code *)

(** ** Symbols: [split_symbol] and the OKX instrument ids *)

Lemma substring_all (s : string) (m : nat) :
  (String.length s <= m)%nat → substring 0 m s = s.
Proof.
  revert m. induction s as [|c s IH]; intros [|m] Hm; simpl in *; try done.
  - lia.
  - rewrite IH by lia. done.
Qed.

Lemma append_cons (c : ascii) (a b : string) :
  String c a ++ b = String c (a ++ b).
Proof. reflexivity. Qed.

Lemma append_nil_l (b : string) : "" ++ b = b.
Proof. reflexivity. Qed.

Lemma substring_split (s : string) (n : nat) :
  (n <= String.length s)%nat →
  substring 0 n s ++ substring n (String.length s - n) s = s.
Proof.
  revert n. induction s as [|c s IH]; intros [|n] Hn; simpl in *; try done.
  - rewrite substring_all by done. done.
  - rewrite append_cons. f_equal. apply IH. lia.
Qed.

Lemma length_append (s t : string) :
  String.length (s ++ t) = (String.length s + String.length t)%nat.
Proof.
  induction s as [|c s IH]; [done|].
  rewrite append_cons. simpl. by rewrite IH.
Qed.

Lemma substring_append_l (pre suf : string) :
  substring 0 (String.length pre) (pre ++ suf) = pre.
Proof.
  induction pre as [|c pre IH].
  - rewrite append_nil_l. by destruct suf.
  - rewrite append_cons. simpl. by rewrite IH.
Qed.

Lemma substring_append_r (pre suf : string) :
  substring (String.length pre) (String.length suf) (pre ++ suf) = suf.
Proof.
  induction pre as [|c pre IH].
  - rewrite append_nil_l. by apply substring_all.
  - rewrite append_cons. simpl. done.
Qed.

Lemma endswith_spec (s suf : string) :
  endswith s suf = true ↔ ∃ pre, s = pre ++ suf.
Proof.
  unfold endswith. split.
  - intros H. apply andb_true_iff in H as [Hle Heq].
    apply Nat.leb_le in Hle. apply eqb_true in Heq.
    pose proof (substring_split s (String.length s - String.length suf))
      as Hsp.
    replace (String.length s - (String.length s - String.length suf))%nat
      with (String.length suf) in Hsp by lia.
    rewrite Heq in Hsp.
    exists (substring 0 (String.length s - String.length suf) s).
    symmetry. apply Hsp. lia.
  - intros [pre ->]. rewrite length_append. apply andb_true_iff. split.
    + apply Nat.leb_le. lia.
    + replace (String.length pre + String.length suf - String.length suf)%nat
        with (String.length pre) by lia.
      rewrite substring_append_r. apply String.eqb_refl.
Qed.

Lemma drop_last_append (pre suf : string) :
  drop_last (String.length suf) (pre ++ suf) = pre.
Proof.
  unfold drop_last. rewrite length_append.
  replace (String.length pre + String.length suf - String.length suf)%nat
    with (String.length pre) by lia.
  apply substring_append_l.
Qed.

Lemma append_assoc (a b c : string) : (a ++ b) ++ c = a ++ (b ++ c).
Proof.
  induction a as [|x a IH]; [done|].
  rewrite !append_cons. by rewrite IH.
Qed.

Lemma list_of_append (a b : string) :
  list_ascii_of_string (a ++ b)
  = (list_ascii_of_string a ++ list_ascii_of_string b)%list.
Proof.
  induction a as [|x a IH]; [done|].
  rewrite append_cons. simpl. by rewrite IH.
Qed.

(** No string ends both in "USD" and in "USDC". *)
Lemma usd_usdc_exclusive (s : string) :
  endswith s "USD" = true → endswith s "USDC" = true → False.
Proof.
  intros H1 H2.
  apply endswith_spec in H1 as [p1 E1], H2 as [p2 E2].
  assert (H : last (list_ascii_of_string s) = Some "D"%char).
  { rewrite E1. change "USD" with ("US" ++ "D").
    rewrite <- append_assoc, list_of_append. apply last_snoc. }
  rewrite E2 in H. change "USDC" with ("USD" ++ "C") in H.
  rewrite <- append_assoc, list_of_append in H.
  change (list_ascii_of_string "C") with ["C"%char] in H.
  rewrite last_snoc in H. discriminate H.
Qed.

Lemma drop_take_last (k : nat) (s : string) :
  drop_last k s ++ take_last k s = s.
Proof.
  unfold drop_last, take_last.
  destruct (le_lt_dec k (String.length s)) as [Hle|Hgt].
  - pose proof (substring_split s (String.length s - k)) as Hsp.
    replace (String.length s - (String.length s - k))%nat with k in Hsp
      by lia.
    apply Hsp. lia.
  - replace (String.length s - k)%nat with 0%nat by lia.
    rewrite (substring_all s k) by lia. by destruct s.
Qed.

(** X1. [split_symbol] cuts a symbol in two: the base followed by the
    quote is the symbol again, whatever the symbol (also one shorter
    than three characters, whose base is empty). *)
Theorem split_symbol_concat (sym : string) :
  (split_symbol sym).1 ++ (split_symbol sym).2 = sym.
Proof.
  unfold split_symbol.
  destruct (endswith sym "USDT") eqn:H1.
  { apply endswith_spec in H1 as [pre ->]. cbn [fst snd].
    pose proof (drop_last_append pre "USDT") as Hd.
    change (String.length "USDT") with 4%nat in Hd. by rewrite Hd. }
  destruct (endswith sym "USD") eqn:H2.
  { apply endswith_spec in H2 as [pre ->]. cbn [fst snd].
    pose proof (drop_last_append pre "USD") as Hd.
    change (String.length "USD") with 3%nat in Hd. by rewrite Hd. }
  destruct (endswith sym "USDC") eqn:H3.
  { apply endswith_spec in H3 as [pre ->]. cbn [fst snd].
    pose proof (drop_last_append pre "USDC") as Hd.
    change (String.length "USDC") with 4%nat in Hd. by rewrite Hd. }
  apply drop_take_last.
Qed.

(** X2. The OKX instrument id of a symbol is its base, a dash and its
    quote when the symbol ends in USDT, USDC or USD, and the symbol
    itself otherwise; the two functions test the suffixes in different
    orders and still agree. *)
Theorem okx_symbol_split (sym : string) :
  _okx_symbol sym =
  if endswith sym "USDT" || endswith sym "USDC" || endswith sym "USD"
  then (split_symbol sym).1 ++ "-" ++ (split_symbol sym).2
  else sym.
Proof.
  unfold _okx_symbol, split_symbol.
  destruct (endswith sym "USDT") eqn:H1; [done|].
  destruct (endswith sym "USDC") eqn:H2.
  - destruct (endswith sym "USD") eqn:H3; [|done].
    destruct (usd_usdc_exclusive sym H3 H2).
  - destruct (endswith sym "USD") eqn:H3; done.
Qed.

Lemma remove_dashes_append (a b : string) :
  remove_dashes (a ++ b) = remove_dashes a ++ remove_dashes b.
Proof.
  induction a as [|c a IH]; [done|].
  rewrite append_cons. simpl. destruct (Ascii.eqb c "-"); [done|].
  by rewrite append_cons, IH.
Qed.

Lemma remove_dashes_id (s : string) :
  (∀ i, String.get i s ≠ Some "-"%char) → remove_dashes s = s.
Proof.
  induction s as [|c s IH]; intros H; simpl; [done|].
  destruct (Ascii.eqb c "-") eqn:E.
  - apply Ascii.eqb_eq in E. subst c. by destruct (H 0%nat).
  - rewrite IH; [done|]. intros i. apply (H (S i)).
Qed.

(** X3. Turning a symbol into its OKX instrument id and removing the
    dashes, as the listener does with the ids it receives, gives the
    symbol back when the symbol has no dash of its own. *)
Theorem okx_symbol_roundtrip (sym : string) :
  (∀ i, String.get i sym ≠ Some "-"%char) →
  remove_dashes (_okx_symbol sym) = sym.
Proof.
  intros Hnd.
  assert (H : remove_dashes (_okx_symbol sym) = remove_dashes sym).
  { unfold _okx_symbol.
    destruct (endswith sym "USDT") eqn:H1.
    { apply endswith_spec in H1 as [pre ->].
      pose proof (drop_last_append pre "USDT") as Hd.
      change (String.length "USDT") with 4%nat in Hd.
      by rewrite Hd, !remove_dashes_append. }
    destruct (endswith sym "USDC") eqn:H2.
    { apply endswith_spec in H2 as [pre ->].
      pose proof (drop_last_append pre "USDC") as Hd.
      change (String.length "USDC") with 4%nat in Hd.
      by rewrite Hd, !remove_dashes_append. }
    destruct (endswith sym "USD") eqn:H3; [|done].
    apply endswith_spec in H3 as [pre ->].
    pose proof (drop_last_append pre "USD") as Hd.
    change (String.length "USD") with 3%nat in Hd.
    by rewrite Hd, !remove_dashes_append. }
  rewrite H. by apply remove_dashes_id.
Qed.

Lemma okx_symbol_roundtrip_witness :
  remove_dashes (_okx_symbol "BTCUSDT") = "BTCUSDT".
Proof.
  apply (okx_symbol_roundtrip "BTCUSDT").
  intros i. do 8 (destruct i as [|i]; [discriminate|]). discriminate.
Defined.

(** ** Placing orders *)

Lemma reserve_for_order_ok bals u sd sym p qty :
  (_reserve_for_order bals u sd sym p qty).2.1.1
  = negb (Qltb (available (balance_of bals u (reserve_asset sd sym)))
               (if String.eqb sd "buy" then p * qty else qty)).
Proof.
  unfold _reserve_for_order, reserve_asset.
  destruct (split_symbol sym) as [base quote]. cbn [fst snd].
  assert (Hpair : ∀ a, _get_balance bals u a
                       = ((_get_balance bals u a).1, balance_of bals u a))
    by done.
  destruct (String.eqb sd "buy").
  - rewrite (Hpair quote). by destruct (Qltb _ _).
  - rewrite (Hpair base). by destruct (Qltb _ _).
Qed.

(** X4. [place_order] succeeds exactly when the token id is new and the
    available balance of the reserve asset covers the reserve
    (price · quantity of quote for a buy, quantity of base otherwise).
    A duplicate token id leaves the state untouched.  Any rejection
    leaves the orders, the open index and every balance as they were and
    returns no order.  On success the order is stored open with that
    reserve, appended to the open index of its symbol, and the reserve
    leaves the available balance of the reserve asset; no total and no
    other balance changes. *)
Theorem place_order_correct (now : Q) (u tid sym sd : string) (p qty : Q)
    (st : AppState) :
  let res := place_order now u tid sym sd p qty st in
  let st' := res.1 in
  let ok := res.2.1.1 in
  let asset := reserve_asset sd sym in
  let amount := if String.eqb sd "buy" then p * qty else qty in
  let order := mkOrder tid u sym sd p qty "open" None None amount now in
  (ok = true ↔
     orders st !! tid = None
     ∧ amount <= available (balance_of (balances st) u asset))
  ∧ (is_Some (orders st !! tid) →
       res = (st, (false, None, "token_id already exists")))
  ∧ (ok = false →
       res.2.1.2 = None
       ∧ orders st' = orders st
       ∧ open_orders_by_symbol st' = open_orders_by_symbol st
       ∧ ∀ u' a', balance_of (balances st') u' a'
                  = balance_of (balances st) u' a')
  ∧ (ok = true →
       res.2 = (true, Some order, "")
       ∧ orders st' = <[tid := order]> (orders st)
       ∧ open_orders_by_symbol st'
         = <[sym := (default [] (open_orders_by_symbol st !! sym)
                     ++ [tid])%list]> (open_orders_by_symbol st)
       ∧ ∀ u' a',
           balance_of (balances st') u' a' =
           if decide ((u', a') = (u, asset))
           then mkBalance (total (balance_of (balances st) u' a'))
                          (available (balance_of (balances st) u' a') - amount)
           else balance_of (balances st) u' a').
Proof.
  cbv zeta. unfold place_order.
  destruct (orders st !! tid) as [o|] eqn:Ho.
  { cbn [fst snd]. split_and!; try done.
    split; [done|]. by intros [? _]. }
  pose proof (reserve_for_order_cases (balances st) u sd sym p qty) as Hres.
  pose proof (reserve_for_order_ok (balances st) u sd sym p qty) as Hok.
  cbv zeta in Hres.
  destruct (_reserve_for_order (balances st) u sd sym p qty)
    as [bals [[ok r] why]].
  cbn [fst snd] in Hres, Hok.
  destruct Hres as [[-> Hsame]|([= -> ->] & Hle & Hupd)]; cbn [negb fst snd].
  - split; [|split; [|split]].
    + split; [done|]. intros [_ Hle].
      symmetry in Hok. apply negb_false_iff, Qltb_lt in Hok. lra.
    + by intros [? ?].
    + intros _. cbn [orders open_orders_by_symbol balances set_balances].
      by split_and!.
    + done.
  - split; [|split; [|split]].
    + by split.
    + by intros [? ?].
    + done.
    + intros _.
      cbn [orders open_orders_by_symbol balances set_balances set_orders
           set_open_orders].
      by split_and!.
Qed.

(** ** Fills, seen from the orders *)

Lemma fill_price_of_sell o b ba :
  side o = "sell" → price o <= b → fill_price_of o (Some b) ba = Some b.
Proof.
  intros Hs Hle. unfold fill_price_of. rewrite Hs.
  change (String.eqb "sell" "sell") with true.
  apply Qleb_le in Hle. rewrite Hle. done.
Qed.

(** X5. An open sell order [o] stored under [tid] on symbol [sym], whose
    base and quote assets differ, crosses a best bid [b ≥ price o].  The
    loop iteration that reaches it marks it filled at [b], takes
    [quantity] off the base total, adds [b · quantity] to the quote total
    and available, leaves the base available (already reduced at
    placement) and every other balance alone, and removes [tid] from the
    open index of [sym].  If [tid] is in the open index of [sym], a run
    of [execute_on_best_touch] on [sym] ends with the order filled at [b]
    and out of that index. *)
Theorem sell_fill_on_best_bid (sym tid : string) (b : Q) (ba : option Q)
    (o : Order) (st : AppState) :
  orders st !! tid = Some o →
  status o = "open" → side o = "sell" → symbol o = sym →
  (split_symbol sym).1 ≠ (split_symbol sym).2 →
  price o <= b →
  let base := (split_symbol sym).1 in
  let quote := (split_symbol sym).2 in
  let u := username o in
  let gain := b * quantity o in
  let filled := set_filled_price (set_status o "filled") (Some b) in
  (let st1 := execute_one (Some b) ba st tid in
   orders st1 !! tid = Some filled
   ∧ balance_of (balances st1) u base
     = mkBalance (total (balance_of (balances st) u base) - quantity o)
                 (available (balance_of (balances st) u base))
   ∧ balance_of (balances st1) u quote
     = mkBalance (total (balance_of (balances st) u quote) + gain)
                 (available (balance_of (balances st) u quote) + gain)
   ∧ (∀ u' a', (u', a') ≠ (u, quote) → (u', a') ≠ (u, base) →
        balance_of (balances st1) u' a' = balance_of (balances st) u' a')
   ∧ (tid ∉ default [] (open_orders_by_symbol st1 !! sym)))
  ∧ (tid ∈ default [] (open_orders_by_symbol st !! sym) →
     let st2 := execute_on_best_touch sym (Some b) ba st in
     orders st2 !! tid = Some filled
     ∧ (tid ∉ default [] (open_orders_by_symbol st2 !! sym))).
Proof.
  intros Ho Hopen Hside Hsym Hbq Hle base quote u gain filled.
  pose proof (fill_price_of_sell o b ba Hside Hle) as Hf.
  assert (Hstep : ∀ st0, orders st0 !! tid = Some o →
    orders (execute_one (Some b) ba st0 tid) !! tid = Some filled
    ∧ (tid ∉ default []
         (open_orders_by_symbol (execute_one (Some b) ba st0 tid) !! sym))).
  { intros st0 Ho0. rewrite (execute_one_fill _ _ _ _ _ _ Ho0 Hopen Hf).
    cbn [orders open_orders_by_symbol]. rewrite lookup_insert_eq.
    split; [done|]. rewrite unindex_lookup, Hsym, decide_True by done.
    apply remove_token_not_in. }
  split.
  - destruct (Hstep st Ho) as [H1 H2].
    split; [exact H1|].
    pose proof (execute_one_fill _ _ _ _ _ _ Ho Hopen Hf) as Hst1.
    rewrite Hst1. cbn [balances]. rewrite Hside, Hsym.
    assert (Hbal : ∀ u' a',
      balance_of (_apply_fill (balances st) u "sell" sym b
                    (quantity o) (reserved_amount o)) u' a' = _)
      by (intros; apply apply_fill_balance).
    cbv zeta in Hbal.
    change (String.eqb "sell" "buy") with false in Hbal. cbv iota in Hbal.
    fold base quote gain in Hbal.
    assert (Hqb : (u, quote) ≠ (u, base))
      by (intros [= E]; apply Hbq; symmetry; exact E).
    assert (Hbq' : (u, base) ≠ (u, quote))
      by (intros [= E]; apply Hbq; exact E).
    split_and!.
    + rewrite Hbal. by_keys.
    + rewrite Hbal. by_keys.
    + intros u' a' Hnq Hnb. rewrite Hbal. by_keys.
    + rewrite Hst1, Hsym in H2. exact H2.
  - intros Hin st2. unfold st2, execute_on_best_touch.
    assert (Hrun : ∀ l st0, orders st0 !! tid = Some o → tid ∈ l →
      orders (foldl (execute_one (Some b) ba) st0 l) !! tid = Some filled
      ∧ (tid ∉ default []
           (open_orders_by_symbol
              (foldl (execute_one (Some b) ba) st0 l) !! sym))).
    { induction l as [|t l IH]; intros st0 Ho0 Hl.
      - by apply elem_of_nil in Hl.
      - simpl. destruct (decide (t = tid)) as [->|Hne].
        + destruct (Hstep st0 Ho0) as [H1 H2]. split.
          * apply execute_fold_closed; [done|]. done.
          * intros Hbad. apply H2. by apply execute_fold_index in Hbad.
        + apply IH.
          * by rewrite execute_one_other.
          * apply elem_of_cons in Hl as [->|Hl]; done. }
    by apply Hrun.
Qed.

Lemma sell_fill_on_best_bid_witness :
  let o := mkOrder "ord-2" "alice" "BTCUSDT" "sell" 70000 (1 # 2)
                   "open" None None (1 # 2) 0 in
  let st :=
    mkAppState ∅ {[ "alice" := {[ "BTC" := mkBalance 1 (1 # 2) ]} ]}
               {[ "ord-2" := o ]} {[ "BTCUSDT" := ["ord-2"] ]} ∅ ∅ in
  let st2 := execute_on_best_touch "BTCUSDT" (Some 71000) None st in
  orders st2 !! "ord-2"
  = Some (set_filled_price (set_status o "filled") (Some 71000))
  ∧ ("ord-2" ∉ default [] (open_orders_by_symbol st2 !! "BTCUSDT")).
Proof.
  intros o st st2.
  assert (Hin : "ord-2" ∈ default [] (open_orders_by_symbol st !! "BTCUSDT")).
  { vm_compute. apply list_elem_of_here. }
  assert (Hle : price o <= 71000) by discriminate.
  assert (Hbq : (split_symbol "BTCUSDT").1 ≠ (split_symbol "BTCUSDT").2)
    by discriminate.
  exact (proj2 (sell_fill_on_best_bid "BTCUSDT" "ord-2" 71000 None o st
                  eq_refl eq_refl eq_refl eq_refl Hbq Hle) Hin).
Defined.

(** The price an order fills at is the touch of the other side, and no
    worse than its limit. *)
Lemma fill_price_of_touch o bb ba fp :
  fill_price_of o bb ba = Some fp →
  (side o = "buy" ∧ ba = Some fp ∧ fp <= price o)
  ∨ (side o = "sell" ∧ bb = Some fp ∧ price o <= fp).
Proof.
  unfold fill_price_of. intros H.
  assert (Hbuy : match ba with
                 | Some a => if String.eqb (side o) "buy" && Qleb a (price o)
                             then Some a else None
                 | None => None
                 end = Some fp →
                 side o = "buy" ∧ ba = Some fp ∧ fp <= price o).
  { destruct ba as [a|]; [|done].
    destruct (String.eqb (side o) "buy") eqn:Hs; [|done].
    destruct (Qleb a (price o)) eqn:Hle; [|done].
    simpl. intros [= <-]. apply eqb_true in Hs. by apply Qleb_le in Hle. }
  destruct bb as [b|]; [|left; auto].
  destruct (String.eqb (side o) "sell") eqn:Hs; [|left; auto].
  destruct (Qleb (price o) b) eqn:Hle; [|left; auto].
  simpl in H. injection H as <-. right.
  apply eqb_true in Hs. by apply Qleb_le in Hle.
Qed.

Lemma execute_one_fill_of bb ba st t tid o' :
  orders (execute_one bb ba st t) !! tid = Some o' →
  ∃ o, orders st !! tid = Some o ∧ fill_of bb ba o o'.
Proof.
  intros H.
  destruct (execute_one_orders bb ba st t)
    as [E|(o & fp & Ho & Hopen & Hf & E)]; rewrite E in H.
  - exists o'. split; [done|by left].
  - destruct (decide (tid = t)) as [->|Hne].
    + rewrite lookup_insert_eq in H. injection H as <-.
      exists o. split; [done|]. right. split; [done|].
      exists fp. split; [done|]. by apply fill_price_of_touch.
    + rewrite lookup_insert_ne in H by done.
      exists o'. split; [done|by left].
Qed.

Lemma execute_fold_fill_of bb ba l st tid o' :
  orders (foldl (execute_one bb ba) st l) !! tid = Some o' →
  ∃ o, orders st !! tid = Some o ∧ fill_of bb ba o o'.
Proof.
  revert st. induction l as [|t l IH]; intros st Hl; simpl in Hl.
  - exists o'. split; [done|by left].
  - destruct (IH _ Hl) as (o1 & Ho1 & Hfill1).
    destruct (execute_one_fill_of _ _ _ _ _ _ Ho1) as (o & Ho & Hfill).
    exists o. split; [done|].
    destruct Hfill as [->|(Hopen & fp & -> & Hpx)]; [done|].
    destruct Hfill1 as [->|(Hbad & _)].
    + right. split; [done|]. by exists fp.
    + done.
Qed.

Lemma execute_on_best_touch_fill_of sym bb ba st tid o' :
  orders (execute_on_best_touch sym bb ba st) !! tid = Some o' →
  ∃ o, orders st !! tid = Some o ∧ fill_of bb ba o o'.
Proof.
  unfold execute_on_best_touch. intros Hl.
  destruct bb as [b|], ba as [a|];
    try (by apply execute_fold_fill_of in Hl).
  exists o'. split; [done|by left].
Qed.

(** X6. A run of [execute_on_best_touch] creates no order and changes an
    order in one way only: an open order becomes filled, with the best
    ask as filled price and at most its limit for a buy, with the best
    bid and at least its limit for a sell; every other field of the
    order, and every order that was not open, is as before. *)
Theorem execute_fills_at_limit_or_better (sym : string) (bb ba : option Q)
    (st : AppState) (tid : string) (o' : Order) :
  orders (execute_on_best_touch sym bb ba st) !! tid = Some o' →
  ∃ o, orders st !! tid = Some o
       ∧ (o' = o
          ∨ (status o = "open"
             ∧ ∃ fp, o' = set_filled_price (set_status o "filled") (Some fp)
                 ∧ ((side o = "buy" ∧ ba = Some fp ∧ fp <= price o)
                    ∨ (side o = "sell" ∧ bb = Some fp ∧ price o <= fp)))).
Proof. apply execute_on_best_touch_fill_of. Qed.

Lemma execute_fills_at_limit_or_better_witness :
  let o := mkOrder "ord-1" "alice" "BTCUSDT" "buy" 50000 (1 # 100)
                   "open" None None 500 0 in
  let st :=
    mkAppState ∅ {[ "alice" := {[ "USDT" := mkBalance 10000 9500 ]} ]}
               {[ "ord-1" := o ]} {[ "BTCUSDT" := ["ord-1"] ]} ∅ ∅ in
  ∃ o0, orders st !! "ord-1" = Some o0
        ∧ fill_of None (Some 49000) o0
            (set_filled_price (set_status o "filled") (Some 49000)).
Proof.
  intros o st.
  apply (execute_fills_at_limit_or_better "BTCUSDT" None (Some 49000) st
           "ord-1" (set_filled_price (set_status o "filled") (Some 49000))).
  vm_compute. reflexivity.
Defined.

(** ** Orders are never lost, closed orders never change *)

Lemma order_kept_refl o : order_kept o (Some o).
Proof. exists o. by repeat split. Qed.

Lemma execute_one_kept bb ba st t tid o :
  orders st !! tid = Some o →
  order_kept o (orders (execute_one bb ba st t) !! tid).
Proof.
  intros Ho.
  destruct (execute_one_orders bb ba st t)
    as [->|(o0 & fp & Ho0 & Hopen & _ & ->)].
  - rewrite Ho. apply order_kept_refl.
  - destruct (decide (tid = t)) as [->|Hne].
    + rewrite lookup_insert_eq. rewrite Ho in Ho0. injection Ho0 as <-.
      eexists. split; [done|]. split; [by repeat split|done].
    + rewrite lookup_insert_ne by done. rewrite Ho. apply order_kept_refl.
Qed.

Lemma order_kept_trans o o1 found :
  order_kept o (Some o1) → order_kept o1 found → order_kept o found.
Proof.
  intros (o1' & [= <-] & Ht1 & Hc1) (o2 & -> & Ht2 & Hc2).
  exists o2. split; [done|].
  destruct Ht1 as (?&?&?&?&?&?&?&?&?), Ht2 as (?&?&?&?&?&?&?&?&?).
  split; [repeat split; congruence|].
  intros Hs. rewrite <- (Hc1 Hs). apply Hc2. rewrite (Hc1 Hs). done.
Qed.

Lemma execute_fold_kept bb ba l st tid o :
  orders st !! tid = Some o →
  order_kept o (orders (foldl (execute_one bb ba) st l) !! tid).
Proof.
  revert st o. induction l as [|t l IH]; intros st o Ho; simpl.
  - rewrite Ho. apply order_kept_refl.
  - pose proof (execute_one_kept bb ba st t tid o Ho) as Hk.
    destruct Hk as (o1 & Ho1 & Hrest).
    eapply order_kept_trans.
    + exists o1. split; [done|exact Hrest].
    + by apply IH.
Qed.

(** X7. No operation of the paper engine removes an order or rewrites its
    terms (token id, owner, symbol, side, price, quantity, reason,
    reserved amount, creation time), and an order that is not open, be it
    filled or cancelled, is never modified again: this holds through
    [deposit], [place_order] (which never overwrites an existing token
    id), [cancel_order] and [execute_on_best_touch]. *)
Theorem orders_kept (st : AppState) (tid : string) (o : Order) :
  orders st !! tid = Some o →
  (∀ u asset amount,
     order_kept o (orders (deposit u asset amount st) !! tid))
  ∧ (∀ now u tid' sym sd p qty,
       order_kept o (orders (place_order now u tid' sym sd p qty st).1 !! tid))
  ∧ (∀ u tid', order_kept o (orders (cancel_order u tid' st).1 !! tid))
  ∧ (∀ sym bb ba,
       order_kept o (orders (execute_on_best_touch sym bb ba st) !! tid)).
Proof.
  intros Ho. split_and!.
  - intros u asset amount. cbn [deposit orders set_balances].
    rewrite Ho. apply order_kept_refl.
  - intros now u tid' sym sd p qty. unfold place_order.
    destruct (orders st !! tid') as [o0|] eqn:Ho0.
    { cbn [fst]. rewrite Ho. apply order_kept_refl. }
    destruct (_reserve_for_order _ _ _ _ _ _) as [bals [[ok r] why]].
    destruct ok; cbn [negb fst orders set_balances set_orders set_open_orders].
    + rewrite lookup_insert_ne by congruence.
      rewrite Ho. apply order_kept_refl.
    + rewrite Ho. apply order_kept_refl.
  - intros u tid'.
    destruct (cancel_order_cases u tid' st) as [->|(o0 & Ho0 & _ & Hs & ->)].
    { rewrite Ho. apply order_kept_refl. }
    cbn [orders]. destruct (decide (tid = tid')) as [->|Hne].
    + rewrite lookup_insert_eq. rewrite Ho in Ho0. injection Ho0 as <-.
      eexists. split; [done|]. split; [by repeat split|done].
    + rewrite lookup_insert_ne by done. rewrite Ho. apply order_kept_refl.
  - intros sym bb ba. unfold execute_on_best_touch.
    destruct bb, ba; try (by apply execute_fold_kept).
    rewrite Ho. apply order_kept_refl.
Qed.

Lemma orders_kept_witness :
  let o := mkOrder "ord-1" "alice" "BTCUSDT" "buy" 50000 (1 # 100)
                   "filled" (Some 49000) None 500 0 in
  let st := mkAppState ∅ ∅ {[ "ord-1" := o ]} ∅ ∅ ∅ in
  order_kept o (orders (cancel_order "alice" "ord-1" st).1 !! "ord-1")
  ∧ order_kept o
      (orders (place_order 1 "bob" "ord-1" "BTCUSDT" "sell" 1 1 st).1
         !! "ord-1").
Proof.
  intros o st.
  destruct (orders_kept st "ord-1" o eq_refl) as (_ & Hp & Hc & _).
  split; [apply Hc|apply Hp].
Defined.

(** ** The open index *)

Lemma elem_of_remove_token t tid (l : list string) :
  t ∈ remove_token tid l ↔ t ∈ l ∧ t ≠ tid.
Proof.
  unfold remove_token. rewrite !list_elem_of_In, filter_In, negb_true_iff.
  rewrite eqb_false. done.
Qed.

Lemma NoDup_remove_token tid (l : list string) :
  NoDup l → NoDup (remove_token tid l).
Proof.
  induction 1 as [|t l Ht _ IH]; [apply NoDup_nil_2|].
  unfold remove_token in *. cbn [List.filter].
  destruct (negb (String.eqb t tid)); [|done].
  apply NoDup_cons. split; [|done].
  intros Hin. apply Ht. fold (remove_token tid l) in Hin.
  by apply elem_of_remove_token in Hin as [? _].
Qed.

(** Closing an open order, as a cancellation or a fill does. *)
Lemma index_ok_close st tid o o' bals :
  index_ok st →
  orders st !! tid = Some o → status o = "open" → status o' ≠ "open" →
  index_ok (mkAppState (users st) bals (<[tid := o']> (orders st))
              (unindex (symbol o) tid (open_orders_by_symbol st))
              (best_touch st) (last_trade st)).
Proof.
  intros [Hmem Hnd] Ho Hopen Hclosed. split.
  - intros sym t. cbn [orders open_orders_by_symbol].
    rewrite unindex_lookup.
    destruct (decide (sym = symbol o)) as [->|Hsym].
    + rewrite elem_of_remove_token, Hmem. split.
      * intros [(o1 & Ho1 & ? & ?) Hne]. exists o1.
        by rewrite lookup_insert_ne.
      * intros (o1 & Ho1 & Hs1 & Hy1).
        destruct (decide (t = tid)) as [->|Hne].
        { rewrite lookup_insert_eq in Ho1. injection Ho1 as <-. done. }
        rewrite lookup_insert_ne in Ho1 by done. split; [|done]. by exists o1.
    + rewrite Hmem. split.
      * intros (o1 & Ho1 & Hs1 & Hy1). exists o1.
        rewrite lookup_insert_ne; [done|].
        intros <-. rewrite Ho in Ho1. injection Ho1 as <-. done.
      * intros (o1 & Ho1 & Hs1 & Hy1).
        destruct (decide (t = tid)) as [->|Hne].
        { rewrite lookup_insert_eq in Ho1. injection Ho1 as <-. done. }
        rewrite lookup_insert_ne in Ho1 by done. by exists o1.
  - intros sym. cbn [open_orders_by_symbol]. rewrite unindex_lookup.
    destruct (decide _); [apply NoDup_remove_token|]; apply Hnd.
Qed.

Lemma index_ok_empty : index_ok STATE0.
Proof.
  split.
  - intros sym tid. cbn [STATE0 orders open_orders_by_symbol].
    rewrite !lookup_empty. cbn [default]. split.
    + intros H. by apply elem_of_nil in H.
    + intros (o & H & _). done.
  - intros sym. cbn [STATE0 open_orders_by_symbol]. rewrite lookup_empty.
    apply NoDup_nil_2.
Qed.

Lemma index_ok_deposit u asset amount st :
  index_ok st → index_ok (deposit u asset amount st).
Proof. intros H. exact H. Qed.

Lemma index_ok_place_order now u tid sym sd p qty st :
  index_ok st → index_ok (place_order now u tid sym sd p qty st).1.
Proof.
  intros [Hmem Hnd]. unfold place_order.
  destruct (orders st !! tid) as [o0|] eqn:Ho0; [done|].
  destruct (_reserve_for_order _ _ _ _ _ _) as [bals [[ok r] why]].
  destruct ok; cbn [negb fst]; [|done]. cbv zeta.
  assert (Hfresh : ∀ sym', tid ∉ default [] (open_orders_by_symbol st !! sym')).
  { intros sym' Hin. apply Hmem in Hin as (o1 & Ho1 & _). congruence. }
  split.
  - intros sym' t.
    cbn [orders open_orders_by_symbol set_orders set_balances set_open_orders].
    destruct (decide (sym' = sym)) as [->|Hsym].
    + rewrite lookup_insert_eq. change (default [] (Some ?x)) with x.
      rewrite elem_of_app, list_elem_of_singleton, Hmem. split.
      * intros [(o1 & Ho1 & ? & ?)| ->].
        { exists o1. rewrite lookup_insert_ne; [done|]. congruence. }
        eexists. rewrite lookup_insert_eq. done.
      * intros (o1 & Ho1 & Hs1 & Hy1).
        destruct (decide (t = tid)) as [->|Hne]; [by right|].
        rewrite lookup_insert_ne in Ho1 by done. left. by exists o1.
    + rewrite lookup_insert_ne by done. rewrite Hmem. split.
      * intros (o1 & Ho1 & ? & ?). exists o1.
        rewrite lookup_insert_ne; [done|]. congruence.
      * intros (o1 & Ho1 & Hs1 & Hy1).
        destruct (decide (t = tid)) as [->|Hne].
        { rewrite lookup_insert_eq in Ho1. injection Ho1 as <-.
          cbn [symbol] in Hy1. done. }
        rewrite lookup_insert_ne in Ho1 by done. by exists o1.
  - intros sym'.
    cbn [open_orders_by_symbol set_orders set_balances set_open_orders].
    destruct (decide (sym' = sym)) as [->|Hsym].
    + rewrite lookup_insert_eq. change (default [] (Some ?x)) with x.
      apply NoDup_app. split; [apply Hnd|]. split.
      * intros t Ht Ht'. apply list_elem_of_singleton in Ht' as ->.
        by apply (Hfresh sym).
      * apply NoDup_singleton.
    + rewrite lookup_insert_ne by done. apply Hnd.
Qed.

Lemma index_ok_cancel_order u tid st :
  index_ok st → index_ok (cancel_order u tid st).1.
Proof.
  intros H.
  destruct (cancel_order_cases u tid st) as [->|(o & Ho & _ & Hs & ->)];
    [done|].
  by apply index_ok_close.
Qed.

Lemma index_ok_execute_one bb ba st tid :
  index_ok st → index_ok (execute_one bb ba st tid).
Proof.
  intros H.
  destruct (execute_one_cases bb ba st tid)
    as [->|(o & fp & Ho & Hs & _ & ->)]; [done|].
  by apply index_ok_close.
Qed.

Lemma index_ok_execute_on_best_touch sym bb ba st :
  index_ok st → index_ok (execute_on_best_touch sym bb ba st).
Proof.
  assert (H : ∀ l st0, index_ok st0 →
                       index_ok (foldl (execute_one bb ba) st0 l)).
  { induction l as [|t l IH]; intros st0 H0; simpl; [done|].
    by apply IH, index_ok_execute_one. }
  intros Hi. unfold execute_on_best_touch.
  destruct bb, ba; try (by apply H). done.
Qed.

(** X8. In every state the paper engine reaches from the empty state by
    deposits, placements, cancellations and matching runs, the open index
    of each symbol lists exactly the open orders of that symbol, each
    once: no filled or cancelled order stays listed, no open order is
    missing, none is listed under another symbol. *)
Theorem reachable_index_ok (st : AppState) :
  reachable st → index_ok st.
Proof.
  induction 1 as [|st u asset amount _ IH Ham
                  |st now u tid sym sd p qty _ IH Hp Hq
                  |st u tid _ IH|st sym bb ba _ IH].
  - apply index_ok_empty.
  - by apply index_ok_deposit.
  - by apply index_ok_place_order.
  - by apply index_ok_cancel_order.
  - by apply index_ok_execute_on_best_touch.
Qed.

Lemma reachable_index_ok_witness :
  index_ok
    (cancel_order "alice" "ord-1"
       (place_order 0 "alice" "ord-1" "BTCUSDT" "buy" 50000 (1 # 100)
          (deposit "alice" "USDT" 10000 STATE0)).1).1.
Proof.
  apply reachable_index_ok.
  apply reach_cancel, reach_place; [|done|done].
  apply reach_deposit; [apply reach_init|done].
Defined.

(** X9. When the open index is exact, a matching run leaves no crossing
    order behind: every order of the symbol that is still open after
    [execute_on_best_touch] is one that the bests do not cross. *)
Theorem execute_leaves_no_crossing_order (sym : string) (bb ba : option Q)
    (st : AppState) (tid : string) (o : Order) :
  index_ok st →
  orders (execute_on_best_touch sym bb ba st) !! tid = Some o →
  status o = "open" → symbol o = sym →
  fill_price_of o bb ba = None.
Proof.
  intros [Hmem _] Hafter Hopen Hsym.
  destruct (execute_on_best_touch_fill_of _ _ _ _ _ _ Hafter)
    as (o0 & Ho0 & [->|(_ & fp & -> & _)]); [|done].
  assert (Hin : tid ∈ default [] (open_orders_by_symbol st !! sym)).
  { apply Hmem. by exists o0. }
  unfold execute_on_best_touch in Hafter.
  assert (Hrun : ∀ l, tid ∈ l →
    orders (foldl (execute_one bb ba) st l) !! tid = Some o0 →
    fill_price_of o0 bb ba = None).
  { intros l Hl Hfin.
    pose proof (execute_fold_settles bb ba l st) as Hall.
    rewrite Forall_forall in Hall. specialize (Hall tid Hl).
    unfold settled in Hall. rewrite Hfin in Hall.
    by destruct Hall. }
  destruct bb as [b|], ba as [a|]; try (by eapply Hrun).
  unfold fill_price_of. done.
Qed.

Lemma execute_leaves_no_crossing_order_witness :
  let o := mkOrder "ord-1" "alice" "BTCUSDT" "buy" 50000 (1 # 100)
                   "open" None None (50000 * (1 # 100)) 0 in
  let st :=
    (place_order 0 "alice" "ord-1" "BTCUSDT" "buy" 50000 (1 # 100)
       (deposit "alice" "USDT" 10000 STATE0)).1 in
  fill_price_of o None (Some 51000) = None.
Proof.
  intros o st.
  apply (execute_leaves_no_crossing_order "BTCUSDT" None (Some 51000) st
           "ord-1" o).
  - apply index_ok_place_order, index_ok_deposit, index_ok_empty.
  - vm_compute. reflexivity.
  - reflexivity.
  - reflexivity.
Defined.

(** ** Placing and cancelling *)

Lemma cancel_order_open u tid st o :
  orders st !! tid = Some o → username o = u → status o = "open" →
  cancel_order u tid st =
  (mkAppState (users st)
     (_release_reserve (balances st) u (side o) (symbol o)
                       (reserved_amount o))
     (<[tid := set_status o "cancelled"]> (orders st))
     (unindex (symbol o) tid (open_orders_by_symbol st))
     (best_touch st) (last_trade st),
   (true, "")).
Proof.
  intros Ho Hu Hs. unfold cancel_order.
  rewrite Ho, Hu, Hs, !String.eqb_refl. done.
Qed.

Lemma remove_token_snoc tid (l : list string) :
  remove_token tid (l ++ [tid]) = remove_token tid l.
Proof.
  unfold remove_token. rewrite List.filter_app. cbn [List.filter].
  rewrite String.eqb_refl. cbn [negb]. apply app_nil_r.
Qed.

Lemma remove_token_absent tid (l : list string) :
  tid ∉ l → remove_token tid l = l.
Proof.
  induction l as [|t l IH]; intros Hn; [done|].
  unfold remove_token in *. cbn [List.filter].
  apply not_elem_of_cons in Hn as [Hne Hn].
  assert (String.eqb t tid = false) as -> by (apply eqb_false; congruence).
  cbn [negb]. by rewrite IH.
Qed.

(** X10. Cancelling an order right after placing it: the cancellation
    succeeds; the total of every balance, and the available balance of
    every other user or asset, are the ones before the placement; the
    available balance of the reserve asset is the one before with the
    reserve subtracted and then added back, as the code computes it
    (a sum that binary64 need not round back to the start); the open
    index of every
    symbol lists what it listed before (the token id was not listed,
    being new); what remains is the order itself, stored as cancelled. *)
Theorem place_then_cancel (now : Q) (u tid sym sd : string) (p qty : Q)
    (st : AppState) :
  (place_order now u tid sym sd p qty st).2.1.1 = true →
  (∀ sym', tid ∉ default [] (open_orders_by_symbol st !! sym')) →
  let st1 := (place_order now u tid sym sd p qty st).1 in
  let res := cancel_order u tid st1 in
  let amount := if String.eqb sd "buy" then p * qty else qty in
  res.2 = (true, "")
  ∧ orders res.1
    = <[tid := mkOrder tid u sym sd p qty "cancelled" None None amount now]>
        (orders st)
  ∧ (∀ u' a',
       total (balance_of (balances res.1) u' a')
       = total (balance_of (balances st) u' a')
       ∧ available (balance_of (balances res.1) u' a')
         = if decide ((u', a') = (u, reserve_asset sd sym))
           then available (balance_of (balances st) u' a') - amount + amount
           else available (balance_of (balances st) u' a'))
  ∧ (∀ sym', default [] (open_orders_by_symbol res.1 !! sym')
             = default [] (open_orders_by_symbol st !! sym')).
Proof.
  intros Hok Hfresh. cbv zeta.
  unfold place_order in *.
  destruct (orders st !! tid) as [o0|] eqn:Ho0; [done|].
  pose proof (reserve_for_order_cases (balances st) u sd sym p qty) as Hres.
  cbv zeta in Hres.
  destruct (_reserve_for_order (balances st) u sd sym p qty)
    as [bals [[ok r] why]].
  cbn [fst snd] in Hres.
  destruct Hres as [[-> _]|([= -> ->] & Hle & Hupd)]; [done|].
  cbn [negb fst]. cbv zeta.
  set (order := mkOrder tid u sym sd p qty "open" None None
                  (if String.eqb sd "buy" then p * qty else qty) now).
  rewrite (cancel_order_open u tid _ order).
  2:{ cbn [orders set_open_orders set_orders]. apply lookup_insert_eq. }
  2:{ done. }
  2:{ done. }
  cbn [fst snd orders balances open_orders_by_symbol users best_touch
       last_trade set_open_orders set_orders set_balances].
  split; [done|]. split.
  { rewrite insert_insert_eq. done. }
  split.
  - intros u' a'. rewrite release_reserve_balance, Hupd.
    cbn [side symbol reserved_amount order].
    destruct (decide _); unfold add_available, sub_available;
      cbn [total available]; split; done.
  - intros sym'. rewrite unindex_lookup. cbn [symbol order].
    destruct (decide (sym' = sym)) as [->|Hne].
    + rewrite lookup_insert_eq. change (default [] (Some ?x)) with x.
      rewrite remove_token_snoc. apply remove_token_absent, Hfresh.
    + rewrite lookup_insert_ne by done. done.
Qed.

Lemma place_then_cancel_witness :
  let st := deposit "alice" "BTC" 1 STATE0 in
  let st1 :=
    (place_order 0 "alice" "ord-2" "BTCUSDT" "sell" 70000 (1 # 2) st).1 in
  (cancel_order "alice" "ord-2" st1).2 = (true, "")
  ∧ total (balance_of (balances (cancel_order "alice" "ord-2" st1).1)
             "alice" "BTC")
    = total (balance_of (balances st) "alice" "BTC")
  ∧ available (balance_of (balances (cancel_order "alice" "ord-2" st1).1)
                 "alice" "USDT")
    = available (balance_of (balances st) "alice" "USDT").
Proof.
  intros st st1.
  destruct (place_then_cancel 0 "alice" "ord-2" "BTCUSDT" "sell" 70000
              (1 # 2) st) as (Hres & _ & Hbal & _).
  - vm_compute. reflexivity.
  - intros sym' Hin. cbn [st deposit open_orders_by_symbol set_balances STATE0]
      in Hin. rewrite lookup_empty in Hin. by apply elem_of_nil in Hin.
  - split; [exact Hres|]. split.
    + apply (Hbal "alice" "BTC").
    + destruct (Hbal "alice" "USDT") as [_ Hav].
      rewrite decide_False in Hav; [exact Hav|]. vm_compute. discriminate.
Defined.

(** ** The per-venue quotes *)

Lemma dict_get_set_eq {V} (k : string) (v : V) d :
  dict_get k (dict_set k v d) = Some v.
Proof.
  induction d as [|[k' v'] d IH]; cbn [dict_set dict_get].
  - by rewrite String.eqb_refl.
  - destruct (String.eqb k k') eqn:E; cbn [dict_get]; rewrite E; done.
Qed.

Lemma dict_get_set_ne {V} (k k0 : string) (v : V) d :
  k0 ≠ k → dict_get k0 (dict_set k v d) = dict_get k0 d.
Proof.
  intros Hne. induction d as [|[k' v'] d IH]; cbn [dict_set dict_get].
  - apply eqb_false in Hne. by rewrite Hne.
  - destruct (String.eqb k k') eqn:E; cbn [dict_get].
    + apply eqb_true in E. subst k'. apply eqb_false in Hne. by rewrite Hne.
    + by rewrite IH.
Qed.

Lemma dict_set_keys {V} (k : string) (v : V) d :
  (dict_set k v d).*1 = if decide (k ∈ d.*1) then d.*1 else (d.*1 ++ [k])%list.
Proof.
  induction d as [|[k' v'] d IH]; cbn [dict_set fmap list_fmap fst].
  - rewrite decide_False; [done|]. apply not_elem_of_nil.
  - destruct (String.eqb k k') eqn:E.
    + apply eqb_true in E. subst k'.
      rewrite decide_True by apply list_elem_of_here. done.
    + apply eqb_false in E. cbn [fmap list_fmap fst].
      fold (@fmap list _ _ _ (@fst string V) d) in *.
      fold (@fmap list _ _ _ (@fst string V) (dict_set k v d)).
      rewrite IH. destruct (decide (k ∈ d.*1)) as [Hin|Hin].
      * rewrite decide_True by (by apply list_elem_of_further). done.
      * rewrite decide_False; [done|].
        intros Hbad. apply elem_of_cons in Hbad as [?|?]; done.
Qed.

Lemma dict_set_in {V} (k : string) (v : V) d : (k, v) ∈ dict_set k v d.
Proof.
  induction d as [|[k' v'] d IH]; cbn [dict_set].
  - apply list_elem_of_here.
  - destruct (String.eqb k k') eqn:E.
    + apply eqb_true in E. subst k'. apply list_elem_of_here.
    + by apply list_elem_of_further.
Qed.

Lemma handle_best_touch_stored ex sym bid ask ts w :
  best_touch (app (handle_best_touch ex sym bid ask ts w))
  = <[sym := dict_set ex (mkMarketState (Some bid) (Some ask) ex ts)
               (default [] (best_touch (app w) !! sym))]>
      (best_touch (app w)).
Proof.
  pose proof (handle_best_touch_unfold ex sym bid ask ts w) as Hw.
  cbv zeta in Hw. rewrite Hw. cbn [app].
  rewrite (proj1 (execute_on_best_touch_market _ _ _ _)). done.
Qed.

(** X11. [handle_best_touch] keeps one quote per venue and symbol: the
    quote just received is the one stored for its venue, the quotes of
    the other venues and of the other symbols are untouched, a venue
    already known keeps its place in the iteration order and a new one
    goes last, so that venues stay distinct. *)
Theorem handle_best_touch_quotes (ex sym : string) (bid ask ts : Q)
    (w : World) :
  let old := default [] (best_touch (app w) !! sym) in
  let new :=
    default [] (best_touch (app (handle_best_touch ex sym bid ask ts w))
                  !! sym) in
  dict_get ex new = Some (mkMarketState (Some bid) (Some ask) ex ts)
  ∧ (∀ ex', ex' ≠ ex → dict_get ex' new = dict_get ex' old)
  ∧ new.*1 = (if decide (ex ∈ old.*1) then old.*1 else (old.*1 ++ [ex])%list)
  ∧ (NoDup old.*1 → NoDup new.*1)
  ∧ (∀ sym', sym' ≠ sym →
       best_touch (app (handle_best_touch ex sym bid ask ts w)) !! sym'
       = best_touch (app w) !! sym').
Proof.
  cbv zeta. rewrite handle_best_touch_stored, lookup_insert_eq.
  change (default [] (Some ?x)) with x.
  split_and!.
  - apply dict_get_set_eq.
  - intros ex' Hne. by apply dict_get_set_ne.
  - apply dict_set_keys.
  - intros Hnd. rewrite dict_set_keys.
    destruct (decide _) as [Hin|Hin]; [done|].
    apply NoDup_app. split; [done|]. split.
    + intros x Hx Hx'. apply list_elem_of_singleton in Hx' as ->. done.
    + apply NoDup_singleton.
  - intros sym' Hne. by rewrite lookup_insert_ne.
Qed.

(** X12. After [handle_best_touch] both sides of the synthetic best are
    present, the synthetic bid is at least the bid just received and the
    synthetic ask at most the ask just received; these are the bests
    handed to the matcher, so from this handler the matcher never runs
    with a side missing. *)
Theorem handle_best_touch_bounds (ex sym : string) (bid ask ts : Q)
    (w : World) :
  let quotes :=
    dict_set ex (mkMarketState (Some bid) (Some ask) ex ts)
             (default [] (best_touch (app w) !! sym)) in
  ∃ b bx a ax,
    synthetic_best quotes = (Some b, Some bx, Some a, Some ax)
    ∧ bid <= b ∧ a <= ask
    ∧ app (handle_best_touch ex sym bid ask ts w)
      = execute_on_best_touch sym (Some b) (Some a)
          (set_best_touch (app w)
             (<[sym := quotes]> (best_touch (app w)))).
Proof.
  intros quotes.
  pose proof (handle_best_touch_unfold ex sym bid ask ts w) as Hw.
  cbv zeta in Hw. fold quotes in Hw.
  destruct (synthetic_best_spec quotes) as [Hb Ha].
  assert (Hin : (ex, mkMarketState (Some bid) (Some ask) ex ts) ∈ quotes)
    by apply dict_set_in.
  destruct (synthetic_best quotes) as [[[bb bbx] ba] bax] eqn:E.
  cbn [fst snd] in Hb, Ha, Hw.
  destruct bb as [b|], bbx as [bx|]; try done.
  2:{ specialize (Hb _ _ Hin). done. }
  destruct ba as [a|], bax as [ax|]; try done.
  2:{ specialize (Ha _ _ Hin). done. }
  exists b, bx, a, ax. split; [done|]. split_and!.
  - by eapply (bid_spec_bound quotes b bx ex).
  - by eapply (ask_spec_bound quotes a ax ex).
  - rewrite Hw. done.
Qed.

Lemma synthetic_best_after_quote (ex : string) (bid ask ts : Q)
    (d : list (string * MarketState)) :
  ∃ b bx a ax,
    synthetic_best (dict_set ex (mkMarketState (Some bid) (Some ask) ex ts) d)
    = (Some b, Some bx, Some a, Some ax)
    ∧ bid <= b ∧ a <= ask.
Proof.
  set (quotes := dict_set ex (mkMarketState (Some bid) (Some ask) ex ts) d).
  destruct (synthetic_best_spec quotes) as [Hb Ha].
  assert (Hin : (ex, mkMarketState (Some bid) (Some ask) ex ts) ∈ quotes)
    by apply dict_set_in.
  destruct (synthetic_best quotes) as [[[bb bbx] ba] bax].
  cbn [fst snd] in Hb, Ha.
  destruct bb as [b|], bbx as [bx|]; try done.
  2:{ specialize (Hb _ _ Hin). done. }
  destruct ba as [a|], bax as [ax|]; try done.
  2:{ specialize (Ha _ _ Hin). done. }
  exists b, bx, a, ax. split; [done|]. split.
  - by eapply (bid_spec_bound quotes b bx ex).
  - by eapply (ask_spec_bound quotes a ax ex).
Qed.

Lemma execute_fold_open_uncrossed bb ba l st tid o :
  tid ∈ l →
  orders (foldl (execute_one bb ba) st l) !! tid = Some o →
  status o = "open" →
  fill_price_of o bb ba = None.
Proof.
  intros Hl Ho Hopen.
  pose proof (execute_fold_settles bb ba l st) as Hall.
  rewrite Forall_forall in Hall. specialize (Hall tid Hl).
  unfold settled in Hall. rewrite Ho in Hall. by destruct Hall.
Qed.

(** X13. A quote update keeps the open index exact and leaves the book
    of the symbol uncrossed by the quote: if the open index is exact
    before [handle_best_touch], it is exact after it, and every order of
    the symbol that is still open afterwards is a buy priced below the
    ask just received or a sell priced above the bid just received.  The
    statement compares prices only; it says nothing on balances. *)
Theorem handle_best_touch_keeps_books (ex sym : string) (bid ask ts : Q)
    (w : World) :
  index_ok (app w) →
  let w' := handle_best_touch ex sym bid ask ts w in
  index_ok (app w')
  ∧ ∀ tid o,
      orders (app w') !! tid = Some o → status o = "open" → symbol o = sym →
      (side o = "buy" → price o < ask)
      ∧ (side o = "sell" → bid < price o).
Proof.
  intros Hi w'. unfold w'.
  pose proof (handle_best_touch_unfold ex sym bid ask ts w) as Hw.
  cbv zeta in Hw. rewrite Hw. cbn [app]. clear Hw.
  destruct (synthetic_best_after_quote ex bid ask ts
              (default [] (best_touch (app w) !! sym)))
    as (b & bx & a & ax & -> & Hb & Ha).
  cbn [fst snd].
  set (st1 := set_best_touch (app w) _).
  assert (Hi1 : index_ok st1) by exact Hi.
  split; [by apply index_ok_execute_on_best_touch|].
  intros tid o Hafter Hopen Hsym.
  destruct (execute_on_best_touch_fill_of _ _ _ _ _ _ Hafter)
    as (o0 & Ho0 & [->|(_ & fp & -> & _)]); [|done].
  assert (Hin : tid ∈ default [] (open_orders_by_symbol st1 !! sym)).
  { apply (proj1 Hi1). by exists o0. }
  assert (Hno : fill_price_of o0 (Some b) (Some a) = None).
  { unfold execute_on_best_touch in Hafter.
    by eapply execute_fold_open_uncrossed. }
  unfold fill_price_of in Hno. split.
  - intros Hside. rewrite Hside in Hno. cbn in Hno.
    destruct (Qleb a (price o0)) eqn:E; [done|].
    apply Qleb_gt in E. lra.
  - intros Hside. rewrite Hside in Hno. cbn in Hno.
    destruct (Qleb (price o0) b) eqn:E; [done|].
    apply Qleb_gt in E. lra.
Qed.

Lemma handle_best_touch_keeps_books_witness :
  let w :=
    mkWorld (place_order 0 "alice" "ord-1" "BTCUSDT" "buy" 48000 (1 # 100)
               (deposit "alice" "USDT" 10000 STATE0)).1 ∅ [] in
  index_ok (app (handle_best_touch "okx" "BTCUSDT" 48990 49000 1 w)).
Proof.
  intros w.
  refine (proj1 (handle_best_touch_keeps_books "okx" "BTCUSDT" 48990 49000 1
                   w _)).
  apply index_ok_place_order, index_ok_deposit, index_ok_empty.
Defined.

(** ** Candles, key by key *)

Lemma Qmod_bounds (x : Q) (n : Z) :
  (0 < n)%Z → 0 <= Qmod x n ∧ Qmod x n < inject_Z n.
Proof.
  intros Hn. unfold Qmod.
  assert (Hpos : 0 < inject_Z n).
  { unfold Qlt. simpl. lia. }
  pose proof (Qfloor_le (x / inject_Z n)) as Hlo.
  pose proof (Qlt_floor (x / inject_Z n)) as Hhi.
  rewrite inject_Z_plus in Hhi. change (inject_Z 1) with 1 in Hhi.
  assert (Hx : x == (x / inject_Z n) * inject_Z n).
  { field. intros H0. rewrite H0 in Hpos. by apply Qlt_irrefl in Hpos. }
  set (y := x / inject_Z n) in *. set (f := inject_Z (Qfloor y)) in *.
  assert (H1 : f * inject_Z n <= y * inject_Z n)
    by (apply Qmult_le_compat_r; lra).
  assert (H2 : y * inject_Z n < (f + 1) * inject_Z n)
    by (apply Qmult_lt_compat_r; lra).
  split; lra.
Qed.

Lemma update_kline_step_at sym ex p qty ts ks hb n :
  (0 < n)%Z →
  ∃ c, (_update_kline_step sym ex p qty ts (ks, hb) n).1 !! (sym, ex, n)
       = Some c ∧ holds_trade p ts c.
Proof.
  intros Hn. unfold _update_kline_step. cbv zeta. cbn [fst].
  rewrite lookup_insert_eq. eexists. split; [done|].
  destruct (Qmod_bounds ts n Hn) as [Hlo Hhi].
  assert (Hfresh : holds_trade p ts
    (mkCandle (_interval_start ts n) (_interval_start ts n + inject_Z n)
              p p p p qty)).
  { unfold holds_trade, _interval_start. cbn. split_and!; try done; lra. }
  destruct (ks !! _) as [c|]; [|done].
  destruct (Qleb (c_end c) ts) eqn:E; [done|].
  apply Qleb_gt in E. unfold holds_trade. cbn.
  destruct (Qmax_ge (c_high c) p), (Qmin_le (c_low c) p).
  split_and!; done.
Qed.

Lemma update_kline_step_other sym ex p qty ts ks hb n (k : KlineKey) :
  k ≠ (sym, ex, n) →
  (_update_kline_step sym ex p qty ts (ks, hb) n).1 !! k = ks !! k.
Proof.
  intros Hne. unfold _update_kline_step. cbv zeta. cbn [fst].
  by rewrite lookup_insert_ne.
Qed.

(** X14. After [_update_kline] for a trade (price [p], time [ts]) of
    venue key [ex] on [sym], every configured interval has an active
    candle for [(sym, ex)], which closes at [p], has low ≤ p ≤ high and
    ends strictly after [ts], whether the trade opened the candle or was
    added to it; the candles of every other symbol or venue key are
    untouched. *)
Theorem update_kline_holds_trade (sym ex : string) (p qty ts : Q)
    (ks : gmap KlineKey Candle) (hb : list WSConnection) :
  (∀ n, n ∈ kline_intervals_seconds →
     ∃ c, (_update_kline sym ex p qty ts (ks, hb)).1 !! (sym, ex, n) = Some c
          ∧ c_close c = p ∧ c_low c <= p ∧ p <= c_high c ∧ ts < c_end c)
  ∧ (∀ sym' ex' n, (sym', ex') ≠ (sym, ex) →
       (_update_kline sym ex p qty ts (ks, hb)).1 !! (sym', ex', n)
       = ks !! (sym', ex', n)).
Proof.
  unfold _update_kline. split.
  - assert (Hpos : ∀ t, t ∈ kline_intervals_seconds → (0 < t)%Z).
    { intros t Ht. unfold kline_intervals_seconds in Ht.
      repeat (apply elem_of_cons in Ht as [->|Ht]; [lia|]).
      by apply elem_of_nil in Ht. }
    intros n Hn.
    assert (H : ∀ l, (∀ t, t ∈ l → (0 < t)%Z) → ∀ acc,
      n ∈ l ∨ (∃ c, acc.1 !! (sym, ex, n) = Some c ∧ holds_trade p ts c) →
      ∃ c, (foldl (_update_kline_step sym ex p qty ts) acc l).1
             !! (sym, ex, n) = Some c ∧ holds_trade p ts c).
    { induction l as [|t l IH]; intros Hl [ks0 hb0] Hor; cbn [foldl].
      - destruct Hor as [Hin|Hgood]; [by apply elem_of_nil in Hin|done].
      - apply IH.
        + intros t' Ht'. apply Hl. by apply list_elem_of_further.
        + destruct (decide (t = n)) as [->|Hne].
          * right. apply update_kline_step_at, Hl, list_elem_of_here.
          * destruct Hor as [Hin|Hgood].
            { apply elem_of_cons in Hin as [->|Hin]; [done|by left]. }
            right. rewrite update_kline_step_other by congruence. done. }
    destruct (H _ Hpos (ks, hb) (or_introl Hn)) as (c & Hc & Hh).
    exists c. split; [done|]. exact Hh.
  - intros sym' ex' n Hne.
    generalize kline_intervals_seconds. intros l. revert ks hb.
    induction l as [|t l IH]; intros ks hb; cbn [foldl]; [done|].
    pose proof (update_kline_step_other sym ex p qty ts ks hb t (sym', ex', n))
      as Ho.
    destruct (_update_kline_step sym ex p qty ts (ks, hb) t) as [ks1 hb1].
    cbn [fst] in Ho. rewrite IH. apply Ho. congruence.
Qed.

Lemma kline_tick_step_at now ks hb k c :
  (kline_tick_step now (ks, hb) (k, c)).1 !! k = Some (ticked now k.2 c)
  ∨ (Qleb (c_end c) now = false
     ∧ (kline_tick_step now (ks, hb) (k, c)).1 !! k = ks !! k).
Proof.
  destruct k as [[sym ex] n]. unfold kline_tick_step, ticked. cbn [snd].
  destruct (Qleb (c_end c) now).
  - left. rewrite lookup_insert_eq. cbn [fst]. apply lookup_insert_eq.
  - right. split; [done|]. by destruct (ks !! (sym, ex, n)).
Qed.

Lemma kline_tick_step_other now ks hb k c (k' : KlineKey) :
  k' ≠ k → (kline_tick_step now (ks, hb) (k, c)).1 !! k' = ks !! k'.
Proof.
  intros Hne. destruct k as [[sym ex] n]. unfold kline_tick_step.
  destruct (Qleb (c_end c) now).
  - rewrite lookup_insert_eq. cbn [fst]. by rewrite lookup_insert_ne.
  - by destruct (ks !! (sym, ex, n)).
Qed.

Lemma kline_tick_fold now (l : list (KlineKey * Candle)) ks hb (k : KlineKey) :
  NoDup l.*1 →
  (∀ k0 c0, (k0, c0) ∈ l → ks !! k0 = Some c0) →
  (foldl (kline_tick_step now) (ks, hb) l).1 !! k =
  if decide (k ∈ l.*1) then ticked now k.2 <$> ks !! k else ks !! k.
Proof.
  revert ks hb. induction l as [|[k0 c0] l IH]; intros ks hb Hnd Hl.
  - cbn [foldl fst]. destruct (decide _) as [H|_]; [|done].
    by apply elem_of_nil in H.
  - cbn [fmap list_fmap fst] in Hnd. apply NoDup_cons in Hnd as [Hk0 Hnd].
    cbn [foldl].
    destruct (kline_tick_step now (ks, hb) (k0, c0)) as [ks1 hb1] eqn:E.
    assert (Hat : ks1 !! k0 = Some (ticked now k0.2 c0)).
    { pose proof (kline_tick_step_at now ks hb k0 c0) as H.
      rewrite E in H. cbn [fst] in H.
      destruct H as [H|[Hq H]]; [done|].
      rewrite H, (Hl k0 c0) by apply list_elem_of_here.
      unfold ticked. by rewrite Hq. }
    assert (Hother : ∀ k', k' ≠ k0 → ks1 !! k' = ks !! k').
    { intros k' Hne.
      pose proof (kline_tick_step_other now ks hb k0 c0 k' Hne) as H.
      rewrite E in H. exact H. }
    assert (Hl1 : ∀ k1 c1, (k1, c1) ∈ l → ks1 !! k1 = Some c1).
    { intros k1 c1 Hin. rewrite Hother.
      - apply Hl. by apply list_elem_of_further.
      - intros ->. apply Hk0. apply list_elem_of_fmap.
        exists (k0, c1). done. }
    rewrite (IH ks1 hb1 Hnd Hl1).
    cbn [fmap list_fmap fst].
    destruct (decide (k = k0)) as [->|Hne].
    + rewrite (decide_False (P := k0 ∈ l.*1)) by done.
      rewrite (decide_True (P := k0 ∈ k0 :: l.*1)) by apply list_elem_of_here.
      rewrite Hat, (Hl k0 c0) by apply list_elem_of_here. done.
    + rewrite (Hother k Hne).
      destruct (decide (k ∈ l.*1)) as [Hin|Hin].
      * rewrite decide_True by (by apply list_elem_of_further). done.
      * rewrite decide_False; [done|].
        intros Hbad. apply elem_of_cons in Hbad as [?|?]; done.
Qed.

(** X15. One pass of the tick loop treats every candle on its own: the
    keys of the table stay the same, a candle whose end has not been
    reached is untouched, and a candle whose end has been reached is
    replaced by the next one, which starts where it ended, lasts one
    interval, has open, high, low and close equal to the old close and
    volume 0.  A pass rolls a candle once only, however late it runs. *)
Theorem kline_tick_pointwise (now : Q) (ks : gmap KlineKey Candle)
    (hb : list WSConnection) (k : KlineKey) :
  (kline_tick now (ks, hb)).1 !! k
  = (fun c =>
       if Qleb (c_end c) now
       then mkCandle (c_end c) (c_end c + inject_Z k.2) (c_close c)
                     (c_close c) (c_close c) (c_close c) 0
       else c) <$> ks !! k.
Proof.
  unfold kline_tick. cbn [fst].
  rewrite kline_tick_fold.
  - destruct (decide (k ∈ (map_to_list ks).*1)) as [Hin|Hin]; [done|].
    destruct (ks !! k) as [c|] eqn:Hk; [|done].
    exfalso. apply Hin. apply list_elem_of_fmap. exists (k, c).
    split; [done|]. by apply elem_of_map_to_list.
  - apply NoDup_fst_map_to_list.
  - intros k0 c0 Hin. by apply elem_of_map_to_list.
Qed.

(** ** Fan-out *)

Lemma venue_check_spec (venue : option string) (sub : Subscription) :
  match venue with
  | Some e => negb (String.eqb e "")
              && negb (String.eqb (sub_exchange sub) e
                       || String.eqb (sub_exchange sub) "all")
  | None => false
  end = false
  ↔ match venue with
    | Some e => e = "" ∨ sub_exchange sub = e ∨ sub_exchange sub = "all"
    | None => True
    end.
Proof.
  destruct venue as [e|]; [|done].
  rewrite andb_false_iff, !negb_false_iff, orb_true_iff, !eqb_true. done.
Qed.

Lemma label_check_spec (label : option string) (sub : Subscription) :
  match label with
  | Some l => negb (String.eqb l "")
              && negb (match sub_interval sub with
                       | Some i => String.eqb i l
                       | None => false
                       end)
  | None => false
  end = false
  ↔ match label with
    | Some l => l = "" ∨ sub_interval sub = Some l
    | None => True
    end.
Proof.
  destruct label as [l|]; [|done].
  rewrite andb_false_iff, !negb_false_iff, eqb_true.
  destruct (sub_interval sub) as [i|].
  - rewrite eqb_true. split; (intros [?|?]; [by left|right; congruence]).
  - split; (intros [?|?]; [by left|done]).
Qed.

Lemma broadcast_sub_routed msg stream sym venue label conn sub :
  _broadcast_sub msg stream sym venue label conn sub =
  if decide (routed stream sym venue label sub) then send conn msg else conn.
Proof.
  pose proof (venue_check_spec venue sub) as Hv.
  pose proof (label_check_spec label sub) as Hl.
  unfold _broadcast_sub.
  destruct (decide (routed stream sym venue label sub)) as [Hr|Hr];
    unfold routed in Hr.
  - destruct Hr as (Hs & Hy & Hve & Hla).
    apply Hv in Hve. apply Hl in Hla.
    rewrite Hs, Hy, !String.eqb_refl, Hve, Hla. done.
  - destruct (String.eqb (sub_stream sub) stream) eqn:E1; [|done].
    destruct (String.eqb (sub_symbol sub) sym) eqn:E2; [|done].
    cbn [negb].
    destruct (match venue with Some _ => _ | None => _ end) eqn:E3; [done|].
    destruct (match label with Some _ => _ | None => _ end) eqn:E4; [done|].
    exfalso. apply Hr. apply eqb_true in E1, E2.
    split_and!; [done|done|by apply Hv|by apply Hl].
Qed.

Lemma broadcast_conn msg stream sym venue label (l : list Subscription) conn :
  foldl (_broadcast_sub msg stream sym venue label) conn l =
  mkWSConnection
    (websocket conn
     ++ replicate (length (filter (routed stream sym venue label) l)) msg)
    (conn_username conn) (subs conn) (ewma_state conn).
Proof.
  revert conn. induction l as [|sub l IH]; intros conn; cbn [foldl].
  - rewrite filter_nil. cbn. rewrite app_nil_r. by destruct conn.
  - rewrite IH, broadcast_sub_routed, filter_cons.
    destruct (decide (routed stream sym venue label sub)).
    + cbn [send websocket conn_username subs ewma_state length replicate].
      by rewrite <- app_assoc.
    + done.
Qed.

(** X16. [_broadcast] sends a connection one copy of the message per
    subscription of that connection that the filtering matrix lets
    through, after what was already sent, and changes nothing else of
    the connection: duplicates of a subscription give duplicate frames,
    and a connection without a matching subscription gets nothing. The
    hub keeps its connections, in order. *)
Theorem broadcast_delivery (msg : Frame) (stream sym : string)
    (venue label : option string) (hb : list WSConnection) :
  length (_broadcast msg stream sym venue label hb) = length hb
  ∧ ∀ i conn, hb !! i = Some conn →
      _broadcast msg stream sym venue label hb !! i =
      Some (mkWSConnection
              (websocket conn
               ++ replicate
                    (length (filter (routed stream sym venue label)
                                    (subs conn))) msg)
              (conn_username conn) (subs conn) (ewma_state conn)).
Proof.
  unfold _broadcast. split; [apply length_map|].
  intros i conn Hi. rewrite lookup_map, Hi. cbn.
  by rewrite broadcast_conn.
Qed.

Lemma broadcast_delivery_witness :
  let conn :=
    mkWSConnection [] "u1"
      [mkSubscription "trades" "BTCUSDT" "all" None None;
       mkSubscription "trades" "BTCUSDT" "okx" None None;
       mkSubscription "trades" "BTCUSDT" "binance" None None] [] in
  let msg := TradeFrame "BTCUSDT" "binance" 100 1 5 in
  _broadcast msg "trades" "BTCUSDT" (Some "binance") None [conn] !! 0%nat
  = Some (mkWSConnection [msg; msg] "u1" (subs conn) []).
Proof.
  intros conn msg.
  exact (proj2 (broadcast_delivery msg "trades" "BTCUSDT" (Some "binance")
                  None [conn]) 0%nat conn eq_refl).
Defined.

Lemma interval_label_nonempty (n : Z) : _interval_label n ≠ "".
Proof.
  unfold _interval_label.
  destruct (60 <=? n)%Z.
  - destruct (pretty (n / 60)%Z); discriminate.
  - destruct (pretty n); discriminate.
Qed.

Lemma broadcast_lookup msg stream sym venue label hb i conn :
  hb !! i = Some conn →
  _broadcast msg stream sym venue label hb !! i
  = Some (delivered conn
            (length (filter (routed stream sym venue label) (subs conn)))
            msg).
Proof.
  intros Hi. unfold _broadcast. rewrite lookup_map, Hi. cbn.
  by rewrite broadcast_conn.
Qed.

(** X17. What the three event broadcasts deliver to a connection.  A
    best-touch event goes to every best_touch subscription on the symbol,
    whatever its venue filter or interval.  A trade of a named venue goes
    to the trades subscriptions on the symbol that are on that venue or
    on "all".  A candle goes to the klines subscriptions on the symbol,
    on the candle's venue key or on "all", whose interval is the
    candle's label; a klines subscription without interval never gets
    one. *)
Theorem typed_broadcasts (hb : list WSConnection) (i : nat)
    (conn : WSConnection) (sym ex : string) :
  hb !! i = Some conn → ex ≠ "" →
  (∀ bid ask bx ax,
     broadcast_best_touch sym bid ask bx ax hb !! i
     = Some (delivered conn
               (length (filter (fun s => sub_stream s = "best_touch"
                                         ∧ sub_symbol s = sym) (subs conn)))
               (BestTouchFrame sym bid ask bx ax)))
  ∧ (∀ p qty ts,
       broadcast_trade sym ex p qty ts hb !! i
       = Some (delivered conn
                 (length (filter (fun s => sub_stream s = "trades"
                                           ∧ sub_symbol s = sym
                                           ∧ (sub_exchange s = ex
                                              ∨ sub_exchange s = "all"))
                                 (subs conn)))
                 (TradeFrame sym ex p qty ts)))
  ∧ (∀ n c,
       broadcast_kline sym ex n c hb !! i
       = Some (delivered conn
                 (length (filter (fun s => sub_stream s = "klines"
                                           ∧ sub_symbol s = sym
                                           ∧ (sub_exchange s = ex
                                              ∨ sub_exchange s = "all")
                                           ∧ sub_interval s
                                             = Some (_interval_label n))
                                 (subs conn)))
                 (KlineFrame sym ex (_interval_label n) c))).
Proof.
  intros Hi Hex. split_and!.
  - intros bid ask bx ax. unfold broadcast_best_touch.
    rewrite (broadcast_lookup _ _ _ _ _ _ _ _ Hi). do 3 f_equal.
    apply list_filter_iff. intros s. unfold routed. tauto.
  - intros p qty ts. unfold broadcast_trade.
    rewrite (broadcast_lookup _ _ _ _ _ _ _ _ Hi). do 3 f_equal.
    apply list_filter_iff. intros s. unfold routed. tauto.
  - intros n c. unfold broadcast_kline.
    rewrite (broadcast_lookup _ _ _ _ _ _ _ _ Hi). do 3 f_equal.
    apply list_filter_iff. intros s. unfold routed.
    pose proof (interval_label_nonempty n). tauto.
Qed.

Lemma typed_broadcasts_witness :
  let conn :=
    mkWSConnection [] "u1"
      [mkSubscription "best_touch" "BTCUSDT" "okx" None None;
       mkSubscription "klines" "BTCUSDT" "all" None None] [] in
  broadcast_best_touch "BTCUSDT" (Some 100) (Some 101) (Some "binance")
    (Some "binance") [conn] !! 0%nat
  = Some (delivered conn 1
            (BestTouchFrame "BTCUSDT" (Some 100) (Some 101) (Some "binance")
                            (Some "binance"))).
Proof.
  intros conn.
  assert (Hex : "binance" ≠ "") by discriminate.
  exact (proj1 (typed_broadcasts [conn] 0%nat conn "BTCUSDT" "binance"
                  eq_refl Hex) (Some 100) (Some 101) (Some "binance")
               (Some "binance")).
Defined.

(** ** Subscribing and unsubscribing *)

Lemma broadcast_conn_nothing msg stream sym venue label
    (l : list Subscription) conn :
  (∀ s, s ∈ l → ¬ (sub_stream s = stream ∧ sub_symbol s = sym)) →
  foldl (_broadcast_sub msg stream sym venue label) conn l = conn.
Proof.
  intros Hno. rewrite broadcast_conn.
  assert (filter (routed stream sym venue label) l = []) as ->.
  { induction l as [|s l IH]; [done|].
    rewrite filter_cons_False.
    - apply IH. intros s' Hs'. apply Hno. by apply list_elem_of_further.
    - intros (? & ? & _). by apply (Hno s (list_elem_of_here _ _)). }
  cbn. rewrite app_nil_r. by destruct conn.
Qed.

Lemma unsubscribe_subs stream sym conn s :
  s ∈ subs (ws_unsubscribe stream sym conn)
  ↔ s ∈ subs conn ∧ ¬ (sub_stream s = stream ∧ sub_symbol s = sym).
Proof.
  unfold ws_unsubscribe. cbn [subs].
  rewrite !list_elem_of_In, filter_In, negb_true_iff, andb_false_iff.
  rewrite !eqb_false. split.
  - intros [Hin Hor]. split; [done|]. intros [? ?]. by destruct Hor.
  - intros [Hin Hno]. split; [done|].
    destruct (decide (sub_stream s = stream)); [|by left].
    destruct (decide (sub_symbol s = sym)); [|by right].
    by destruct Hno.
Qed.

(** X18. An unsubscribe removes every subscription of the connection on
    that stream and symbol, duplicates included, and nothing else: after
    it, no broadcast on that stream and symbol and no EWMA pass for an
    ewma stream on that symbol sends the connection anything, while the
    subscriptions on other streams or symbols are routed as before.
    Subscribing and then unsubscribing the same stream and symbol is the
    same as unsubscribing alone, and unsubscribing twice the same as
    once.  Frames already sent and the EWMA table are left as they
    are. *)
Theorem unsubscribe_correct (stream sym : string) (conn : WSConnection) :
  let conn' := ws_unsubscribe stream sym conn in
  (∀ s, s ∈ subs conn'
        ↔ s ∈ subs conn ∧ ¬ (sub_stream s = stream ∧ sub_symbol s = sym))
  ∧ (∀ msg venue label,
       foldl (_broadcast_sub msg stream sym venue label) conn' (subs conn')
       = conn')
  ∧ (∀ exp ln2 ex p ts, stream = "ewma" →
       foldl (update_ewma_sub exp ln2 sym ex p ts) conn' (subs conn') = conn')
  ∧ (∀ stream' sym' venue label, (stream', sym') ≠ (stream, sym) →
       filter (routed stream' sym' venue label) (subs conn')
       = filter (routed stream' sym' venue label) (subs conn))
  ∧ (∀ exchange interval half_life,
       ws_unsubscribe stream sym
         (ws_subscribe stream sym exchange interval half_life conn) = conn')
  ∧ ws_unsubscribe stream sym conn' = conn'
  ∧ websocket conn' = websocket conn
  ∧ ewma_state conn' = ewma_state conn.
Proof.
  intros conn'. split_and!.
  - apply unsubscribe_subs.
  - intros msg venue label. apply broadcast_conn_nothing.
    intros s Hs. by apply unsubscribe_subs in Hs as [_ ?].
  - intros exp ln2 ex p ts ->.
    assert (H : ∀ l c,
      (∀ s, s ∈ l → ¬ (sub_stream s = "ewma" ∧ sub_symbol s = sym)) →
      foldl (update_ewma_sub exp ln2 sym ex p ts) c l = c).
    { induction l as [|s l IH]; intros c Hno; cbn [foldl]; [done|].
      assert (update_ewma_sub exp ln2 sym ex p ts c s = c) as ->.
      { unfold update_ewma_sub.
        destruct (String.eqb (sub_stream s) "ewma") eqn:E1; [|done].
        destruct (String.eqb (sub_symbol s) sym) eqn:E2; [|done].
        apply eqb_true in E1, E2.
        destruct (Hno s (list_elem_of_here _ _)). done. }
      apply IH. intros s' Hs'. apply Hno. by apply list_elem_of_further. }
    apply H. intros s Hs. by apply unsubscribe_subs in Hs as [_ ?].
  - intros stream' sym' venue label Hne.
    unfold conn', ws_unsubscribe. cbn [subs].
    induction (subs conn) as [|s l IH]; [done|].
    cbn [List.filter].
    destruct (String.eqb (sub_stream s) stream
              && String.eqb (sub_symbol s) sym) eqn:E; cbn [negb].
    + apply andb_true_iff in E as [E1 E2]. apply eqb_true in E1, E2.
      rewrite IH, (filter_cons (routed stream' sym' venue label) s l).
      rewrite decide_False; [done|].
      intros (? & ? & _). apply Hne. congruence.
    + rewrite !filter_cons, IH. done.
  - intros exchange interval half_life.
    unfold conn', ws_unsubscribe, ws_subscribe.
    cbn [websocket conn_username subs ewma_state].
    rewrite List.filter_app. cbn [List.filter sub_stream sub_symbol].
    rewrite !String.eqb_refl. cbn [andb negb]. by rewrite app_nil_r.
  - unfold conn', ws_unsubscribe.
    cbn [websocket conn_username subs ewma_state].
    f_equal. induction (subs conn) as [|s l IH]; [done|].
    cbn [List.filter].
    destruct (negb _) eqn:E; [|done].
    cbn [List.filter]. rewrite E. by rewrite IH.
  - done.
  - done.
Qed.

(** ** The EWMA series *)

Lemma update_ewma_fold_nothing exp ln2 sym ex p ts (l : list Subscription) c :
  (∀ s, s ∈ l → ¬ (sub_stream s = "ewma" ∧ sub_symbol s = sym)) →
  foldl (update_ewma_sub exp ln2 sym ex p ts) c l = c.
Proof.
  revert c. induction l as [|s l IH]; intros c Hno; cbn [foldl]; [done|].
  assert (update_ewma_sub exp ln2 sym ex p ts c s = c) as ->.
  { unfold update_ewma_sub.
    destruct (String.eqb (sub_stream s) "ewma") eqn:E1; [|done].
    destruct (String.eqb (sub_symbol s) sym) eqn:E2; [|done].
    apply eqb_true in E1, E2.
    destruct (Hno s (list_elem_of_here _ _)). done. }
  apply IH. intros s' Hs'. apply Hno. by apply list_elem_of_further.
Qed.

Lemma update_ewma_sub_served exp ln2 sym ex p ts conn sub h :
  ewma_matches sym ex sub →
  sub_half_life sub = Some h → ¬ h == 0 →
  update_ewma_sub exp ln2 sym ex p ts conn sub =
  let key := (sym, sub_exchange sub, h) in
  let v := ewma_value exp ln2 h p ts
             (default (mkEwmaState None None)
                      (ewma_get key (ewma_state conn))) in
  send (set_ewma_state conn
          (ewma_put key (mkEwmaState (Some v) (Some ts)) (ewma_state conn)))
       (EwmaFrame sym (sub_exchange sub) h v ts).
Proof.
  intros Hm Hh Hnz. unfold update_ewma_sub.
  destruct (ewma_matches_guards _ _ _ Hm) as (-> & -> & ->).
  rewrite Hh.
  assert (Qeqb h 0 = false) as -> by (by apply Qeqb_neq).
  done.
Qed.

(** X19. What an EWMA pass publishes for a subscription it serves (ewma
    stream, the trade's symbol, venue filter "all" or the trade's venue,
    half-life not zero): exactly one frame, after what was already sent,
    whose value is the one the code computes from the state held under
    the subscription's key, and is the trade price when the key has no
    value yet.  The same value is stored under the key with the trade's
    time, so the next trade is smoothed from what was published; the
    states under all other keys and the subscriptions are left alone. *)
Theorem ewma_frame_value (exp : Q → Q) (ln2 : Q)
    (sym ex : string) (p ts : Q) (conn : WSConnection) (sub : Subscription)
    (h : Q) :
  sub_stream sub = "ewma" → sub_symbol sub = sym →
  sub_exchange sub = "all" ∨ sub_exchange sub = ex →
  sub_half_life sub = Some h → ¬ h == 0 →
  let conn' := update_ewma_sub exp ln2 sym ex p ts conn sub in
  let key : EwmaKey := (sym, sub_exchange sub, h) in
  let e :=
    ewma_value exp ln2 h p ts
      (default (mkEwmaState None None) (ewma_get key (ewma_state conn))) in
  websocket conn'
  = (websocket conn ++ [EwmaFrame sym (sub_exchange sub) h e ts])%list
  ∧ ewma_get key (ewma_state conn') = Some (mkEwmaState (Some e) (Some ts))
  ∧ (ewma_get key (ewma_state conn) ≫= value = None → e = p)
  ∧ (∀ k, key_eqb k key = false →
       ewma_get k (ewma_state conn') = ewma_get k (ewma_state conn))
  ∧ subs conn' = subs conn.
Proof.
  intros Hstream Hsym Hven Hh Hnz conn' key e.
  assert (Hm : ewma_matches sym ex sub) by (by split_and!).
  unfold conn'. rewrite (update_ewma_sub_served _ _ _ _ _ _ _ _ _ Hm Hh Hnz).
  cbv zeta. fold key. fold e.
  cbn [send set_ewma_state ewma_state websocket subs].
  split_and!; try done.
  - apply ewma_get_put.
  - unfold e, ewma_value.
    destruct (ewma_get key (ewma_state conn)) as [s|]; cbn.
    + by intros ->.
    + done.
  - intros k Hk. by rewrite ewma_get_put_key, Hk.
Qed.

Lemma ewma_frame_value_witness :
  websocket
    (update_ewma_sub (fun _ => 1 # 2) 1 "BTCUSDT" "binance" 110 1010
       (mkWSConnection [] "u1" [] [])
       (mkSubscription "ewma" "BTCUSDT" "all" None (Some 10)))
  = [EwmaFrame "BTCUSDT" "all" 10 110 1010].
Proof.
  refine (proj1 (ewma_frame_value (fun _ => 1 # 2) 1 "BTCUSDT" "binance"
                   110 1010 (mkWSConnection [] "u1" [] [])
                   (mkSubscription "ewma" "BTCUSDT" "all" None (Some 10)) 10
                   _ _ _ _ _)).
  - reflexivity.
  - reflexivity.
  - by left.
  - reflexivity.
  - discriminate.
Defined.

(** X20. The EWMA table of a connection outlives its subscriptions:
    after an unsubscribe and a new subscribe with the same venue filter
    and half-life, the first trade does not start the series afresh but
    publishes the value smoothed from the state left under the key. *)
Theorem ewma_resumes_after_resubscribe (exp : Q → Q) (ln2 : Q)
    (sym ex e : string) (h p ts : Q) (conn : WSConnection) (s : EwmaState) :
  e = "all" ∨ e = ex → ¬ h == 0 →
  ewma_get (sym, e, h) (ewma_state conn) = Some s →
  let conn1 :=
    ws_subscribe "ewma" sym (Some e) None (Some h)
      (ws_unsubscribe "ewma" sym conn) in
  websocket (foldl (update_ewma_sub exp ln2 sym ex p ts) conn1 (subs conn1))
  = (websocket conn
     ++ [EwmaFrame sym e h (ewma_value exp ln2 h p ts s) ts])%list.
Proof.
  intros He Hnz Hs conn1.
  unfold conn1, ws_subscribe. cbn [subs default].
  rewrite foldl_app. cbn [foldl].
  rewrite update_ewma_fold_nothing.
  2:{ intros s0 Hs0. by apply unsubscribe_subs in Hs0 as [_ ?]. }
  rewrite (update_ewma_sub_served exp ln2 sym ex p ts _ _ h).
  - cbv zeta.
    cbn [send websocket set_ewma_state ewma_state sub_exchange
         ws_unsubscribe].
    unfold id. rewrite Hs. done.
  - by split_and!.
  - done.
  - done.
Qed.

Lemma ewma_resumes_after_resubscribe_witness :
  let conn :=
    mkWSConnection [] "u1"
      [mkSubscription "ewma" "BTCUSDT" "all" None (Some 10)]
      [(("BTCUSDT", "all", 10), mkEwmaState (Some 100) (Some 1000))] in
  let conn1 :=
    ws_subscribe "ewma" "BTCUSDT" (Some "all") None (Some 10)
      (ws_unsubscribe "ewma" "BTCUSDT" conn) in
  websocket (foldl (update_ewma_sub (fun _ => 1 # 2) 1 "BTCUSDT" "okx"
                      110 1010) conn1 (subs conn1))
  = [EwmaFrame "BTCUSDT" "all" 10
       (ewma_value (fun _ => 1 # 2) 1 10 110 1010
          (mkEwmaState (Some 100) (Some 1000))) 1010].
Proof.
  intros conn conn1.
  apply (ewma_resumes_after_resubscribe (fun _ => 1 # 2) 1 "BTCUSDT" "okx"
           "all" 10 110 1010 conn (mkEwmaState (Some 100) (Some 1000))).
  - by left.
  - discriminate.
  - reflexivity.
Defined.

(** ** Passwords *)

Lemma compare_digest_eq (a b : list Byte.byte) :
  compare_digest a b = true ↔ a = b.
Proof.
  revert b. induction a as [|x a IH]; intros [|y b]; cbn [compare_digest];
    try (split; [done|done]).
  rewrite andb_true_iff, IH. split.
  - intros [Hxy ->]. by rewrite (Byte.byte_dec_bl _ _ Hxy).
  - intros [= -> ->]. split; [|done]. by apply Byte.byte_dec_lb.
Qed.

Lemma verify_password_of_hash
    (pbkdf2_hmac : string → list Byte.byte → list Byte.byte)
    (b64encode : list Byte.byte → string)
    (b64decode : string → option (list Byte.byte))
    (salt : list Byte.byte) (password candidate : string) :
  (∀ raw, b64decode (b64encode raw) = Some raw) →
  length salt = 16%nat →
  verify_password pbkdf2_hmac b64decode candidate
    (hash_password pbkdf2_hmac b64encode salt password) = true
  ↔ pbkdf2_hmac candidate salt = pbkdf2_hmac password salt.
Proof.
  intros Hdec Hlen. unfold verify_password, hash_password, _pbkdf2_hash.
  rewrite Hdec. cbv zeta.
  rewrite take_app_length', drop_app_length' by done.
  apply compare_digest_eq.
Qed.

(** X21. A password verifies against its own hash, and another password
    verifies against that hash exactly when PBKDF2 gives both the same
    digest under the hash's salt.  This needs a base64 decoder that
    inverts the encoder and the 16-byte salt [hash_password] draws. *)
Theorem verify_hash_password
    (pbkdf2_hmac : string → list Byte.byte → list Byte.byte)
    (b64encode : list Byte.byte → string)
    (b64decode : string → option (list Byte.byte))
    (salt : list Byte.byte) (password : string) :
  (∀ raw, b64decode (b64encode raw) = Some raw) →
  length salt = 16%nat →
  verify_password pbkdf2_hmac b64decode password
    (hash_password pbkdf2_hmac b64encode salt password) = true
  ∧ ∀ other,
      verify_password pbkdf2_hmac b64decode other
        (hash_password pbkdf2_hmac b64encode salt password) = true
      ↔ pbkdf2_hmac other salt = pbkdf2_hmac password salt.
Proof.
  intros Hdec Hlen. split.
  - by apply verify_password_of_hash.
  - intros other. by apply verify_password_of_hash.
Qed.

Lemma toy_b64_inverse raw : toy_b64decode (toy_b64encode raw) = Some raw.
Proof.
  unfold toy_b64decode, toy_b64encode.
  by rewrite list_byte_of_string_of_list_byte.
Qed.

Lemma verify_hash_password_witness :
  verify_password toy_pbkdf2 toy_b64decode "secret1"
    (hash_password toy_pbkdf2 toy_b64encode toy_salt "secret1") = true.
Proof.
  refine (proj1 (verify_hash_password toy_pbkdf2 toy_b64encode toy_b64decode
                   toy_salt "secret1" _ _)).
  - exact toy_b64_inverse.
  - reflexivity.
Defined.

(** A stored hash that base64 cannot decode verifies no password. *)
Lemma verify_password_undecodable
    (pbkdf2_hmac : string → list Byte.byte → list Byte.byte)
    (b64decode : string → option (list Byte.byte)) password stored :
  b64decode stored = None →
  verify_password pbkdf2_hmac b64decode password stored = false.
Proof. intros H. unfold verify_password. by rewrite H. Qed.

(** ** Accounts *)

Lemma register_new u h st :
  users st !! u = None →
  register u h st =
  (mkAppState (<[u := mkUser u h]> (users st))
              (<[u := default ∅ (balances st !! u)]> (balances st))
              (orders st) (open_orders_by_symbol st)
              (best_touch st) (last_trade st),
   Ok200 (JObj [("token_type", JStr "bearer")])).
Proof. intros H. unfold register. by rewrite H. Qed.

(** X22. Registering a new user name and then logging in: the registered
    password is accepted with a bearer token; a password whose PBKDF2
    digest under the stored salt differs is refused with 401; and the
    login of every other user name answers as it did before the
    registration. *)
Theorem register_then_login
    (pbkdf2_hmac : string → list Byte.byte → list Byte.byte)
    (b64encode : list Byte.byte → string)
    (b64decode : string → option (list Byte.byte))
    (salt : list Byte.byte) (u password token : string) (st : AppState) :
  (∀ raw, b64decode (b64encode raw) = Some raw) →
  length salt = 16%nat →
  users st !! u = None →
  let st' := (register_password pbkdf2_hmac b64encode salt u password st).1 in
  login pbkdf2_hmac b64decode u password token st'
  = Ok200 (JObj [("access_token", JStr token); ("token_type", JStr "bearer")])
  ∧ (∀ other,
       pbkdf2_hmac other salt ≠ pbkdf2_hmac password salt →
       login pbkdf2_hmac b64decode u other token st'
       = HTTPException 401 "invalid credentials")
  ∧ (∀ u' other,
       u' ≠ u →
       login pbkdf2_hmac b64decode u' other token st'
       = login pbkdf2_hmac b64decode u' other token st).
Proof.
  intros Hdec Hlen Hnew st'.
  unfold st', register_password. rewrite (register_new _ _ _ Hnew).
  cbn [fst]. unfold login. cbn [users].
  split; [|split].
  - rewrite lookup_insert_eq. cbn [password_hash].
    assert (verify_password pbkdf2_hmac b64decode password
              (hash_password pbkdf2_hmac b64encode salt password) = true)
      as -> by (by apply verify_password_of_hash).
    done.
  - intros other Hne. rewrite lookup_insert_eq. cbn [password_hash].
    destruct (verify_password pbkdf2_hmac b64decode other _) eqn:E; [|done].
    apply verify_password_of_hash in E; done.
  - intros u' other Hne. by rewrite lookup_insert_ne.
Qed.

Lemma register_then_login_witness :
  login toy_pbkdf2 toy_b64decode "alice" "secret1" "tok"
    (register_password toy_pbkdf2 toy_b64encode toy_salt "alice" "secret1"
       STATE0).1
  = Ok200 (JObj [("access_token", JStr "tok"); ("token_type", JStr "bearer")]).
Proof.
  refine (proj1 (register_then_login toy_pbkdf2 toy_b64encode toy_b64decode
                   toy_salt "alice" "secret1" "tok" STATE0 _ _ _)).
  - exact toy_b64_inverse.
  - reflexivity.
  - reflexivity.
Defined.

(** X23. [register] never touches an account that exists: the stored
    user (and so its password hash) stays as it was, whether the request
    names that user or another one, and nobody's balance or order
    changes. *)
Theorem register_keeps_accounts (u h u0 : string) (user : User)
    (st : AppState) :
  users st !! u0 = Some user →
  let st' := (register u h st).1 in
  users st' !! u0 = Some user
  ∧ (∀ u' a, balance_of (balances st') u' a = balance_of (balances st) u' a)
  ∧ orders st' = orders st
  ∧ open_orders_by_symbol st' = open_orders_by_symbol st.
Proof.
  intros Hu0 st'. unfold st'.
  destruct (users st !! u) as [x|] eqn:Eu.
  - unfold register. rewrite Eu. done.
  - rewrite (register_new _ _ _ Eu). cbn [fst users balances orders
      open_orders_by_symbol].
    split_and!; try done.
    + rewrite lookup_insert_ne; [done|]. intros ->. congruence.
    + intros u' a. unfold balance_of.
      destruct (decide (u = u')) as [->|Hne].
      * by rewrite lookup_insert_eq.
      * by rewrite lookup_insert_ne.
Qed.

Lemma register_keeps_accounts_witness :
  users (register "bob" "h2"
           (mkAppState {["bob" := mkUser "bob" "h1"]} ∅ ∅ ∅ ∅ ∅)).1 !! "bob"
  = Some (mkUser "bob" "h1").
Proof.
  refine (proj1 (register_keeps_accounts "bob" "h2" "bob" (mkUser "bob" "h1")
                   (mkAppState {["bob" := mkUser "bob" "h1"]} ∅ ∅ ∅ ∅ ∅) _)).
  reflexivity.
Defined.

(** ** The request handlers, continued *)

Lemma get_current_user_inl decoded u :
  _get_current_user decoded = inl u → decoded = Some u ∧ u ≠ "".
Proof.
  unfold _get_current_user. destruct decoded as [x|]; [|done].
  destruct (String.eqb x "") eqn:E; [done|].
  intros [= ->]. split; [done|]. by apply eqb_false.
Qed.

Lemma get_current_user_Some u :
  u ≠ "" → _get_current_user (Some u) = inl u.
Proof.
  intros H. unfold _get_current_user.
  apply eqb_false in H. by rewrite H.
Qed.

Lemma deposit_balance_of u asset amount st u' a' :
  balance_of (balances (deposit u asset amount st)) u' a' =
  if decide ((u', a') = (u, asset))
  then mkBalance (total (balance_of (balances st) u' a') + amount)
                 (available (balance_of (balances st) u' a') + amount)
  else balance_of (balances st) u' a'.
Proof.
  unfold deposit. cbn [balances set_balances].
  rewrite !balance_of_update_at.
  destruct (decide _); done.
Qed.

Lemma place_order_balances now u tid sym sd p qty st :
  balances (place_order now u tid sym sd p qty st).1 = balances st
  ∨ balances (place_order now u tid sym sd p qty st).1
    = (_reserve_for_order (balances st) u sd sym p qty).1.
Proof.
  unfold place_order.
  destruct (orders st !! tid); [by left|].
  destruct (_reserve_for_order (balances st) u sd sym p qty)
    as [bals [[ok reserved] why]].
  destruct ok; by right.
Qed.

Lemma place_order_other_user now u tid sym sd p qty st u' a :
  u' ≠ u →
  balance_of (balances (place_order now u tid sym sd p qty st).1) u' a
  = balance_of (balances st) u' a.
Proof.
  intros Hne.
  destruct (place_order_balances now u tid sym sd p qty st) as [->| ->];
    [done|].
  destruct (reserve_for_order_cases (balances st) u sd sym p qty)
    as [[_ H]|(_ & _ & H)]; rewrite H; [done|].
  rewrite decide_False; [done|]. congruence.
Qed.

Lemma cancel_order_other_user u tid st u' a :
  u' ≠ u →
  balance_of (balances (cancel_order u tid st).1) u' a
  = balance_of (balances st) u' a.
Proof.
  intros Hne.
  destruct (cancel_order_cases u tid st) as [->|(o & _ & _ & _ & ->)];
    [done|].
  cbn [balances]. rewrite release_reserve_balance.
  rewrite decide_False; [done|]. congruence.
Qed.

(** X24. A request changes only the balances of the user its token
    decodes to: whatever [POST /deposit], [POST /orders] and
    [DELETE /orders/{token_id}] are sent, every balance of a user the
    token does not name reads after the request as it did before. *)
Theorem requests_touch_own_balances (decoded : option string)
    (other a : string) (st : AppState) :
  decoded ≠ Some other →
  (∀ asset amount,
     balance_of (balances (do_deposit asset amount decoded st).1) other a
     = balance_of (balances st) other a)
  ∧ (∀ now tid sym sd p qty,
     balance_of (balances (submit_order now tid sym sd p qty decoded st).1)
                other a
     = balance_of (balances st) other a)
  ∧ (∀ tid,
     balance_of (balances (cancel tid decoded st).1) other a
     = balance_of (balances st) other a).
Proof.
  intros Hdec.
  destruct (_get_current_user decoded) as [u|e] eqn:Eu.
  - apply get_current_user_inl in Eu as Hu. destruct Hu as [-> Hu].
    assert (Hne : other ≠ u) by congruence.
    split_and!.
    + intros asset amount. unfold do_deposit. rewrite Eu. cbn [fst].
      rewrite deposit_balance_of. rewrite decide_False; [done|]. congruence.
    + intros now tid sym sd p qty. unfold submit_order. rewrite Eu.
      destruct (negb (existsb (String.eqb sym) symbols)); [done|].
      pose proof (place_order_other_user now u tid sym sd p qty st other a Hne)
        as H.
      destruct (place_order now u tid sym sd p qty st)
        as [st' [[ok order] why]].
      cbn [fst] in H.
      destruct ok; cbn [negb]; [destruct order|]; cbn [fst]; exact H.
    + intros tid. unfold cancel. rewrite Eu.
      pose proof (cancel_order_other_user u tid st other a Hne) as H.
      destruct (cancel_order u tid st) as [st' [ok why]].
      cbn [fst] in H. destruct ok; cbn [negb fst]; exact H.
  - split_and!.
    + intros asset amount. unfold do_deposit. by rewrite Eu.
    + intros now tid sym sd p qty. unfold submit_order. by rewrite Eu.
    + intros tid. unfold cancel. by rewrite Eu.
Qed.

Lemma requests_touch_own_balances_witness :
  balance_of (balances (do_deposit "USDT" 100 (Some "alice") STATE0).1)
             "bob" "USDT"
  = balance_of (balances STATE0) "bob" "USDT".
Proof.
  refine (proj1 (requests_touch_own_balances (Some "alice") "bob" "USDT"
                   STATE0 _) "USDT" 100).
  discriminate.
Defined.

(** X25. An order of another user is hidden from the caller: the status
    request answers 404 and the cancel request 400, both with the detail
    "order not found" they give for a token id that does not exist, and
    the cancel request leaves the state as it was. *)
Theorem foreign_order_hidden (tid u : string) (o : Order) (st : AppState) :
  orders st !! tid = Some o → username o ≠ u → u ≠ "" →
  order_status tid (Some u) st = HTTPException 404 "order not found"
  ∧ cancel tid (Some u) st = (st, HTTPException 400 "order not found").
Proof.
  intros Ho Hne Hu. apply eqb_false in Hne.
  unfold order_status, cancel. rewrite (get_current_user_Some _ Hu).
  unfold get_order, cancel_order. rewrite Ho, Hne. done.
Qed.

Lemma foreign_order_hidden_witness :
  let o := mkOrder "t-1" "alice" "BTCUSDT" "buy" 100 1 "open" None None 100 0 in
  let st := mkAppState ∅ ∅ {["t-1" := o]} {["BTCUSDT" := ["t-1"]]} ∅ ∅ in
  order_status "t-1" (Some "bob") st = HTTPException 404 "order not found"
  ∧ cancel "t-1" (Some "bob") st = (st, HTTPException 400 "order not found").
Proof.
  intros o st.
  apply (foreign_order_hidden "t-1" "bob" o st).
  - reflexivity.
  - discriminate.
  - discriminate.
Defined.

(** X26. [deposit] credits the amount once to the total and once to the
    available balance of the named asset of the named user, creating the
    balance at zero when there was none, and changes no other balance,
    no order and no index. *)
Theorem deposit_credits (u asset : string) (amount : Q) (st : AppState) :
  let st' := deposit u asset amount st in
  total (balance_of (balances st') u asset)
  = total (balance_of (balances st) u asset) + amount
  ∧ available (balance_of (balances st') u asset)
    = available (balance_of (balances st) u asset) + amount
  ∧ (∀ u' a', (u', a') ≠ (u, asset) →
       balance_of (balances st') u' a' = balance_of (balances st) u' a')
  ∧ orders st' = orders st
  ∧ open_orders_by_symbol st' = open_orders_by_symbol st
  ∧ users st' = users st.
Proof.
  intros st'. unfold st'. split_and!; try done.
  - rewrite deposit_balance_of. by rewrite decide_True.
  - rewrite deposit_balance_of. by rewrite decide_True.
  - intros u' a' Hne. rewrite deposit_balance_of. by rewrite decide_False.
Qed.

Lemma balance_lines u st1 st2 :
  u ≠ "" →
  (∀ a, a ∈ assets →
     balance_of (balances st1) u a = balance_of (balances st2) u a) →
  balance (Some u) st1 = balance (Some u) st2.
Proof.
  intros Hu H. unfold balance. rewrite (get_current_user_Some _ Hu).
  cbv zeta. do 5 f_equal.
  apply map_ext_in. intros a Ha.
  apply list_elem_of_In in Ha. specialize (H a Ha).
  unfold balance_of in H. by rewrite H.
Qed.

(** X27. [GET /balance] lists the configured assets only: a deposit into
    an asset that is no base or quote of a configured pair does not
    change the answer, and neither does a deposit of any other user. *)
Theorem balance_hides_unlisted_deposit (u depositor asset : string)
    (amount : Q) (st : AppState) :
  u ≠ "" → depositor ≠ u ∨ asset ∉ assets →
  balance (Some u) (do_deposit asset amount (Some depositor) st).1
  = balance (Some u) st.
Proof.
  intros Hu Hor. apply balance_lines; [done|].
  intros a Ha. unfold do_deposit.
  destruct (_get_current_user (Some depositor)) as [d|e] eqn:Ed; [|done].
  apply get_current_user_inl in Ed as [[= <-] _].
  cbn [fst]. rewrite deposit_balance_of.
  rewrite decide_False; [done|].
  intros [= -> ->]. destruct Hor as [H|H]; [done|]. by apply H.
Qed.

Lemma balance_hides_unlisted_deposit_witness :
  balance (Some "alice") (do_deposit "DOGE" 5 (Some "alice") STATE0).1
  = balance (Some "alice") STATE0.
Proof.
  apply (balance_hides_unlisted_deposit "alice" "alice" "DOGE" 5 STATE0).
  - discriminate.
  - right. vm_compute. intros H.
    repeat (apply elem_of_cons in H as [H|H]; [discriminate H|]).
    by apply elem_of_nil in H.
Defined.

Lemma get_current_user_inr decoded e :
  _get_current_user decoded = inr e →
  e = HTTPException 401 "Invalid or expired token".
Proof.
  unfold _get_current_user. destruct decoded as [x|]; [|by intros [= <-]].
  destruct (String.eqb x ""); [by intros [= <-]|done].
Qed.

(** X28. What [POST /orders] can answer.  A success carries the token id
    and the status "open", and then the symbol is a configured pair, the
    token id was free, and the order is stored as open under the caller's
    name and indexed under its symbol.  Every failure is a 401 or a 400
    and leaves all orders, the index and every balance as they were; the
    handler never fails on the order [place_order] hands back. *)
Theorem submit_order_responses (now : Q) (tid sym sd : string) (p qty : Q)
    (decoded : option string) (st : AppState) :
  let st' := (submit_order now tid sym sd p qty decoded st).1 in
  match (submit_order now tid sym sd p qty decoded st).2 with
  | Ok200 body =>
      body = JObj [("token_id", JStr tid); ("status", JStr "open")]
      ∧ sym ∈ symbols
      ∧ orders st !! tid = None
      ∧ (∃ u reserved,
           decoded = Some u
           ∧ orders st' !! tid
             = Some (mkOrder tid u sym sd p qty "open" None None reserved now))
      ∧ tid ∈ default [] (open_orders_by_symbol st' !! sym)
  | HTTPException code _ =>
      (code = 401%Z ∨ code = 400%Z)
      ∧ orders st' = orders st
      ∧ open_orders_by_symbol st' = open_orders_by_symbol st
      ∧ ∀ u a, balance_of (balances st') u a = balance_of (balances st) u a
  end.
Proof.
  intros st'. unfold st', submit_order.
  destruct (_get_current_user decoded) as [u|e] eqn:Eu.
  2:{ apply get_current_user_inr in Eu as ->. cbn [fst snd].
      split_and!; auto. }
  apply get_current_user_inl in Eu as [-> Hu].
  destruct (existsb (String.eqb sym) symbols) eqn:Esym; cbn [negb].
  2:{ cbn [fst snd]. split_and!; auto. }
  assert (Hin : sym ∈ symbols).
  { apply existsb_exists in Esym as (x & Hx & Heq).
    apply eqb_true in Heq as ->. by apply list_elem_of_In. }
  unfold place_order.
  destruct (orders st !! tid) as [o|] eqn:Ho.
  { cbn [negb fst snd]. split_and!; auto. }
  pose proof (reserve_for_order_cases (balances st) u sd sym p qty) as Hres.
  destruct (_reserve_for_order (balances st) u sd sym p qty)
    as [bals [[ok reserved] why]].
  cbn [fst snd] in Hres.
  destruct ok; cbn [negb fst snd].
  - split_and!; try done.
    + exists u, reserved. split; [done|].
      cbn [orders set_open_orders set_orders]. by rewrite lookup_insert_eq.
    + cbn [open_orders_by_symbol set_open_orders].
      rewrite lookup_insert_eq. cbn [default].
      apply elem_of_app. right. apply list_elem_of_here.
  - destruct Hres as [[_ Hb]|[[=] _]].
    split_and!; auto.
Qed.

(** X29. Loading a state file replaces the persisted part of the state
    and nothing else: the users, balances, orders and index that come out
    do not depend on the state before, the best quotes and last trades
    are carried over, and every loaded user carries the name of its
    key. *)
Theorem load_state_replaces (doc : json) (st st' : AppState) :
  load_state (Some doc) st = Some st' →
  best_touch st' = best_touch st
  ∧ last_trade st' = last_trade st
  ∧ users_keyed st'
  ∧ ∀ st2,
      load_state (Some doc) st2
      = Some (mkAppState (users st') (balances st') (orders st')
                (open_orders_by_symbol st') (best_touch st2) (last_trade st2)).
Proof.
  intros H.
  assert (Hall : ∀ st2,
      load_state (Some doc) st2
      = Some (mkAppState (users st') (balances st') (orders st')
                (open_orders_by_symbol st') (best_touch st2) (last_trade st2))
      ∧ best_touch st' = best_touch st ∧ last_trade st' = last_trade st).
  { intros st2. unfold load_state in *.
    destruct (as_obj doc) as [raw|]; [|done]. cbn [mbind option_bind] in *.
    destruct (dict_of_json user_of_json _) as [us|]; [|done].
    cbn [mbind option_bind] in *.
    destruct (dict_of_json _ (get_or_empty "balances" raw)) as [bs|]; [|done].
    cbn [mbind option_bind] in *.
    destruct (dict_of_json _ (get_or_empty "orders" raw)) as [os|]; [|done].
    cbn [mbind option_bind] in *.
    destruct (dict_of_json _ (get_or_empty "open_orders_by_symbol" raw))
      as [ix|]; [|done].
    cbn [mbind option_bind] in *. by injection H as <-. }
  destruct (Hall st) as (_ & Hbt & Hlt).
  split_and!; try done.
  - pose proof (users_keyed_load (Some doc) STATE0 _ users_keyed_empty
                  (proj1 (Hall STATE0))) as Hk.
    exact Hk.
  - intros st2. apply Hall.
Qed.

Lemma load_state_replaces_witness :
  load_state (Some (JObj []))
    (mkAppState {["bob" := mkUser "bob" "h1"]} ∅ ∅ ∅
       {["BTCUSDT" := [("A", mkMarketState (Some 100) (Some 101) "A" 1)]]} ∅)
  = Some (mkAppState ∅ ∅ ∅ ∅
       {["BTCUSDT" := [("A", mkMarketState (Some 100) (Some 101) "A" 1)]]} ∅).
Proof.
  refine (proj2 (proj2 (proj2
    (load_state_replaces (JObj []) STATE0 (mkAppState ∅ ∅ ∅ ∅ ∅ ∅) _)))
    (mkAppState {["bob" := mkUser "bob" "h1"]} ∅ ∅ ∅
       {["BTCUSDT" := [("A", mkMarketState (Some 100) (Some 101) "A" 1)]]} ∅)).
  reflexivity.
Defined.
